(** * obsidian_latex: embed resolution and markdown-to-LaTeX translation

    A shallow embedding of [obsidian_latex.py] (classes [CompilationStats],
    [ObsidianParser] and [LatexConverter]) together with the fragment of
    Python's [str] methods and of the [re] module that the program uses.

    Text is modelled as [list ascii], one [ascii] per code point; the model
    therefore covers text whose code points are below 256 (Latin-1), and the
    character classes below are Python's classes restricted to that range. *)

From Stdlib Require Import Ascii String List ZArith Lia Bool DecimalString.
From stdpp Require Import base decidable option list gmap strings.

Set Default Proof Using "Type".
Local Open Scope list_scope.

(* ===================================================================== *)
(** ** Text: Python [str] over Latin-1 *)
(* ===================================================================== *)

Module Text.

Definition str := list ascii.

(** A Rocq string literal read as text. *)
Definition L (s : string) : str := list_ascii_of_string s.

Definition nl : ascii := ascii_of_nat 10.
(** The one-character text ["\n"]. *)
Definition NL : str := [nl].

Definition code (c : ascii) : nat := nat_of_ascii c.
Definition chr_eqb (a b : ascii) : bool := Ascii.eqb a b.
Definition in_range (lo hi : nat) (c : ascii) : bool :=
  (lo <=? code c)%nat && (code c <=? hi)%nat.

(** [str.isspace] on one code point, which is also what [\s] matches:
    TAB, LF, VT, FF, CR, FS, GS, RS, US, SPACE, NEL and NBSP. *)
Definition is_space (c : ascii) : bool :=
  in_range 9 13 c || in_range 28 31 c || (code c =? 32)%nat
  || (code c =? 133)%nat || (code c =? 160)%nat.

(** Decimal digits, what [\d] matches. *)
Definition is_digit (c : ascii) : bool := in_range 48 57 c.

(** Word characters, what [\w] matches: alphanumerics and the underscore. *)
Definition is_word (c : ascii) : bool :=
  in_range 48 57 c || in_range 65 90 c || (code c =? 95)%nat || in_range 97 122 c
  || (code c =? 170)%nat || in_range 178 179 c || (code c =? 181)%nat
  || in_range 185 186 c || in_range 188 190 c
  || in_range 192 214 c || in_range 216 246 c || in_range 248 255 c.

(** [str.lower] on one code point. *)
Definition lower_chr (c : ascii) : ascii :=
  if in_range 65 90 c || in_range 192 214 c || in_range 216 222 c
  then ascii_of_nat (code c + 32) else c.

Definition lower (s : str) : str := map lower_chr s.

(** [s.replace(old, new)] for a one-character [old]. *)
Definition replace_chr (old : ascii) (new : str) (s : str) : str :=
  flat_map (fun c => if chr_eqb c old then new else [c]) s.

(** [s.lstrip()], [s.rstrip()] and [s.strip()]. *)
Fixpoint lstrip (s : str) : str :=
  match s with
  | c :: s' => if is_space c then lstrip s' else s
  | [] => []
  end.

Definition rstrip (s : str) : str := rev (lstrip (rev s)).
Definition strip (s : str) : str := rstrip (lstrip s).

(** [s.split(sep)] for a one-character [sep]: never the empty list. *)
Fixpoint split_on (sep : ascii) (s : str) : list str :=
  match s with
  | [] => [[]]
  | c :: s' =>
      if chr_eqb c sep then [] :: split_on sep s'
      else match split_on sep s' with
           | w :: ws => (c :: w) :: ws
           | [] => [[c]]
           end
  end.

(** [sep.join(parts)]. *)
Fixpoint join (sep : str) (parts : list str) : str :=
  match parts with
  | [] => []
  | [p] => p
  | p :: ps => p ++ sep ++ join sep ps
  end.

Definition split_lines (s : str) : list str := split_on nl s.
Definition join_lines (ls : list str) : str := join NL ls.

(** [s.startswith(p)], returning the remainder when it does. *)
Fixpoint strip_prefix (p s : str) : option str :=
  match p, s with
  | [], _ => Some s
  | a :: p', b :: s' => if chr_eqb a b then strip_prefix p' s' else None
  | _ :: _, [] => None
  end.

Definition startswith (p s : str) : bool :=
  match strip_prefix p s with Some _ => true | None => false end.

(** [c in s] for a character. *)
Definition contains_chr (c : ascii) (s : str) : bool := existsb (chr_eqb c) s.

(** [s.find(p)]: the text before and after the first occurrence of [p]. *)
Fixpoint find_sub (p s : str) : option (str * str) :=
  match strip_prefix p s with
  | Some rest => Some ([], rest)
  | None =>
      match s with
      | [] => None
      | c :: s' =>
          match find_sub p s' with
          | Some (before, rest) => Some (c :: before, rest)
          | None => None
          end
      end
  end.

(** [str(n)] for a non-negative integer. *)
Definition str_of_nat (n : nat) : str :=
  L (NilEmpty.string_of_uint (Nat.to_uint n)).

(** [c * n]. *)
Definition times (c : ascii) (n : nat) : str := repeat c n.

End Text.
Export Text.

(* ===================================================================== *)
(** ** The fragment of [re] the program uses *)
(* ===================================================================== *)

Module Re.

(** Patterns.  Every unbounded quantifier of the program applies to a single
    character class, which [Many] represents; [Opt] is a greedy [(?:r)?].
    The flags are resolved where a pattern is written down: [Bol true] and
    [Eol true] are [^] and [$] under [re.MULTILINE], [LitI] is literal text
    under [re.IGNORECASE], and [.] is the class [dot] or, under [re.DOTALL],
    [any]. *)
Inductive regex : Type :=
| Chr (p : ascii -> bool)
| Lit (s : str)
| LitI (s : str)
| Seq (r1 r2 : regex)
| Alt (r1 r2 : regex)
| Many (greedy : bool) (lo : nat) (hi : option nat) (p : ascii -> bool)
| Opt (r : regex)
| Grp (n : nat) (r : regex)
| Bol (multiline : bool)
| Eol (multiline : bool).

(** Character classes. *)
Definition just (c : ascii) : ascii -> bool := fun x => chr_eqb x c.
Definition none_of (cs : str) : ascii -> bool := fun x => negb (existsb (chr_eqb x) cs).
Definition one_of (cs : str) : ascii -> bool := fun x => existsb (chr_eqb x) cs.
Definition dot : ascii -> bool := fun x => negb (chr_eqb x nl).
Definition any : ascii -> bool := fun _ => true.

(** Captured groups, most recent binding first. *)
Definition caps := list (nat * str).

Fixpoint cap_lookup (n : nat) (cs : caps) : option str :=
  match cs with
  | [] => None
  | (i, s) :: cs' => if (i =? n)%nat then Some s else cap_lookup n cs'
  end.

(** A cursor is the character just before it (if any) and the text after. *)
Definition at_bol (multiline : bool) (prev : option ascii) : bool :=
  match prev with
  | None => true
  | Some c => multiline && chr_eqb c nl
  end.

Definition at_eol (multiline : bool) (s : str) : bool :=
  match s with
  | [] => true
  | c :: s' => chr_eqb c nl && (multiline || match s' with [] => true | _ => false end)
  end.

Definition can_take (hi : option nat) : bool :=
  match hi with Some 0 => false | _ => true end.

Definition dec_hi (hi : option nat) : option nat := option_map pred hi.

Definition or_else {R} (a b : option R) : option R :=
  match a with Some r => Some r | None => b end.

Section Matcher.
Context {R : Type}.

(** Greedy [p{lo,hi}]: the longest run first, giving back one character at
    a time while the rest of the pattern [k] fails. *)
Fixpoint many_greedy (p : ascii -> bool) (lo : nat) (hi : option nat)
    (prev : option ascii) (s : str)
    (k : option ascii -> str -> option R) : option R :=
  let stop := match lo with 0 => k prev s | S _ => None end in
  match s with
  | c :: s' =>
      if p c && can_take hi
      then or_else (many_greedy p (pred lo) (dec_hi hi) (Some c) s' k) stop
      else stop
  | [] => stop
  end.

(** Lazy [p{lo,hi}?]: the shortest run first. *)
Fixpoint many_lazy (p : ascii -> bool) (lo : nat) (hi : option nat)
    (prev : option ascii) (s : str)
    (k : option ascii -> str -> option R) : option R :=
  let more :=
    match s with
    | c :: s' =>
        if p c && can_take hi
        then many_lazy p (pred lo) (dec_hi hi) (Some c) s' k
        else None
    | [] => None
    end in
  match lo with
  | 0 => or_else (k prev s) more
  | S _ => more
  end.

Fixpoint lit_match (eq : ascii -> ascii -> bool) (l : str)
    (prev : option ascii) (s : str) : option (option ascii * str) :=
  match l with
  | [] => Some (prev, s)
  | a :: l' =>
      match s with
      | c :: s' => if eq c a then lit_match eq l' (Some c) s' else None
      | [] => None
      end
  end.

Definition eq_nocase (c a : ascii) : bool := chr_eqb (lower_chr c) (lower_chr a).

(** Backtracking matcher in continuation-passing style: [k] is the rest of
    the pattern, and the first success in priority order is returned. *)
Fixpoint rmatch (r : regex) (prev : option ascii) (s : str) (cs : caps)
    (k : option ascii -> str -> caps -> option R) : option R :=
  match r with
  | Chr p =>
      match s with
      | c :: s' => if p c then k (Some c) s' cs else None
      | [] => None
      end
  | Lit l =>
      match lit_match chr_eqb l prev s with
      | Some (prev', s') => k prev' s' cs
      | None => None
      end
  | LitI l =>
      match lit_match eq_nocase l prev s with
      | Some (prev', s') => k prev' s' cs
      | None => None
      end
  | Seq r1 r2 =>
      rmatch r1 prev s cs (fun prev' s' cs' => rmatch r2 prev' s' cs' k)
  | Alt r1 r2 =>
      or_else (rmatch r1 prev s cs k) (rmatch r2 prev s cs k)
  | Many true lo hi p =>
      many_greedy p lo hi prev s (fun prev' s' => k prev' s' cs)
  | Many false lo hi p =>
      many_lazy p lo hi prev s (fun prev' s' => k prev' s' cs)
  | Opt r1 =>
      or_else (rmatch r1 prev s cs k) (k prev s cs)
  | Grp n r1 =>
      rmatch r1 prev s cs
        (fun prev' s' cs' => k prev' s' ((n, take (length s - length s') s) :: cs'))
  | Bol ml => if at_bol ml prev then k prev s cs else None
  | Eol ml => if at_eol ml s then k prev s cs else None
  end.
End Matcher.

(** A match object: the matched text (group 0), the groups and the text that
    follows the match. *)
Record Match := { m_text : str; m_caps : caps; m_rest : str }.

(** [m.group(n)] for [n >= 1]; [None] when the group took no part. *)
Definition group (m : Match) (n : nat) : option str := cap_lookup n (m_caps m).

(** [m.group(n)] where the group is known to have taken part. *)
Definition group_str (m : Match) (n : nat) : str := default [] (group m n).

(** One match attempt at a cursor.  With [must_advance] an empty match is
    refused, as the engine does right after an empty match. *)
Definition match_at (r : regex) (must_advance : bool) (prev : option ascii) (s : str)
    : option Match :=
  rmatch r prev s []
    (fun _ s' cs =>
       if must_advance && (length s <=? length s')%nat then None
       else Some {| m_text := take (length s - length s') s; m_caps := cs; m_rest := s' |}).

(** [re.match(r, s)]. *)
Definition re_match (r : regex) (s : str) : option Match := match_at r false None s.

(** [re.search(r, s)]. *)
Fixpoint search_from (r : regex) (prev : option ascii) (s : str) : option Match :=
  match match_at r false prev s with
  | Some m => Some m
  | None =>
      match s with
      | c :: s' => search_from r (Some c) s'
      | [] => None
      end
  end.

Definition re_search (r : regex) (s : str) : option Match := search_from r None s.

(** [re.sub(r, f, s)] where the callable [f] may update a state of type [S].
    [skip] counts the characters of the current match still to be dropped. *)
Fixpoint sub_scan {S : Type} (r : regex) (f : Match -> S -> str * S)
    (prev : option ascii) (s : str) (skip : nat) (st : S) : str * S :=
  match skip, s with
  | S n, c :: s' => sub_scan r f (Some c) s' n st
  | S _, [] => ([], st)
  | 0, _ =>
      match match_at r false prev s with
      | None =>
          match s with
          | c :: s' =>
              let '(out, st1) := sub_scan r f (Some c) s' 0 st in (c :: out, st1)
          | [] => ([], st)
          end
      | Some m =>
          let '(rep, st1) := f m st in
          match s with
          | [] => (rep, st1)
          | c :: s' =>
              match length (m_text m) with
              | S n =>
                  let '(out, st2) := sub_scan r f (Some c) s' n st1 in (rep ++ out, st2)
              | 0 =>
                  match match_at r true prev s with
                  | Some m2 =>
                      let '(rep2, st2) := f m2 st1 in
                      let '(out, st3) :=
                        sub_scan r f (Some c) s' (pred (length (m_text m2))) st2 in
                      (rep ++ rep2 ++ out, st3)
                  | None =>
                      let '(out, st2) := sub_scan r f (Some c) s' 0 st1 in
                      (rep ++ c :: out, st2)
                  end
              end
          end
      end
  end.

Definition re_sub_st {S : Type} (r : regex) (f : Match -> S -> str * S)
    (s : str) (st : S) : str * S :=
  sub_scan r f None s 0 st.

(** [re.sub(r, f, s)] with a callable that has no effect. *)
Definition re_sub (r : regex) (f : Match -> str) (s : str) : str :=
  fst (re_sub_st r (fun m (u : unit) => (f m, u)) s tt).

(** Concatenation of the parts of a pattern, in order. *)
Fixpoint cat (rs : list regex) : regex :=
  match rs with
  | [] => Lit []
  | [r] => r
  | r :: rs' => Seq r (cat rs')
  end.

End Re.
Export Re.


(* ===================================================================== *)
(** ** The environment: [pathlib], the file system and the YAML loader *)
(* ===================================================================== *)

(** A write of [convert_images] to the output directory:
    [dir.mkdir(exist_ok=True)] and [shutil.copy2(src, dst)]. *)
Inductive FsOp (P : Type) :=
| Mkdir (dir : P)
| Copy2 (src dst : P).
Arguments Mkdir {P} dir.
Arguments Copy2 {P} src dst.

(** What the program asks of its libraries.  [read_text p] is the text that
    [open(p, 'r', encoding='utf-8').read()] returns; [yaml_safe_load] is
    [None] where [yaml.safe_load] raises [YAMLError].  The file system is
    read as it is when the run starts.  Its writes can raise:
    [mkdir_returns ops dir] tells whether [dir.mkdir(exist_ok=True)] returns
    after the writes [ops] of the run, oldest first, and [copy2_returns ops
    src dst] whether [shutil.copy2(src, dst)] does; where they do not, the
    call raises ([FileNotFoundError] where the folder of the target is
    missing, [FileExistsError], [IsADirectoryError], [PermissionError]). *)
Class Environment := {
  Path : Type;
  path_div : Path -> str -> Path;
  path_str : Path -> str;
  path_exists : Path -> bool;
  read_text : Path -> str;
  rglob : Path -> str -> list Path;
  Yaml : Type;
  empty_dict : Yaml;
  yaml_safe_load : str -> option Yaml;
  mkdir_returns : list (FsOp Path) -> Path -> bool;
  copy2_returns : list (FsOp Path) -> Path -> Path -> bool
}.

(* ===================================================================== *)
(** ** Patterns of the program *)
(* ===================================================================== *)

(** Each pattern is preceded by its source text; there a space is written
    between a star and a closing parenthesis that follows it. *)
Module Pat.

(** [^(#{1,6})\s+(.+)$], with or without [re.MULTILINE]. *)
Definition heading (multiline : bool) : regex :=
  cat [Bol multiline; Grp 1 (Many true 1 (Some 6) (just "#"));
       Many true 1 None is_space; Grp 2 (Many true 1 None dot); Eol multiline].

(** [^(#{1,6})\s+] *)
Definition heading_prefix : regex :=
  cat [Bol false; Grp 1 (Many true 1 (Some 6) (just "#")); Many true 1 None is_space].

(** [!\[\[([^\]#]+)(?:#([^\]]+))?\]\]] *)
Definition embed_parts : regex :=
  cat [Lit (L "![["); Grp 1 (Many true 1 None (none_of (L "]#")));
       Opt (Seq (Lit (L "#")) (Grp 2 (Many true 1 None (none_of (L "]")))));
       Lit (L "]]")].

(** [!\[\[[^\]]+\]\]] *)
Definition embed : regex :=
  cat [Lit (L "![["); Many true 1 None (none_of (L "]")); Lit (L "]]")].

(** [\[\[([^\]#|]+)(?:#([^\]|]+))?(?:\|([^\]]+))?\]\]] *)
Definition wikilink : regex :=
  cat [Lit (L "[["); Grp 1 (Many true 1 None (none_of (L "]#|")));
       Opt (Seq (Lit (L "#")) (Grp 2 (Many true 1 None (none_of (L "]|")))));
       Opt (Seq (Lit (L "|")) (Grp 3 (Many true 1 None (none_of (L "]")))));
       Lit (L "]]")].

(** [(png|jpg|jpeg|gif|pdf)] under [re.IGNORECASE], as group [n]. *)
Definition image_ext (n : nat) : regex :=
  Grp n (Alt (LitI (L "png")) (Alt (LitI (L "jpg")) (Alt (LitI (L "jpeg"))
        (Alt (LitI (L "gif")) (LitI (L "pdf")))))).

(** [!\[\[([^\]]+\.(png|jpg|jpeg|gif|pdf))\]\]] under [re.IGNORECASE]. *)
Definition image_embed : regex :=
  cat [Lit (L "![["); Grp 1 (cat [Many true 1 None (none_of (L "]")); Lit (L "."); image_ext 2]);
       Lit (L "]]")].

(** The standard image form under [re.IGNORECASE]: [!\[], group 1 [[^\]]*],
    [\]\(], group 2 [[^)]+\.(png|jpg|jpeg|gif|pdf)], and [\)]. *)
Definition image_std : regex :=
  cat [Lit (L "!["); Grp 1 (Many true 0 None (none_of (L "]"))); Lit (L "](");
       Grp 2 (cat [Many true 1 None (none_of (L ")")); Lit (L "."); image_ext 3]);
       Lit (L ")")].

(** [(.+)] *)
Definition rest_of_line : regex := Grp 1 (Many true 1 None dot).

(** [\^\[([^\]]+)\]] *)
Definition footnote_inline : regex :=
  cat [Lit (L "^["); Grp 1 (Many true 1 None (none_of (L "]"))); Lit (L "]")].

(** [^\[\^(\w+)\]:\s*(.+)$] under [re.MULTILINE]. *)
Definition footnote_def : regex :=
  cat [Bol true; Lit (L "[^"); Grp 1 (Many true 1 None is_word); Lit (L "]:");
       Many true 0 None is_space; Grp 2 (Many true 1 None dot); Eol true].

(** [\[\^(\w+)\]] *)
Definition footnote_ref : regex :=
  cat [Lit (L "[^"); Grp 1 (Many true 1 None is_word); Lit (L "]")].

(** [^(\s* )[-*+]\s+(.+)$] *)
Definition unordered_item : regex :=
  cat [Bol false; Grp 1 (Many true 0 None is_space); Chr (one_of (L "-*+"));
       Many true 1 None is_space; Grp 2 (Many true 1 None dot); Eol false].

(** [^(\s* )\d+\.\s+(.+)$] *)
Definition ordered_item : regex :=
  cat [Bol false; Grp 1 (Many true 0 None is_space); Many true 1 None is_digit;
       Lit (L "."); Many true 1 None is_space; Grp 2 (Many true 1 None dot); Eol false].

(** [\*\*(.+?)\*\*], [\*(.+?)\*], [__(.+?)__] and [_(.+?)_]: a lazy span
    between two copies of a marker. *)
Definition emphasis (marker : string) : regex :=
  cat [Lit (L marker); Grp 1 (Many false 1 None dot); Lit (L marker)].

(** [`([^`]+)`] *)
Definition code_span : regex :=
  cat [Lit (L "`"); Grp 1 (Many true 1 None (none_of (L "`"))); Lit (L "`")].

(** [```(\w* )\n(.*?)```] under [re.DOTALL]. *)
Definition code_fence : regex :=
  cat [Lit (L "```"); Grp 1 (Many true 0 None is_word); Lit NL;
       Grp 2 (Many false 0 None any); Lit (L "```")].

End Pat.

(* ===================================================================== *)
(** ** Data model *)
(* ===================================================================== *)

(** [CompilationStats]: statistics and warnings of one run. *)
Record CompilationStats := mkStats {
  files_embedded : gset str;
  sections_processed : nat;
  images_copied : gset str;
  internal_links : nat;
  warnings : list str
}.

(** [CompilationStats()] *)
Definition new_stats : CompilationStats :=
  mkStats ∅ 0 ∅ 0 [].

Definition add_warning (message : str) (s : CompilationStats) : CompilationStats :=
  mkStats (files_embedded s) (sections_processed s) (images_copied s)
          (internal_links s) (warnings s ++ [message]).

Definition add_file_embedded (name : str) (s : CompilationStats) : CompilationStats :=
  mkStats ({[name]} ∪ files_embedded s) (sections_processed s) (images_copied s)
          (internal_links s) (warnings s).

Definition incr_sections_processed (s : CompilationStats) : CompilationStats :=
  mkStats (files_embedded s) (S (sections_processed s)) (images_copied s)
          (internal_links s) (warnings s).

Definition add_image_copied (name : str) (s : CompilationStats) : CompilationStats :=
  mkStats (files_embedded s) (sections_processed s) ({[name]} ∪ images_copied s)
          (internal_links s) (warnings s).

Definition incr_internal_links (s : CompilationStats) : CompilationStats :=
  mkStats (files_embedded s) (sections_processed s) (images_copied s)
          (S (internal_links s)) (warnings s).

Section Program.
Context {env : Environment}.

(** The fields of [Config] that the parser and the converter read. *)
Record Config := mkConfig {
  cfg_vault_path : Path;
  vault_name : str;
  attachments_folder : str;
  obsidian_uri : bool
}.

(** [ObsidianParser]: the vault, the statistics object it shares with the
    converter, and the keys of the embeds already expanded. *)
Record ObsidianParser := mkParser {
  vault_path : Path;
  stats : CompilationStats;
  embedded_files : gset str
}.

(** [ObsidianParser(vault_path, stats)] *)
Definition new_parser (vp : Path) (s : CompilationStats) : ObsidianParser :=
  mkParser vp s ∅.

Definition with_stats (s : CompilationStats) (p : ObsidianParser) : ObsidianParser :=
  mkParser (vault_path p) s (embedded_files p).

Definition add_embedded (key : str) (p : ObsidianParser) : ObsidianParser :=
  mkParser (vault_path p) (stats p) ({[key]} ∪ embedded_files p).

(* ===================================================================== *)
(** ** [ObsidianParser] *)
(* ===================================================================== *)

(** [read_file]: the front matter and the body of a file. *)
Definition read_file (filepath : Path) (s : CompilationStats)
    : (Yaml * str) * CompilationStats :=
  if negb (path_exists filepath) then
    ((empty_dict, []), add_warning (L "File not found: " ++ path_str filepath) s)
  else
    let content := read_text filepath in
    if startswith (L "---" ++ NL) content then
      match find_sub (NL ++ L "---" ++ NL) (drop 4 content) with
      | Some (block, rest) =>
          match yaml_safe_load block with
          | Some frontmatter => ((frontmatter, rest), s)
          | None => ((empty_dict, content), s)
          end
      | None => ((empty_dict, content), s)
      end
    else ((empty_dict, content), s).

(** A line taken as a heading the way [extract_section] does: the rank
    [len(heading_match.group(1))] and the title [heading_match.group(2).strip()]. *)
Definition heading_of (line : str) : option (nat * str) :=
  match re_match (Pat.heading false) line with
  | Some heading_match =>
      Some (length (group_str heading_match 1), strip (group_str heading_match 2))
  | None => None
  end.

(** The loop of [extract_section]: [in_section], [section_level] and
    [result_lines] are its variables; the result is their final value. *)
Fixpoint extract_loop (section_name : str) (lines : list str)
    (in_section : bool) (section_level : option nat) (result_lines : list str)
    : bool * list str :=
  match lines with
  | [] => (in_section, result_lines)
  | line :: rest =>
      let keep := if in_section then result_lines ++ [line] else result_lines in
      match heading_of line with
      | Some (level, title) =>
          if bool_decide (title = section_name) && negb in_section then
            extract_loop section_name rest true (Some level) result_lines
          else if in_section
                  && match section_level with
                     | Some sl => (level <=? sl)%nat
                     | None => false
                     end then
            (in_section, result_lines)
          else extract_loop section_name rest in_section section_level keep
      | None => extract_loop section_name rest in_section section_level keep
      end
  end.

Definition not_found_warning (section_name : str) : str :=
  L "Section '" ++ section_name ++ L "' not found".

(** [extract_section]: [None] is Python's [None]. *)
Definition extract_section (content section_name : str) (s : CompilationStats)
    : option str * CompilationStats :=
  let lines := split_lines content in
  let '(in_section, result_lines) := extract_loop section_name lines false None [] in
  if negb in_section then
    (None, add_warning (not_found_warning section_name) s)
  else (Some (join_lines result_lines), s).

(** The callable of [demote_headings]. *)
Definition demote_heading (levels : Z) (m : Match) : str :=
  let current_hashes := group_str m 1 in
  let title := group_str m 2 in
  let new_hashes :=
    times "#" (Z.to_nat (Z.min (Z.of_nat (length current_hashes) + levels) 6)) in
  new_hashes ++ L " " ++ title.

(** [demote_headings] *)
Definition demote_headings (content : str) (levels : Z) : str :=
  re_sub (Pat.heading true) (demote_heading levels) content.

(** [_find_file] *)
Definition _find_file (p : ObsidianParser) (filename : str) : option Path :=
  let direct_path := path_div (vault_path p) (filename ++ L ".md") in
  if path_exists direct_path then Some direct_path
  else match rglob (vault_path p) (filename ++ L ".md") with
       | md_file :: _ => Some md_file
       | [] => None
       end.

(** [match.group(n).strip() if match.group(n) else None] *)
Definition stripped_group (m : Match) (n : nat) : option str :=
  match group m n with
  | Some (c :: g) => Some (strip (c :: g))
  | _ => None
  end.

(** The file name and the section of an embed, as [resolve_embed] reads them. *)
Definition embed_filename (m : Match) : str := strip (group_str m 1).
Definition embed_section (m : Match) : option str := stripped_group m 2.

(** [if section] holds for a section that is neither [None] nor empty. *)
Definition truthy (section : option str) : bool :=
  match section with
  | Some (_ :: _) => true
  | _ => false
  end.

(** [f"{filename}#{section}" if section else filename] *)
Definition make_key (filename : str) (section : option str) : str :=
  match section with
  | Some (c :: sec) => filename ++ L "#" ++ (c :: sec)
  | _ => filename
  end.

(** The first lines of [resolve_embed]: the pattern applied to the embed text,
    then the file name and the section read off the groups. *)
Definition parse_embed (embed_match : str) : option (str * option str) :=
  match re_match Pat.embed_parts embed_match with
  | None => None
  | Some m => Some (embed_filename m, embed_section m)
  end.

Definition duplicate_warning (embed_key : str) (line_num : nat) : str :=
  L "Duplicate embed skipped: " ++ embed_key ++ L " (line " ++ str_of_nat line_num ++ L ")".

Definition missing_warning (filename : str) (line_num : nat) : str :=
  L "Missing file: " ++ filename ++ L ".md (line " ++ str_of_nat line_num ++ L ")".

Definition missing_marker (filename : str) : str := L "[MISSING: " ++ filename ++ L "]".

Definition missing_section_marker (filename section : str) : str :=
  L "[MISSING SECTION: " ++ filename ++ L "#" ++ section ++ L "]".

(** [resolve_embed] *)
Definition resolve_embed (embed_match : str) (current_heading_level : nat)
    (line_num : nat) (p : ObsidianParser) : str * ObsidianParser :=
  match parse_embed embed_match with
  | None => (embed_match, p)
  | Some (filename, section) =>
      let embed_key := make_key filename section in
      if bool_decide (embed_key ∈ embedded_files p) then
        ([], with_stats (add_warning (duplicate_warning embed_key line_num) (stats p)) p)
      else
        let p1 := add_embedded embed_key p in
        let p2 := with_stats (add_file_embedded filename (stats p1)) p1 in
        match _find_file p2 filename with
        | None =>
            (missing_marker filename,
             with_stats (add_warning (missing_warning filename line_num) (stats p2)) p2)
        | Some filepath =>
            let '((_, content), s3) := read_file filepath (stats p2) in
            let p3 := with_stats s3 p2 in
            let '(extracted, p4) :=
              if truthy section then
                let '(r, s4) := extract_section content (default [] section) (stats p3) in
                (r, with_stats s4 p3)
              else (Some content, p3) in
            match extracted with
            | None => (missing_section_marker filename (default [] section), p4)
            | Some content' =>
                (demote_headings content' 1,
                 with_stats (incr_sections_processed (stats p4)) p4)
            end
        end
  end.

(** [get_current_heading_level]: the rank of the nearest heading among
    [lines[0 .. current_idx - 1]], scanning backwards; 0 without one. *)
Fixpoint nearest_heading_level (lines_rev : list str) : nat :=
  match lines_rev with
  | [] => 0
  | line :: before =>
      match re_match Pat.heading_prefix line with
      | Some m => length (group_str m 1)
      | None => nearest_heading_level before
      end
  end.

Definition get_current_heading_level (lines : list str) (current_idx : nat) : nat :=
  nearest_heading_level (rev (take current_idx lines)).

(** The body of the loop of [process_embeds]: one line and its number. *)
Definition process_line (lines : list str) (line_num : nat) (line : str)
    (p : ObsidianParser) : str * ObsidianParser :=
  match re_search Pat.embed line with
  | Some _ =>
      let current_level := get_current_heading_level lines line_num in
      re_sub_st Pat.embed
        (fun m => resolve_embed (m_text m) current_level line_num) line p
  | None => (line, p)
  end.

(** The loop of [process_embeds] over [enumerate(lines, 1)]. *)
Fixpoint process_lines (lines : list str) (line_num : nat) (todo : list str)
    (p : ObsidianParser) : list str * ObsidianParser :=
  match todo with
  | [] => ([], p)
  | line :: todo' =>
      let '(line', p1) := process_line lines line_num line p in
      let '(result_lines, p2) := process_lines lines (S line_num) todo' p1 in
      (line' :: result_lines, p2)
  end.

(** [process_embeds] *)
Definition process_embeds (content : str) (p : ObsidianParser) : str * ObsidianParser :=
  let lines := split_lines content in
  let '(result_lines, p') := process_lines lines 1 lines p in
  (join_lines result_lines, p').

(* ===================================================================== *)
(** ** [LatexConverter] *)
(* ===================================================================== *)

(** [LatexConverter]; [fs_ops] is the trace of its writes, oldest first. *)
Record LatexConverter := mkConverter {
  c_vault_path : Path;
  output_dir : Path;
  c_stats : CompilationStats;
  config : Config;
  label_counter : nat;
  section_labels : gmap str str;
  fs_ops : list (FsOp Path)
}.

(** [LatexConverter(vault_path, output_dir, stats, config)] *)
Definition new_converter (vp out : Path) (s : CompilationStats) (cfg : Config)
    : LatexConverter :=
  mkConverter vp out s cfg 0 ∅ [].

Definition c_with_stats (s : CompilationStats) (c : LatexConverter) : LatexConverter :=
  mkConverter (c_vault_path c) (output_dir c) s (config c) (label_counter c)
              (section_labels c) (fs_ops c).

Definition c_incr_label_counter (c : LatexConverter) : LatexConverter :=
  mkConverter (c_vault_path c) (output_dir c) (c_stats c) (config c)
              (S (label_counter c)) (section_labels c) (fs_ops c).

Definition c_log (ops : list (FsOp Path)) (c : LatexConverter) : LatexConverter :=
  mkConverter (c_vault_path c) (output_dir c) (c_stats c) (config c)
              (label_counter c) (section_labels c) (fs_ops c ++ ops).

Definition backslash : ascii := ascii_of_nat 92.

(** A LaTeX command name with its backslash. *)
Definition tex (name : string) : str := backslash :: L name.

(** The callable of [convert_wikilinks]. *)
Definition replace_link (m : Match) (c : LatexConverter) : str * LatexConverter :=
  let filename := strip (group_str m 1) in
  let section := stripped_group m 2 in
  let display := stripped_group m 3 in
  let link_text :=
    if truthy display then default [] display
    else if truthy section then default [] section
    else filename in
  let embed_key := make_key filename section in
  if bool_decide (embed_key ∈ files_embedded (c_stats c))
     || bool_decide (filename ∈ files_embedded (c_stats c)) then
    let c' := c_with_stats (incr_internal_links (c_stats c)) c in
    let label :=
      default (L "sec:" ++ replace_chr " " (L "_") filename)
              (section_labels c' !! embed_key) in
    (tex "hyperref[" ++ label ++ L "]{" ++ link_text ++ L "}", c')
  else if obsidian_uri (config c) then
    let file_part := replace_chr " " (L "%20") filename in
    let uri := L "obsidian://open?vault=" ++ vault_name (config c)
                 ++ L "&file=" ++ file_part in
    let uri :=
      if truthy section
      then uri ++ L "&heading=" ++ replace_chr " " (L "%20") (default [] section)
      else uri in
    (tex "href{" ++ uri ++ L "}{" ++ link_text ++ L "}", c)
  else
    let filepath := path_div (c_vault_path c) (filename ++ L ".md") in
    (tex "href{file://" ++ path_str filepath ++ L "}{" ++ link_text ++ L "}", c).

(** [convert_wikilinks] *)
Definition convert_wikilinks (content : str) (c : LatexConverter)
    : str * LatexConverter :=
  re_sub_st Pat.wikilink replace_link content c.

(** The callable [replace_image] of [convert_images]; [None] where
    [mkdir] or [shutil.copy2] raises.  The folder [images] is made before
    the file is copied, and the name of the image is recorded after. *)
Definition replace_image (m : Match) (c : LatexConverter)
    : option (str * LatexConverter) :=
  let filename := strip (group_str m 1) in
  let image_path :=
    path_div (path_div (c_vault_path c) (attachments_folder (config c))) filename in
  if negb (path_exists image_path) then
    Some (L "[MISSING IMAGE: " ++ filename ++ L "]",
          c_with_stats (add_warning (L "Image not found: " ++ filename) (c_stats c)) c)
  else
    let output_images := path_div (output_dir c) (L "images") in
    if negb (mkdir_returns (fs_ops c) output_images) then None
    else
      let c1 := c_log [Mkdir output_images] c in
      let output_path := path_div output_images filename in
      if negb (copy2_returns (fs_ops c1) image_path output_path) then None
      else
        let c2 := c_log [Copy2 image_path output_path] c1 in
        let c3 := c_with_stats (add_image_copied filename (c_stats c2)) c2 in
        Some (tex "includegraphics[max width=" ++ tex "textwidth]{images/"
                ++ filename ++ L "}", c3).

(** A callable that can raise, as the callable of a substitution: the state
    [None] stands for a run that has raised, and stays so. *)
Definition raising (f : Match -> LatexConverter -> option (str * LatexConverter))
    (m : Match) (oc : option LatexConverter) : str * option LatexConverter :=
  match oc with
  | None => ([], None)
  | Some c =>
      match f m c with
      | Some (r, c') => (r, Some c')
      | None => ([], None)
      end
  end.

(** The lambda of the second substitution of [convert_images]:
    [replace_image(re.match(r'(.+)', m.group(2)))].  Where [re.match] gives
    [None] the call raises [AttributeError]. *)
Definition replace_image_std (m : Match) (oc : option LatexConverter)
    : str * option LatexConverter :=
  match re_match Pat.rest_of_line (group_str m 2) with
  | None => ([], None)
  | Some m' => raising replace_image m' oc
  end.

(** [convert_images]; [None] where it raises. *)
Definition convert_images (content : str) (c : LatexConverter)
    : option (str * LatexConverter) :=
  let '(content1, oc1) :=
    re_sub_st Pat.image_embed (raising replace_image) content (Some c) in
  let '(content2, oc2) := re_sub_st Pat.image_std replace_image_std content1 oc1 in
  match oc2 with
  | Some c2 => Some (content2, c2)
  | None => None
  end.

(** [convert_footnotes] *)
Definition convert_footnotes (content : str) : str :=
  let content1 :=
    re_sub Pat.footnote_inline
      (fun m => tex "footnote{" ++ group_str m 1 ++ L "}") content in
  let '(content2, footnote_defs) :=
    re_sub_st Pat.footnote_def
      (fun m (defs : gmap str str) => ([], <[group_str m 1 := group_str m 2]> defs))
      content1 ∅ in
  re_sub Pat.footnote_ref
    (fun m =>
       match footnote_defs !! group_str m 1 with
       | Some text => tex "footnote{" ++ text ++ L "}"
       | None => m_text m
       end)
    content2.

(** [xs[1:-1]] *)
Definition inner {A} (xs : list A) : list A := removelast (tail xs).

(** [[cell.strip() for cell in line.split('|')[1:-1]]] *)
Definition cells_of (line : str) : list str :=
  map strip (inner (split_on "|" line)).

(** One line of a tabular: the cells joined and the row terminator. *)
Definition table_row (cells : list str) : str :=
  join (L " & ") cells ++ L " " ++ [backslash; backslash] ++ NL.

(** [_convert_table] *)
Definition _convert_table (table_lines : list str) : str :=
  if (length table_lines <? 2)%nat then join_lines table_lines
  else
    let header := cells_of (nth 0 table_lines []) in
    let num_cols := length header in
    let data_rows :=
      fold_left
        (fun rows line =>
           let cells := cells_of line in
           if (length cells =? num_cols)%nat then rows ++ [cells] else rows)
        (drop 2 table_lines) [] in
    let col_spec := times "l" num_cols in
    let latex0 := tex "begin{tabular}{" ++ col_spec ++ L "}" ++ NL in
    let latex1 := latex0 ++ tex "hline" ++ NL in
    let latex2 := latex1 ++ table_row header in
    let latex3 := latex2 ++ tex "hline" ++ NL in
    let latex4 := fold_left (fun latex row => latex ++ table_row row) data_rows latex3 in
    let latex5 := latex4 ++ tex "hline" ++ NL in
    latex5 ++ tex "end{tabular}".

(** ['|' in line and line.strip().startswith('|')] *)
Definition is_table_line (line : str) : bool :=
  contains_chr "|" line && startswith (L "|") (strip line).

(** The loop of [convert_tables]. *)
Fixpoint tables_loop (lines : list str) (result : list str)
    (in_table : bool) (table_lines : list str) : list str :=
  match lines with
  | [] => if in_table then result ++ [_convert_table table_lines] else result
  | line :: rest =>
      if is_table_line line then
        tables_loop rest result true ((if in_table then table_lines else []) ++ [line])
      else
        let result1 :=
          if in_table then result ++ [_convert_table table_lines] else result in
        tables_loop rest (result1 ++ [line]) false []
  end.

(** [convert_tables] *)
Definition convert_tables (content : str) : str :=
  join_lines (tables_loop (split_lines content) [] false []).

(** [heading_map]; [None] for a key it does not have. *)
Definition heading_map (level : nat) : option str :=
  match level with
  | 1 => Some (L "section")
  | 2 => Some (L "subsection")
  | 3 => Some (L "subsubsection")
  | 4 => Some (L "paragraph")
  | 5 => Some (L "subparagraph")
  | 6 => Some (L "subparagraph")
  | _ => None
  end.

(** The label of a heading: [f"sec:{title.lower().replace(' ', '_')}"]. *)
Definition heading_label (title : str) : str :=
  L "sec:" ++ replace_chr " " (L "_") (lower title).

(** The callable [replace_heading] of [convert_markdown_to_latex]. *)
Definition replace_heading (m : Match) (c : LatexConverter) : str * LatexConverter :=
  let level := length (group_str m 1) in
  let title := group_str m 2 in
  let cmd := default (L "paragraph") (heading_map level) in
  let label := heading_label title in
  (backslash :: cmd ++ L "{" ++ title ++ L "}" ++ tex "label{" ++ label ++ L "}",
   c_incr_label_counter c).

(** The heading pass of [convert_markdown_to_latex]. *)
Definition convert_headings (content : str) (c : LatexConverter)
    : str * LatexConverter :=
  re_sub_st (Pat.heading true) replace_heading content c.

Definition list_begin (list_type : str) : str := tex "begin{" ++ list_type ++ L "}".
Definition list_end (list_type : option str) : str :=
  tex "end{" ++ default (L "None") list_type ++ L "}".

(** The loop of [_convert_lists]. *)
Fixpoint lists_loop (lines : list str) (result : list str)
    (in_list : bool) (list_type : option str) : list str :=
  match lines with
  | [] => if in_list then result ++ [list_end list_type] else result
  | line :: rest =>
      let unordered := re_match Pat.unordered_item line in
      let ordered := re_match Pat.ordered_item line in
      let item :=
        match unordered, ordered with
        | Some u, _ => Some (group_str u 2, L "itemize")
        | None, Some o => Some (group_str o 2, L "enumerate")
        | None, None => None
        end in
      match item with
      | Some (item_text, current_type) =>
          let result1 :=
            if negb in_list then result ++ [list_begin current_type]
            else if negb (bool_decide (list_type = Some current_type))
                 then result ++ [list_end list_type; list_begin current_type]
                 else result in
          lists_loop rest (result1 ++ [L "  " ++ tex "item " ++ item_text])
                     true (Some current_type)
      | None =>
          let result1 := if in_list then result ++ [list_end list_type] else result in
          lists_loop rest (result1 ++ [line]) false None
      end
  end.

(** [_convert_lists] *)
Definition _convert_lists (content : str) : str :=
  join_lines (lists_loop (split_lines content) [] false None).

(** The replacement templates [r'\\textbf{\1}'] and the like. *)
Definition wrap_group (cmd : string) (m : Match) : str :=
  tex cmd ++ L "{" ++ group_str m 1 ++ L "}".

(** The callable of [_convert_code_blocks]. *)
Definition replace_code (m : Match) : str :=
  let code := group_str m 2 in
  tex "begin{verbatim}" ++ NL ++ code ++ NL ++ tex "end{verbatim}".

(** [_convert_code_blocks] *)
Definition _convert_code_blocks (content : str) : str :=
  re_sub Pat.code_fence replace_code content.

(** The emphasis and inline-code passes of [convert_markdown_to_latex]. *)
Definition convert_emphasis (content : str) : str :=
  let content1 := re_sub (Pat.emphasis "**") (wrap_group "textbf") content in
  let content2 := re_sub (Pat.emphasis "*") (wrap_group "textit") content1 in
  let content3 := re_sub (Pat.emphasis "__") (wrap_group "textbf") content2 in
  re_sub (Pat.emphasis "_") (wrap_group "textit") content3.

Definition convert_code_spans (content : str) : str :=
  re_sub Pat.code_span (wrap_group "texttt") content.

(** [convert_markdown_to_latex]; [None] where it raises. *)
Definition convert_markdown_to_latex (content : str) (c : LatexConverter)
    : option (str * LatexConverter) :=
  let content1 := convert_footnotes content in
  let content2 := convert_tables content1 in
  match convert_images content2 c with
  | None => None
  | Some (content3, c3) =>
      let '(content4, c4) := convert_wikilinks content3 c3 in
      let '(content5, c5) := convert_headings content4 c4 in
      let content6 := _convert_lists content5 in
      let content7 := convert_emphasis content6 in
      let content8 := convert_code_spans content7 in
      Some (_convert_code_blocks content8, c5)
  end.

(** The body of [compile_document] up to the translated text: the master
    file is read, its embeds are resolved, and the result is translated with
    a converter that shares the statistics object of the parser. *)
Definition translate_master (cfg : Config) (out : Path) (master_file : Path)
    : option (Yaml * str * LatexConverter) :=
  let parser := new_parser (cfg_vault_path cfg) new_stats in
  let '((frontmatter, content), s1) := read_file master_file (stats parser) in
  let '(content', parser') := process_embeds content (with_stats s1 parser) in
  let converter := new_converter (cfg_vault_path cfg) out (stats parser') cfg in
  match convert_markdown_to_latex content' converter with
  | Some (latex_body, converter') => Some (frontmatter, latex_body, converter')
  | None => None
  end.

End Program.

(* ===================================================================== *)
(** ** Vocabulary of the statements *)
(* ===================================================================== *)

(** The character before the cursor once [w] has been read. *)
Definition after (prev : option ascii) (w : str) : option ascii :=
  fold_left (fun _ c => Some c) w prev.

(** The class [p] cannot go on into [s]. *)
Definition stops (p : ascii -> bool) (s : str) : Prop :=
  match s with
  | [] => True
  | c :: _ => p c = false
  end.

Definition within (n : nat) (hi : option nat) : Prop :=
  match hi with
  | Some h => n <= h
  | None => True
  end.

(** The words of a pattern, flags and priorities apart: what a match can be. *)
Fixpoint lang (r : regex) (w : str) : Prop :=
  match r with
  | Chr p => exists c, w = [c] /\ p c = true
  | Lit l => w = l
  | LitI l => Forall2 (fun c a => eq_nocase c a = true) w l
  | Seq r1 r2 => exists w1 w2, w = w1 ++ w2 /\ lang r1 w1 /\ lang r2 w2
  | Alt r1 r2 => lang r1 w \/ lang r2 w
  | Many _ lo hi p =>
      Forall (fun c => p c = true) w /\ lo <= length w /\ within (length w) hi
  | Opt r1 => w = [] \/ lang r1 w
  | Grp _ r1 => lang r1 w
  | Bol _ => w = []
  | Eol _ => w = []
  end.

(** No character of [w] is one of [cs]. *)
Definition avoids (cs : str) (w : str) : Prop := Forall (fun c => ~ In c cs) w.

(** A text has no line break. *)
Definition one_line (s : str) : Prop := Forall (fun c => c <> nl) s.

(** The embed token [![[body]]] and the link [[[name]]]. *)
Definition embed_token (body : str) : str := L "![[" ++ body ++ L "]]".
Definition link_token (name : str) : str := L "[[" ++ name ++ L "]]".


(** A file name that a link can carry as it is: not empty, free of the
    characters that end the name in a link, and without outer whitespace. *)
Definition link_name (name : str) : Prop :=
  name <> [] /\ avoids (L "]#|") name /\ strip name = name.

(** A run of whitespace within one line. *)
Definition blank_run (ws : str) : Prop :=
  ws <> [] /\ Forall (fun c => is_space c = true /\ c <> nl) ws.

(** The title of a heading line: it starts with a character that is not
    whitespace and stays on its line. *)
Definition title_text (title : str) : Prop :=
  match title with
  | [] => False
  | c :: _ => is_space c = false /\ one_line title
  end.




(** The tabular block for a header and the data rows that are kept. *)
Definition tabular (header : list str) (rows : list (list str)) : str :=
  tex "begin{tabular}{" ++ times "l" (length header) ++ L "}" ++ NL
    ++ tex "hline" ++ NL
    ++ table_row header
    ++ tex "hline" ++ NL
    ++ concat (map table_row rows)
    ++ tex "hline" ++ NL
    ++ tex "end{tabular}".

(** A data row has as many cells as the header has. *)
Definition fits (header line : str) : bool :=
  (length (cells_of line) =? length (cells_of header))%nat.
(** [demote_headings] from a cursor inside a text. *)
Definition demote_from (levels : Z) (prev : option ascii) (s : str) : str :=
  fst (sub_scan (Pat.heading true) (fun m (u : unit) => (demote_heading levels m, u))
                prev s 0 tt).

(** A text starts like a heading: one to six markers and a whitespace
    character. *)
Definition heading_start (s : str) : Prop :=
  exists n c x, s = times "#" n ++ c :: x /\ 1 <= n <= 6 /\ is_space c = true.

Section Vocabulary.
Context {env : Environment}.

(** Where a link to [filename] without a section points when it is external. *)
Definition link_target (c : LatexConverter) (filename : str) : str :=
  if obsidian_uri (config c)
  then L "obsidian://open?vault=" ++ vault_name (config c) ++ L "&file=" ++ filename
  else L "file://" ++ path_str (path_div (c_vault_path c) (filename ++ L ".md")).



(** The parser after an embed whose file was found and spliced in. *)
Definition after_expand (filename key : str) (p : ObsidianParser) : ObsidianParser :=
  with_stats (incr_sections_processed (add_file_embedded filename (stats p)))
             (add_embedded key p).

(** The internal cross-reference that a link to an embedded [filename]
    without section and display text becomes. *)
Definition internal_ref (c : LatexConverter) (filename text : str) : str :=
  tex "hyperref["
    ++ default (L "sec:" ++ replace_chr " " (L "_") filename) (section_labels c !! filename)
    ++ L "]{" ++ text ++ L "}".
End Vocabulary.

(* ===================================================================== *)
(** ** Vocabulary of the further properties *)
(* ===================================================================== *)

(** The text [p] occurs in [s]. *)
Definition occurs (p s : str) : Prop := exists u t, s = u ++ p ++ t.

(** The literal text with which every match of a pattern starts, as far as
    the pattern shows it. *)
Fixpoint lead (r : regex) : str :=
  match r with
  | Lit l => l
  | Seq (Lit l) _ => l
  | Seq (Bol _) r2 => lead r2
  | Grp _ r1 => lead r1
  | _ => []
  end.

(** A line starts like a list item: its first character after the leading
    whitespace is a list marker or a digit. *)
Definition list_start (line : str) : Prop :=
  match lstrip line with
  | c :: _ => one_of (L "-*+") c = true \/ is_digit c = true
  | [] => False
  end.

(** A line of its own without an embed token. *)
Definition plain_line (l : str) : Prop := one_line l /\ ~ occurs (L "![[") l.

(** A word: letters and digits only, and at least one. *)
Definition word (w : str) : Prop :=
  w <> [] /\ Forall (fun c => is_word c = true /\ c <> "_"%char) w.

(** The characters that start a markup construct or end a line. *)
Definition markup_chars : str := L "!#*[^_`|" ++ NL.

(** [line] is an item of an unordered list with the text [text]: an
    indentation, a marker, whitespace and the text, all on one line. *)
Definition bullet (line text : str) : Prop :=
  exists indent marker ws,
    line = indent ++ marker :: ws ++ text
    /\ Forall (fun c => is_space c = true /\ c <> nl) indent
    /\ one_of (L "-*+") marker = true
    /\ blank_run ws
    /\ title_text text.

(** The line that an item becomes. *)
Definition item_line (text : str) : str := L "  " ++ tex "item " ++ text.

(** The line that opens and closes a front matter block. *)
Definition rule : str := L "---".

(** The link [[[name#section|text]]]. *)
Definition full_link (name section text : str) : str :=
  L "[[" ++ name ++ L "#" ++ section ++ L "|" ++ text ++ L "]]".

(** Spaces written the way a URI wants them. *)
Definition uri_part (s : str) : str := replace_chr " " (L "%20") s.

(** The standard image form [![alt](target)]. *)
Definition image_token (alt target : str) : str :=
  L "![" ++ alt ++ L "](" ++ target ++ L ")".

(** The reference [[^key]] to a footnote and the line that defines it. *)
Definition footnote_mark (key : str) : str := L "[^" ++ key ++ L "]".
Definition footnote_line (key ws text : str) : str := L "[^" ++ key ++ L "]:" ++ ws ++ text.

(** The statistics [s'] continue [s]: nothing recorded is lost. *)
Definition stats_grow (s s' : CompilationStats) : Prop :=
  files_embedded s ⊆ files_embedded s'
  /\ sections_processed s <= sections_processed s'
  /\ images_copied s ⊆ images_copied s'
  /\ internal_links s <= internal_links s'
  /\ warnings s `prefix_of` warnings s'.

Section StateVocabulary.
Context {env : Environment}.

(** The parser [p'] continues [p]: same vault, no key and no record lost, and
    the counters of the converter untouched. *)
Definition parser_grows (p p' : ObsidianParser) : Prop :=
  vault_path p' = vault_path p
  /\ embedded_files p ⊆ embedded_files p'
  /\ stats_grow (stats p) (stats p')
  /\ images_copied (stats p') = images_copied (stats p)
  /\ internal_links (stats p') = internal_links (stats p).

(** The converter [c'] continues [c]: same paths, configuration and label
    table, no record lost, and the records of the parser untouched. *)
Definition converter_grows (c c' : LatexConverter) : Prop :=
  c_vault_path c' = c_vault_path c
  /\ output_dir c' = output_dir c
  /\ config c' = config c
  /\ section_labels c' = section_labels c
  /\ label_counter c <= label_counter c'
  /\ fs_ops c `prefix_of` fs_ops c'
  /\ stats_grow (c_stats c) (c_stats c')
  /\ files_embedded (c_stats c') = files_embedded (c_stats c)
  /\ sections_processed (c_stats c') = sections_processed (c_stats c).

(** The same for a run that may have raised: a run that has raised stays so. *)
Definition run_grows (oc oc' : option LatexConverter) : Prop :=
  match oc, oc' with
  | Some c, Some c' => converter_grows c c'
  | _, None => True
  | None, Some _ => False
  end.

(** The body of a file: what [read_file] returns beside the front matter. *)
Definition file_body (filepath : Path) : str := snd (fst (read_file filepath new_stats)).

(** The parser after an embed of a section that its file does not have. *)
Definition after_missing_section (filename section key : str) (p : ObsidianParser)
    : ObsidianParser :=
  with_stats
    (add_warning (not_found_warning section) (add_file_embedded filename (stats p)))
    (add_embedded key p).

End StateVocabulary.

(* ===================================================================== *)
(** ** The document: [create_latex_document] *)
(* ===================================================================== *)

(** What [create_latex_document] asks of the front matter and of its values.
    [is_dict] tells whether the front matter has a method [get];
    [dict_get fm key] is the value under [key], [None] without one;
    [value_true], [value_str] and [value_is] are [bool(v)], [str(v)] and
    [v == s]. *)
Class Metadata {env : Environment} := {
  Value : Type;
  is_dict : Yaml -> bool;
  dict_get : Yaml -> str -> option Value;
  value_true : Value -> bool;
  value_str : Value -> str;
  value_is : Value -> str -> bool
}.

(** How a call ends: with a value, with [sys.exit(code)] or with an
    exception. *)
Inductive outcome (A : Type) : Type :=
| Returns (a : A)
| Exits (code : nat)
| Raises.
Arguments Returns {A} a.
Arguments Exits {A} code.
Arguments Raises {A}.

Module Document.

(** [s.replace(old, new)]; [skip] counts the characters of the occurrence
    just replaced that are still to be dropped. *)
Fixpoint replace_from (old new : str) (s : str) (skip : nat) : str :=
  match skip, s with
  | S n, _ :: s' => replace_from old new s' n
  | S _, [] => []
  | 0, [] => match old with [] => new | _ :: _ => [] end
  | 0, c :: s' =>
      match strip_prefix old s with
      | Some _ =>
          match old with
          | [] => new ++ c :: replace_from old new s' 0
          | _ :: old' => new ++ replace_from old new s' (length old')
          end
      | None => c :: replace_from old new s' 0
      end
  end.

Definition replace (old new s : str) : str := replace_from old new s 0.

Section Program.
Context {env : Environment} {meta : Metadata}.

(** [load_template]; [config.template_dir] is the argument [template_dir]. *)
Definition load_template (template_name : str) (template_dir : Path) : outcome str :=
  let template_path := path_div template_dir (template_name ++ L ".tex") in
  if negb (path_exists template_path) then Exits 1
  else Returns (read_text template_path).

(** [load_custom_macros] *)
Definition load_custom_macros (template_dir : Path) : str :=
  let macros_path := path_div template_dir (L "macros.tex") in
  if path_exists macros_path then read_text macros_path else [].

(** [str(title) if title else 'Document'] after
    [title = frontmatter.get('title', 'Document')], and the same for the
    author. *)
Definition text_or (fallback : str) (v : option Value) : str :=
  match v with
  | Some v => if value_true v then value_str v else fallback
  | None => fallback
  end.

Definition today : str := tex "today".

(** [str(date) if date and date != '\\today' else '\\today'] *)
Definition date_text (v : option Value) : str :=
  match v with
  | Some v => if value_true v && negb (value_is v today) then value_str v else today
  | None => today
  end.

Definition document_title (frontmatter : Yaml) : str :=
  text_or (L "Document") (dict_get frontmatter (L "title")).
Definition document_author (frontmatter : Yaml) : str :=
  text_or [] (dict_get frontmatter (L "author")).
Definition document_date (frontmatter : Yaml) : str :=
  date_text (dict_get frontmatter (L "date")).

(** [create_latex_document] *)
Definition create_latex_document (frontmatter : Yaml) (body template_name : str)
    (template_dir : Path) : outcome str :=
  match load_template template_name template_dir with
  | Exits code => Exits code
  | Raises => Raises
  | Returns template =>
      let custom_macros := load_custom_macros template_dir in
      if negb (is_dict frontmatter) then Raises
      else
        let title := document_title frontmatter in
        let author := document_author frontmatter in
        let date := document_date frontmatter in
        let template := replace (L "{{title}}") title template in
        let template := replace (L "{{author}}") author template in
        let template := replace (L "{{date}}") date template in
        let template := replace (L "{{custom_macros}}") custom_macros template in
        let template := replace (L "{{body}}") body template in
        Returns template
  end.

End Program.

(** The placeholders of a template. *)
Inductive hole := Title | Author | Date | Macros | Body.

Definition placeholder (h : hole) : str :=
  match h with
  | Title => L "{{title}}"
  | Author => L "{{author}}"
  | Date => L "{{date}}"
  | Macros => L "{{custom_macros}}"
  | Body => L "{{body}}"
  end.

(** A template read as texts and placeholders. *)
Inductive piece :=
| Text (t : str)
| Hole (h : hole).

Definition piece_text (value : hole -> option str) (p : piece) : str :=
  match p with
  | Text t => t
  | Hole h => default (placeholder h) (value h)
  end.

(** The template with the placeholders written out, and with values in their
    place. *)
Definition render (ps : list piece) : str := concat (map (piece_text (fun _ => None)) ps).
Definition fill (value : hole -> str) (ps : list piece) : str :=
  concat (map (piece_text (fun h => Some (value h))) ps).

Definition same_hole (a b : hole) : bool :=
  match a, b with
  | Title, Title | Author, Author | Date, Date | Macros, Macros | Body, Body => true
  | _, _ => false
  end.

(** The placeholder [h] replaced by the text [v]. *)
Definition fill_one (h : hole) (v : str) (p : piece) : piece :=
  match p with
  | Hole h' => if same_hole h' h then Text v else Hole h'
  | Text t => Text t
  end.

(** A text that cannot be taken for the start of a placeholder: it has no
    two opening braces in a row and does not start with one. *)
Definition calm (t : str) : Prop :=
  ~ occurs (L "{{") t /\ forall r, t <> "{"%char :: r.

(** A text does not start with one opening brace alone. *)
Definition brace_pair (R : str) : Prop :=
  forall c r, R = "{"%char :: c :: r -> c = "{"%char.

Definition calm_piece (p : piece) : Prop :=
  match p with
  | Text t => calm t
  | Hole _ => True
  end.

End Document.

(* ===================================================================== *)
(** ** The command line of [main] *)
(* ===================================================================== *)

Module Cli.

(** The whitespace that [int] removes around a number: TAB, LF, VT, FF, CR,
    SPACE, NEL and NBSP. *)
Definition is_int_space (c : ascii) : bool :=
  in_range 9 13 c || (code c =? 32)%nat || (code c =? 133)%nat || (code c =? 160)%nat.

Fixpoint int_lstrip (s : str) : str :=
  match s with
  | c :: s' => if is_int_space c then int_lstrip s' else s
  | [] => []
  end.

Definition int_strip (s : str) : str := rev (int_lstrip (rev (int_lstrip s))).

(** The digits of a number: decimal digits, single underscores allowed
    between two of them; [None] is [ValueError]. *)
Fixpoint int_digits (s : str) (acc : Z) (after_digit : bool) : option Z :=
  match s with
  | [] => if after_digit then Some acc else None
  | c :: s' =>
      if chr_eqb c "_" then
        if after_digit then int_digits s' acc false else None
      else if is_digit c then int_digits s' (10 * acc + Z.of_nat (code c - 48))%Z true
      else None
  end.

(** The number of digits that [int] reads at most: the default of
    [sys.get_int_max_str_digits()]. *)
Definition max_str_digits : Z := 4300.

Definition int_body (s : str) : option Z :=
  if (max_str_digits <? Z.of_nat (length (List.filter is_digit s)))%Z then None
  else int_digits s 0 false.

(** [int(s)] for a text; [None] is [ValueError]. *)
Definition int_of_str (s : str) : option Z :=
  match int_strip s with
  | c :: t =>
      if chr_eqb c "+" then int_body t
      else if chr_eqb c "-" then option_map Z.opp (int_body t)
      else int_body (c :: t)
  | [] => None
  end.

(** The variables that the argument loop of [main] sets.  [output_dir] and
    [config_path] are the texts given to [Path]. *)
Record Options := mkOptions {
  output_dir : option str;
  template_name : option str;
  config_path : option str;
  watch_mode : bool;
  watch_interval : Z
}.

(** Their values before the loop. *)
Definition initial : Options := mkOptions None None None false 1.

Definition set_output_dir (v : str) (o : Options) : Options :=
  mkOptions (Some v) (template_name o) (config_path o) (watch_mode o) (watch_interval o).
Definition set_template_name (v : str) (o : Options) : Options :=
  mkOptions (output_dir o) (Some v) (config_path o) (watch_mode o) (watch_interval o).
Definition set_config_path (v : str) (o : Options) : Options :=
  mkOptions (output_dir o) (template_name o) (Some v) (watch_mode o) (watch_interval o).
Definition set_watch_mode (o : Options) : Options :=
  mkOptions (output_dir o) (template_name o) (config_path o) true (watch_interval o).
Definition set_watch_interval (n : Z) (o : Options) : Options :=
  mkOptions (output_dir o) (template_name o) (config_path o) (watch_mode o) n.

Definition is_arg (name : string) (arg : str) : bool := bool_decide (arg = L name).

(** The argument loop of [main] over [sys.argv[i:]]: [rest] not empty is
    [i + 1 < len(sys.argv)].  [None] is the [ValueError] of [int]. *)
Fixpoint parse_args (args : list str) (o : Options) : option Options :=
  match args with
  | [] => Some o
  | arg :: rest =>
      match rest with
      | value :: rest' =>
          if is_arg "--output" arg then parse_args rest' (set_output_dir value o)
          else if is_arg "--template" arg then parse_args rest' (set_template_name value o)
          else if is_arg "--config" arg then parse_args rest' (set_config_path value o)
          else if is_arg "--watch" arg then parse_args rest (set_watch_mode o)
          else if is_arg "--interval" arg then
            match int_of_str value with
            | Some n => parse_args rest' (set_watch_interval n o)
            | None => None
            end
          else parse_args rest o
      | [] =>
          if is_arg "--output" arg then parse_args rest o
          else if is_arg "--template" arg then parse_args rest o
          else if is_arg "--config" arg then parse_args rest o
          else if is_arg "--watch" arg then parse_args rest (set_watch_mode o)
          else parse_args rest o
      end
  end.

(** A group of a command line: an option with its value, the watch flag, or
    a word that is no option. *)
Inductive group :=
| Output (value : str)
| Template (value : str)
| ConfigFile (value : str)
| Watch
| Interval (value : str)
| Other (word : str).

Definition words (g : group) : list str :=
  match g with
  | Output v => [L "--output"; v]
  | Template v => [L "--template"; v]
  | ConfigFile v => [L "--config"; v]
  | Watch => [L "--watch"]
  | Interval v => [L "--interval"; v]
  | Other w => [w]
  end.

Definition option_names : list str :=
  [L "--output"; L "--template"; L "--config"; L "--watch"; L "--interval"].

(** What a group does to the variables. *)
Definition effect (o : Options) (g : group) : Options :=
  match g with
  | Output v => set_output_dir v o
  | Template v => set_template_name v o
  | ConfigFile v => set_config_path v o
  | Watch => set_watch_mode o
  | Interval v => set_watch_interval (default 1%Z (int_of_str v)) o
  | Other _ => o
  end.

(** The interval is a number, and a word that is no option is none. *)
Definition well_formed (g : group) : Prop :=
  match g with
  | Interval v => is_Some (int_of_str v)
  | Other w => ~ In w option_names
  | _ => True
  end.

End Cli.

(* ===================================================================== *)
(** ** The output folder of the example vaults *)
(* ===================================================================== *)

Module Disk.

(** The text of a path before its last [/], read from the end. *)
Fixpoint parent_rev (r : str) : str :=
  match r with
  | [] => []
  | c :: r' => if chr_eqb c "/" then r' else parent_rev r'
  end.

(** The folder of a path. *)
Definition parent (p : str) : str := rev (parent_rev (rev p)).

Definition makes (d : str) (op : FsOp str) : bool :=
  match op with
  | Mkdir d' => bool_decide (d' = d)
  | Copy2 _ _ => false
  end.

(** The folders of the output: [/out] is there when the converter starts, as
    [compile_document] makes it, and so are the folders made since. *)
Definition is_dir (ops : list (FsOp str)) (d : str) : bool :=
  bool_decide (d = L "/out") || existsb (makes d) ops.

(** A folder is made, and a file is copied, where the folder above it is
    there; no file stands in the way. *)
Definition mkdir_returns (ops : list (FsOp str)) (d : str) : bool := is_dir ops (parent d).
Definition copy2_returns (ops : list (FsOp str)) (src dst : str) : bool :=
  is_dir ops (parent dst).

End Disk.

(* ===================================================================== *)
(** ** An example vault *)
(* ===================================================================== *)

Module Example.

(** The text of [Intro.md]. *)
Definition intro_text : str := L "# Intro" ++ NL ++ L "Hello ![[World]]".

(** The files of the vault [/vault]: the notes [Intro.md] and [Master.md]
    and the image [attachments/pic.png].  There is no [World.md]. *)
Definition files : list (str * str) :=
  [(L "/vault/Intro.md", intro_text);
   (L "/vault/Master.md", L "![[pic.png]]");
   (L "/vault/attachments/pic.png", L "PNG")].

Definition lookup_file (p : str) : option str :=
  snd <$> head (filter (fun e => fst e = p) files).

(** Paths are their text; [yaml.safe_load] is never reached by these files. *)
Definition vault_env : Environment := {|
  Path := str;
  path_div := fun p s => p ++ L "/" ++ s;
  path_str := fun p => p;
  path_exists := fun p => bool_decide (is_Some (lookup_file p));
  read_text := fun p => default [] (lookup_file p);
  rglob := fun _ _ => [];
  Yaml := unit;
  empty_dict := tt;
  yaml_safe_load := fun _ => None;
  mkdir_returns := Disk.mkdir_returns;
  copy2_returns := Disk.copy2_returns
|}.

Definition cfg : Config (env := vault_env) :=
  mkConfig (env := vault_env) (L "/vault") (L "MyVault") (L "attachments") true.

(** A fresh parser and a fresh converter, as [compile_document] makes them. *)
Definition parser0 : ObsidianParser (env := vault_env) :=
  new_parser (env := vault_env) (L "/vault") new_stats.

Definition converter0 : LatexConverter (env := vault_env) :=
  new_converter (env := vault_env) (L "/vault") (L "/out") new_stats cfg.

End Example.

(* ===================================================================== *)
(** ** A second example vault *)
(* ===================================================================== *)

Module Notebook.

(** The files of the vault [/nb]: a note without markup, a note with a front
    matter block, a note whose front matter block is empty, a note with
    sections, an image in the attachments folder, an image in a folder of it
    and a template. *)
Definition files : list (str * str) :=
  [(L "/nb/Plain.md", L "About 50% of the cost & more." ++ NL ++ L "Second line: a-b is $x$.");
   (L "/nb/Paper.md", L "---" ++ NL ++ L "title: Paper" ++ NL ++ L "---" ++ NL ++ L "Body text");
   (L "/nb/Draft.md", L "---" ++ NL ++ L "---" ++ NL ++ L "Body text");
   (L "/nb/Note.md",
    L "# Note" ++ NL ++ L "## Part" ++ NL ++ L "inside" ++ NL ++ L "## Other" ++ NL ++ L "rest");
   (L "/nb/attachments/chart.png", L "PNG");
   (L "/nb/attachments/fig/plot.png", L "PNG");
   (L "/nb/templates/default.tex",
    tex "title{{{title}}}" ++ tex "author{{{author}}}" ++ tex "date{{{date}}}" ++ NL
      ++ L "{{custom_macros}}" ++ tex "begin{document}" ++ NL ++ L "{{body}}" ++ NL
      ++ tex "end{document}")].

Definition lookup_file (p : str) : option str :=
  snd <$> head (filter (fun e => fst e = p) files).

(** Paths are their text; a front matter is the list of its entries, and the
    loader knows the one block of these files. *)
Definition vault_env : Environment := {|
  Path := str;
  path_div := fun p s => p ++ L "/" ++ s;
  path_str := fun p => p;
  path_exists := fun p => bool_decide (is_Some (lookup_file p));
  read_text := fun p => default [] (lookup_file p);
  rglob := fun _ _ => [];
  Yaml := list (str * str);
  empty_dict := [];
  yaml_safe_load := fun block =>
    if bool_decide (block = L "title: Paper") then Some [(L "title", L "Paper")] else None;
  mkdir_returns := Disk.mkdir_returns;
  copy2_returns := Disk.copy2_returns
|}.

(** A configuration that links to files rather than to the note application. *)
Definition cfg : Config (env := vault_env) :=
  mkConfig (env := vault_env) (L "/nb") (L "Notes") (L "attachments") false.

Definition parser0 : ObsidianParser (env := vault_env) :=
  new_parser (env := vault_env) (L "/nb") new_stats.

Definition converter0 : LatexConverter (env := vault_env) :=
  new_converter (env := vault_env) (L "/nb") (L "/out") new_stats cfg.

End Notebook.

Module NotebookMeta.

(** The value under a key of such a front matter. *)
Definition entry (fm : list (str * str)) (key : str) : option str :=
  snd <$> head (filter (fun e => fst e = key) fm).

(** The values of a front matter of the second vault are texts. *)
Definition metadata : Metadata (env := Notebook.vault_env) :=
  Build_Metadata Notebook.vault_env str
    (fun _ => true)
    entry
    (fun v => negb (bool_decide (v = [])))
    (fun v => v)
    (fun v s => bool_decide (v = s)).

End NotebookMeta.

(* ===================================================================== *)
(** ** Facts about text *)
(* ===================================================================== *)

Module TextFacts.

Lemma chr_eqb_eq (a b : ascii) : chr_eqb a b = true <-> a = b.
Proof. unfold chr_eqb. apply Ascii.eqb_eq. Qed.

Lemma chr_eqb_refl (a : ascii) : chr_eqb a a = true.
Proof. apply chr_eqb_eq. reflexivity. Qed.

Lemma chr_eqb_neq (a b : ascii) : chr_eqb a b = false <-> a <> b.
Proof. unfold chr_eqb. apply Ascii.eqb_neq. Qed.

Lemma split_on_nonempty (sep : ascii) (s : str) : split_on sep s <> [].
Proof.
  destruct s as [|c s]; simpl; [discriminate|].
  destruct (chr_eqb c sep); [discriminate|].
  destruct (split_on sep s); discriminate.
Qed.

Lemma split_lines_one_line (s : str) : one_line s -> split_lines s = [s].
Proof.
  unfold split_lines. induction 1 as [|c s Hc Hs IH]; simpl; [reflexivity|].
  apply chr_eqb_neq in Hc. rewrite Hc, IH. reflexivity.
Qed.

Lemma split_lines_app_nl (a b : str) :
  one_line a -> split_lines (a ++ nl :: b) = a :: split_lines b.
Proof.
  unfold split_lines. induction 1 as [|c s Hc Hs IH]; simpl.
  - reflexivity.
  - apply chr_eqb_neq in Hc. rewrite Hc, IH. reflexivity.
Qed.

(** Splitting undoes joining, for lines without line breaks. *)
Lemma split_join_lines (ls : list str) :
  ls <> [] -> Forall one_line ls -> split_lines (join_lines ls) = ls.
Proof.
  induction ls as [|l ls IH]; [congruence|]. intros _ Hall.
  inversion Hall as [|? ? Hl Hls]; subst.
  destruct ls as [|l' ls'].
  - simpl. apply split_lines_one_line; assumption.
  - change (join_lines (l :: l' :: ls')) with (l ++ nl :: join_lines (l' :: ls')).
    rewrite split_lines_app_nl by assumption.
    rewrite IH; [reflexivity|discriminate|assumption].
Qed.

Lemma take_app_minus (w s : str) : take (length (w ++ s) - length s) (w ++ s) = w.
Proof.
  rewrite length_app. replace (length w + length s - length s) with (length w) by lia.
  apply take_app_length.
Qed.

End TextFacts.
Import TextFacts.

(* ===================================================================== *)
(** ** Facts about the matcher *)
(* ===================================================================== *)

Module ReFacts.

(** A greedy class that reads the whole run [w] and whose continuation
    then succeeds returns that first success. *)
Lemma many_greedy_run {R} (p : ascii -> bool) (w s : str) :
  forall lo hi prev (k : option ascii -> str -> option R) r,
  Forall (fun c => p c = true) w ->
  stops p s ->
  lo <= length w ->
  within (length w) hi ->
  k (after prev w) s = Some r ->
  many_greedy p lo hi prev (w ++ s) k = Some r.
Proof.
  induction w as [|c w IH]; intros lo hi prev k r Hall Hstop Hlo Hhi Hk.
  - simpl in *. assert (lo = 0) by lia; subst lo.
    destruct s as [|c s]; simpl; [assumption|].
    simpl in Hstop. rewrite Hstop. simpl. assumption.
  - inversion Hall as [|? ? Hc Hw]; subst. simpl.
    rewrite Hc.
    assert (Hcan : can_take hi = true).
    { destruct hi as [[|h]|]; simpl in *; [lia|reflexivity|reflexivity]. }
    rewrite Hcan. simpl.
    rewrite (IH (pred lo) (dec_hi hi) (Some c) k r); try assumption.
    + reflexivity.
    + simpl in Hlo. lia.
    + destruct hi as [h|]; simpl in *; [lia|exact I].
Qed.

Lemma lit_match_app (eq : ascii -> ascii -> bool) (l : str) :
  (forall c, eq c c = true) ->
  forall prev s, lit_match eq l prev (l ++ s) = Some (after prev l, s).
Proof.
  intros Hrefl. induction l as [|a l IH]; intros prev s; simpl; [reflexivity|].
  rewrite Hrefl. apply IH.
Qed.

Lemma or_else_some {R} (a b : option R) (r : R) :
  or_else a b = Some r -> a = Some r \/ b = Some r.
Proof. destruct a; simpl; intros H; [left|right]; assumption. Qed.

Lemma lit_match_sound (eq : ascii -> ascii -> bool) (l : str) :
  forall prev s prev' s',
  lit_match eq l prev s = Some (prev', s') ->
  exists w, s = w ++ s' /\ Forall2 (fun c a => eq c a = true) w l.
Proof.
  induction l as [|a l IH]; intros prev s prev' s' H; simpl in H.
  - injection H as _ ->. exists []. split; [reflexivity|constructor].
  - destruct s as [|c s]; [discriminate|].
    destruct (eq c a) eqn:E; [|discriminate].
    apply IH in H as (w & -> & Hw). exists (c :: w). split; [reflexivity|].
    constructor; assumption.
Qed.

Lemma Forall2_chr_eqb (w l : str) :
  Forall2 (fun c a => chr_eqb c a = true) w l -> w = l.
Proof.
  induction 1 as [|c a w l Hc _ IH]; [reflexivity|].
  apply chr_eqb_eq in Hc. congruence.
Qed.

Lemma many_greedy_sound {R} (p : ascii -> bool) (s : str) :
  forall lo hi prev (k : option ascii -> str -> option R) res,
  many_greedy p lo hi prev s k = Some res ->
  exists w s', s = w ++ s' /\ Forall (fun c => p c = true) w /\ lo <= length w
               /\ within (length w) hi /\ k (after prev w) s' = Some res.
Proof.
  induction s as [|c s IH]; intros lo hi prev k res H.
  - simpl in H. destruct lo; [|discriminate].
    exists [], []. repeat split; try constructor; try assumption.
    destruct hi; simpl; [lia|exact I].
  - simpl in H.
    assert (Hstop : match lo with 0 => k prev (c :: s) | S _ => None end = Some res ->
            exists w s', c :: s = w ++ s' /\ Forall (fun c => p c = true) w /\ lo <= length w
               /\ within (length w) hi /\ k (after prev w) s' = Some res).
    { intros Hs. destruct lo; [|discriminate].
      exists [], (c :: s). repeat split; try constructor; try assumption.
      destruct hi; simpl; [lia|exact I]. }
    destruct (p c && can_take hi) eqn:E; [|auto].
    apply andb_true_iff in E as [Hp Hcan].
    apply or_else_some in H as [H|H]; [|auto].
    apply IH in H as (w & s' & -> & Hall & Hlo & Hhi & Hk).
    exists (c :: w), s'. repeat split; try assumption.
    + constructor; assumption.
    + simpl. lia.
    + destruct hi as [[|h]|]; simpl in *; try discriminate; try lia; exact I.
Qed.

Lemma many_lazy_sound {R} (p : ascii -> bool) (s : str) :
  forall lo hi prev (k : option ascii -> str -> option R) res,
  many_lazy p lo hi prev s k = Some res ->
  exists w s', s = w ++ s' /\ Forall (fun c => p c = true) w /\ lo <= length w
               /\ within (length w) hi /\ k (after prev w) s' = Some res.
Proof.
  induction s as [|c s IH]; intros lo hi prev k res H.
  - simpl in H. destruct lo; [|discriminate].
    apply or_else_some in H as [H|H]; [|discriminate].
    exists [], []. repeat split; try constructor; try assumption.
    destruct hi; simpl; [lia|exact I].
  - simpl in H.
    assert (Hmore : (if p c && can_take hi
                     then many_lazy p (pred lo) (dec_hi hi) (Some c) s k else None) = Some res ->
            exists w s', c :: s = w ++ s' /\ Forall (fun c => p c = true) w /\ lo <= length w
               /\ within (length w) hi /\ k (after prev w) s' = Some res).
    { intros Hm. destruct (p c && can_take hi) eqn:E; [|discriminate].
      apply andb_true_iff in E as [Hp Hcan].
      apply IH in Hm as (w & s' & -> & Hall & Hlo & Hhi & Hk).
      exists (c :: w), s'. repeat split; try assumption.
      + constructor; assumption.
      + simpl. lia.
      + destruct hi as [[|h]|]; simpl in *; try discriminate; try lia; exact I. }
    destruct lo; [|auto].
    apply or_else_some in H as [H|H]; [|auto].
    exists [], (c :: s). repeat split; try constructor; try assumption.
    destruct hi; simpl; [lia|exact I].
Qed.

Lemma rmatch_sound {R} (r : regex) :
  forall prev s cs (k : option ascii -> str -> caps -> option R) res,
  rmatch r prev s cs k = Some res ->
  exists w s' prev' cs', s = w ++ s' /\ lang r w /\ k prev' s' cs' = Some res.
Proof.
  induction r as [p|l|l|r1 IH1 r2 IH2|r1 IH1 r2 IH2|g lo hi p|r1 IH1|n r1 IH1|ml|ml];
    intros prev s cs k res H; simpl in H.
  - destruct s as [|c s]; [discriminate|]. destruct (p c) eqn:E; [|discriminate].
    exists [c], s, (Some c), cs. repeat split; [|assumption]. exists c. auto.
  - destruct (lit_match chr_eqb l prev s) as [[prev' s']|] eqn:E; [|discriminate].
    apply lit_match_sound in E as (w & -> & Hw). apply Forall2_chr_eqb in Hw. subst w.
    exists l, s', prev', cs. repeat split; assumption.
  - destruct (lit_match eq_nocase l prev s) as [[prev' s']|] eqn:E; [|discriminate].
    apply lit_match_sound in E as (w & -> & Hw).
    exists w, s', prev', cs. repeat split; assumption.
  - apply IH1 in H as (w1 & s1 & prev1 & cs1 & -> & Hl1 & H).
    apply IH2 in H as (w2 & s2 & prev2 & cs2 & -> & Hl2 & H).
    exists (w1 ++ w2), s2, prev2, cs2. repeat split.
    + rewrite app_assoc. reflexivity.
    + exists w1, w2. auto.
    + assumption.
  - apply or_else_some in H as [H|H].
    + apply IH1 in H as (w & s' & prev' & cs' & -> & Hl & H).
      exists w, s', prev', cs'. repeat split; [left|]; assumption.
    + apply IH2 in H as (w & s' & prev' & cs' & -> & Hl & H).
      exists w, s', prev', cs'. repeat split; [right|]; assumption.
  - destruct g.
    + apply many_greedy_sound in H as (w & s' & -> & Hall & Hlo & Hhi & Hk).
      exists w, s', (after prev w), cs. repeat split; assumption.
    + apply many_lazy_sound in H as (w & s' & -> & Hall & Hlo & Hhi & Hk).
      exists w, s', (after prev w), cs. repeat split; assumption.
  - apply or_else_some in H as [H|H].
    + apply IH1 in H as (w & s' & prev' & cs' & -> & Hl & H).
      exists w, s', prev', cs'. repeat split; [right|]; assumption.
    + exists [], s, prev, cs. repeat split; [left; reflexivity|assumption].
  - apply IH1 in H as (w & s' & prev' & cs' & -> & Hl & H).
    eexists w, s', prev', _. repeat split; [assumption|exact H].
  - destruct (at_bol ml prev); [|discriminate].
    exists [], s, prev, cs. repeat split; assumption.
  - destruct (at_eol ml s); [|discriminate].
    exists [], s, prev, cs. repeat split; assumption.
Qed.

(** A match is a word of the pattern, followed by the rest of the text. *)
Lemma match_at_sound (r : regex) (mb : bool) (prev : option ascii) (s : str) (m : Match) :
  match_at r mb prev s = Some m ->
  s = m_text m ++ m_rest m /\ lang r (m_text m).
Proof.
  unfold match_at. intros H.
  apply rmatch_sound in H as (w & s' & prev' & cs' & -> & Hl & H).
  destruct (mb && (length (w ++ s') <=? length s')); [discriminate|].
  injection H as <-. simpl. rewrite take_app_minus. split; [reflexivity|assumption].
Qed.

End ReFacts.
Import ReFacts.

Module SubFacts.

Lemma after_app (prev : option ascii) (a b : str) :
  after prev (a ++ b) = after (after prev a) b.
Proof. unfold after. apply fold_left_app. Qed.

Lemma after_cons (prev : option ascii) (c : ascii) (w : str) :
  after prev (c :: w) = after (Some c) w.
Proof. reflexivity. Qed.

Section Sub.
Context {S : Type} (r : regex) (f : Match -> S -> str * S).

Lemma sub_scan_zero (prev : option ascii) (s : str) (st : S) :
  sub_scan r f prev s 0 st =
  match match_at r false prev s with
  | None =>
      match s with
      | c :: s' => let '(out, st1) := sub_scan r f (Some c) s' 0 st in (c :: out, st1)
      | [] => ([], st)
      end
  | Some m =>
      let '(rep, st1) := f m st in
      match s with
      | [] => (rep, st1)
      | c :: s' =>
          match length (m_text m) with
          | Datatypes.S n =>
              let '(out, st2) := sub_scan r f (Some c) s' n st1 in (rep ++ out, st2)
          | 0 =>
              match match_at r true prev s with
              | Some m2 =>
                  let '(rep2, st2) := f m2 st1 in
                  let '(out, st3) :=
                    sub_scan r f (Some c) s' (pred (length (m_text m2))) st2 in
                  (rep ++ rep2 ++ out, st3)
              | None =>
                  let '(out, st2) := sub_scan r f (Some c) s' 0 st1 in
                  (rep ++ c :: out, st2)
              end
          end
      end
  end.
Proof. destruct s; reflexivity. Qed.

(** Dropping the rest of a match that has been replaced. *)
Lemma sub_scan_skip (w : str) :
  forall prev rest st,
  sub_scan r f prev (w ++ rest) (length w) st = sub_scan r f (after prev w) rest 0 st.
Proof.
  induction w as [|c w IH]; intros prev rest st; [reflexivity|].
  simpl. apply IH.
Qed.

(** A cursor where the pattern matches the non-empty text [w]. *)
Lemma sub_scan_hit (prev : option ascii) (w rest : str) (m : Match) (st : S) :
  match_at r false prev (w ++ rest) = Some m ->
  m_text m = w ->
  w <> [] ->
  sub_scan r f prev (w ++ rest) 0 st =
  let '(rep, st1) := f m st in
  let '(out, st2) := sub_scan r f (after prev w) rest 0 st1 in
  (rep ++ out, st2).
Proof.
  intros Hm Ht Hw. rewrite sub_scan_zero, Hm.
  destruct (f m st) as [rep st1].
  destruct w as [|c w]; [congruence|].
  rewrite Ht. cbn [app length].
  rewrite sub_scan_skip. reflexivity.
Qed.

(** A cursor where the pattern does not match. *)
Lemma sub_scan_miss (prev : option ascii) (c : ascii) (s : str) (st : S) :
  match_at r false prev (c :: s) = None ->
  sub_scan r f prev (c :: s) 0 st =
  let '(out, st1) := sub_scan r f (Some c) s 0 st in (c :: out, st1).
Proof. intros Hm. rewrite sub_scan_zero, Hm. reflexivity. Qed.

Lemma sub_scan_end (prev : option ascii) (st : S) :
  match_at r false prev [] = None ->
  sub_scan r f prev [] 0 st = ([], st).
Proof. intros Hm. rewrite sub_scan_zero, Hm. reflexivity. Qed.

(** Where the pattern matches at no cursor, the text and the state are kept. *)
Lemma sub_scan_none (s : str) :
  forall prev st,
  (forall u t, s = u ++ t -> match_at r false (after prev u) t = None) ->
  sub_scan r f prev s 0 st = (s, st).
Proof.
  induction s as [|c s IH]; intros prev st Hnone.
  - apply sub_scan_end. apply (Hnone [] []). reflexivity.
  - rewrite sub_scan_miss by (apply (Hnone [] (c :: s)); reflexivity).
    rewrite IH; [reflexivity|].
    intros u t Hu. apply (Hnone (c :: u) t). rewrite Hu. reflexivity.
Qed.

End Sub.

Lemma search_from_none (r : regex) (s : str) :
  forall prev,
  (forall u t, s = u ++ t -> match_at r false (after prev u) t = None) ->
  search_from r prev s = None.
Proof.
  induction s as [|c s IH]; intros prev Hnone.
  - pose proof (Hnone [] [] eq_refl) as H0. simpl in H0.
    simpl. rewrite H0. reflexivity.
  - pose proof (Hnone [] (c :: s) eq_refl) as H0. simpl in H0.
    simpl. rewrite H0.
    apply IH. intros u t Hu. apply (Hnone (c :: u) t). rewrite Hu. reflexivity.
Qed.

Lemma search_from_here (r : regex) (prev : option ascii) (s : str) (m : Match) :
  match_at r false prev s = Some m -> search_from r prev s = Some m.
Proof. intros Hm. destruct s; simpl; rewrite Hm; reflexivity. Qed.

(** Where a search finds nothing, a substitution changes nothing. *)
Lemma search_none_everywhere (r : regex) (s : str) :
  forall prev, search_from r prev s = None ->
  forall u t, s = u ++ t -> match_at r false (after prev u) t = None.
Proof.
  induction s as [|c s IH]; intros prev Hs u t Hu.
  - destruct u; [|discriminate]. simpl in Hu. subst t. simpl in *.
    destruct (match_at r false prev []); [discriminate|reflexivity].
  - simpl in Hs. destruct (match_at r false prev (c :: s)) eqn:Hm; [discriminate|].
    destruct u as [|c' u]; simpl in Hu.
    + subst t. exact Hm.
    + injection Hu as -> ->. apply (IH (Some c') Hs u t). reflexivity.
Qed.

Lemma re_sub_st_none {S} (r : regex) (f : Match -> S -> str * S) (s : str) (st : S) :
  re_search r s = None -> re_sub_st r f s st = (s, st).
Proof.
  intros Hs. apply sub_scan_none. apply search_none_everywhere. exact Hs.
Qed.

Lemma re_sub_none (r : regex) (f : Match -> str) (s : str) :
  re_search r s = None -> re_sub r f s = s.
Proof. intros Hs. unfold re_sub. rewrite re_sub_st_none by exact Hs. reflexivity. Qed.

End SubFacts.
Import SubFacts.

Module StripFacts.










End StripFacts.
Import StripFacts.

(* ===================================================================== *)
(** ** Facts about the patterns and the passes *)
(* ===================================================================== *)

Module PassFacts.

Lemma none_of_true (cs : str) (c : ascii) :
  none_of cs c = true <-> ~ In c cs.
Proof.
  unfold none_of. rewrite negb_true_iff. split.
  - intros H Hin. assert (existsb (chr_eqb c) cs = true); [|congruence].
    apply existsb_exists. exists c. split; [assumption|apply chr_eqb_refl].
  - intros H. destruct (existsb (chr_eqb c) cs) eqn:E; [|reflexivity].
    apply existsb_exists in E as (x & Hx & Heq). apply chr_eqb_eq in Heq. subst x. contradiction.
Qed.

Lemma avoids_class (cs w : str) :
  avoids cs w -> Forall (fun c => none_of cs c = true) w.
Proof.
  unfold avoids. intros H. eapply Forall_impl; [exact H|].
  intros c Hc. apply none_of_true, Hc.
Qed.

Lemma avoids_weaken (cs cs' w : str) :
  (forall c, In c cs' -> In c cs) -> avoids cs w -> avoids cs' w.
Proof.
  unfold avoids. intros Hsub H. eapply Forall_impl; [exact H|].
  intros c Hc Hin. apply Hc, Hsub, Hin.
Qed.

Lemma nonempty_length (w : str) : w <> [] -> 1 <= length w.
Proof. destruct w; [congruence|simpl; lia]. Qed.

Lemma embed_token_match (prev : option ascii) (body rest : str) :
  body <> [] -> avoids (L "]") body ->
  match_at Pat.embed false prev (embed_token body ++ rest) =
  Some {| m_text := embed_token body; m_caps := []; m_rest := rest |}.
Proof.
  intros Hne Hav. unfold match_at, Pat.embed, embed_token. cbn [cat rmatch].
  rewrite <- !app_assoc.
  rewrite lit_match_app by apply chr_eqb_refl.
  eapply many_greedy_run.
  - apply avoids_class, Hav.
  - reflexivity.
  - apply nonempty_length, Hne.
  - exact I.
  - cbn beta. rewrite lit_match_app by apply chr_eqb_refl.
    f_equal. f_equal.
    replace (L "![[" ++ body ++ L "]]" ++ rest) with ((L "![[" ++ body ++ L "]]") ++ rest)
      by (rewrite <- !app_assoc; reflexivity).
    apply take_app_minus.
Qed.

Lemma embed_no_match_end (prev : option ascii) : match_at Pat.embed false prev [] = None.
Proof. reflexivity. Qed.

(** An embed without a section: the file name is the stripped body. *)
Lemma parse_embed_plain (name : str) :
  name <> [] -> avoids (L "]#") name ->
  parse_embed (embed_token name) = Some (strip name, None).
Proof.
  intros Hne Hav. unfold parse_embed, re_match, match_at, Pat.embed_parts, embed_token.
  cbn [cat rmatch].
  rewrite lit_match_app by apply chr_eqb_refl.
  erewrite many_greedy_run; cycle 1.
  - apply avoids_class, Hav.
  - reflexivity.
  - apply nonempty_length, Hne.
  - exact I.
  - cbn beta. cbn [rmatch lit_match L list_ascii_of_string or_else].
    cbn. reflexivity.
  - cbn. unfold embed_filename, embed_section, stripped_group, group_str, group.
    cbn [m_caps cap_lookup Nat.eqb default].
    rewrite take_app_minus. reflexivity.
Qed.

(** An embed with a section: the file name and the section are the stripped
    parts before and after the first [#]. *)
Lemma parse_embed_section (name sec : str) :
  name <> [] -> avoids (L "]#") name ->
  sec <> [] -> avoids (L "]") sec ->
  parse_embed (embed_token (name ++ L "#" ++ sec)) = Some (strip name, Some (strip sec)).
Proof.
  intros Hne Hav Hse Hsa. unfold parse_embed, re_match, match_at, Pat.embed_parts, embed_token.
  cbn [cat rmatch].
  change (L "![[" ++ (name ++ L "#" ++ sec) ++ L "]]")
    with (L "![[" ++ (name ++ L "#" ++ sec) ++ L "]]" ++ []).
  rewrite lit_match_app by apply chr_eqb_refl.
  rewrite <- !app_assoc.
  erewrite many_greedy_run; cycle 1.
  - apply avoids_class, Hav.
  - reflexivity.
  - apply nonempty_length, Hne.
  - exact I.
  - cbn beta. cbn [rmatch].
    rewrite lit_match_app by apply chr_eqb_refl.
    erewrite many_greedy_run; cycle 1.
    + apply avoids_class, Hsa.
    + reflexivity.
    + apply nonempty_length, Hse.
    + exact I.
    + cbn beta. rewrite lit_match_app by apply chr_eqb_refl. cbn [or_else]. reflexivity.
    + cbn [or_else]. reflexivity.
  - unfold embed_filename, embed_section, stripped_group, group_str, group.
    cbn [m_caps cap_lookup Nat.eqb default from_option]. unfold id.
    rewrite !take_app_minus.
    destruct sec; [congruence|reflexivity].
Qed.



Lemma sub_scan_hit_all {S} (r : regex) (f : Match -> S -> str * S)
    (prev : option ascii) (w : str) (m : Match) (st : S) :
  match_at r false prev w = Some m ->
  m_text m = w ->
  w <> [] ->
  match_at r false (after prev w) [] = None ->
  sub_scan r f prev w 0 st = f m st.
Proof.
  intros Hm Ht Hw Hend.
  rewrite <- (app_nil_r w) at 1.
  rewrite (sub_scan_hit r f prev w [] m st); try assumption.
  - destruct (f m st) as [rep st1]. rewrite sub_scan_end by assumption.
    rewrite app_nil_r. reflexivity.
  - rewrite app_nil_r. assumption.
Qed.

Section EmbedFacts.
Context {env : Environment}.

Lemma embed_token_nonempty (body : str) : embed_token body <> [].
Proof. discriminate. Qed.

Lemma embed_token_one_line (body : str) : one_line body -> one_line (embed_token body).
Proof.
  intros Hb. unfold embed_token, one_line.
  apply Forall_app. split; [|apply Forall_app; split; [exact Hb|]];
    repeat constructor; discriminate.
Qed.

(** A line that is exactly one embed token is replaced by what
    [resolve_embed] returns for it. *)
Lemma process_line_token (lines : list str) (n : nat) (body : str) (p : ObsidianParser) :
  body <> [] -> avoids (L "]") body ->
  process_line lines n (embed_token body) p =
  resolve_embed (embed_token body) (get_current_heading_level lines n) n p.
Proof.
  intros Hne Hav. unfold process_line.
  pose proof (embed_token_match None body [] Hne Hav) as Hm.
  rewrite app_nil_r in Hm.
  unfold re_search. rewrite (search_from_here _ _ _ _ Hm).
  unfold re_sub_st.
  rewrite (sub_scan_hit_all _ _ _ _ _ _ Hm eq_refl (embed_token_nonempty body)
             (embed_no_match_end _)).
  reflexivity.
Qed.




End EmbedFacts.

(** Where no word of the pattern occurs in a text, a search finds nothing. *)
Lemma re_search_no_word (r : regex) (s : str) :
  (forall u w t, s = u ++ w ++ t -> ~ lang r w) -> re_search r s = None.
Proof.
  intros Hno. apply search_from_none. intros u t Hs.
  destruct (match_at r false (after None u) t) as [m|] eqn:E; [|reflexivity].
  apply match_at_sound in E as [Ht Hl].
  exfalso. apply (Hno u (m_text m) (m_rest m)); [congruence|assumption].
Qed.




Section ImageFacts.
Context {env : Environment}.


End ImageFacts.

End PassFacts.
Import PassFacts.

Module DocumentFacts.

Section Passes.
Context {env : Environment}.

Lemma read_file_plain (filepath : Path) (s : CompilationStats) :
  path_exists filepath = true ->
  startswith (L "---" ++ NL) (read_text filepath) = false ->
  read_file filepath s = ((empty_dict, read_text filepath), s).
Proof. intros He Hs. unfold read_file. rewrite He. cbn [negb]. rewrite Hs. reflexivity. Qed.

Lemma process_embeds_token (body : str) (p : ObsidianParser) :
  body <> [] -> avoids (L "]") body -> one_line body ->
  process_embeds (embed_token body) p = resolve_embed (embed_token body) 0 1 p.
Proof.
  intros Hne Hav Hol. unfold process_embeds.
  rewrite split_lines_one_line by (apply embed_token_one_line, Hol).
  cbn [process_lines]. rewrite process_line_token by assumption.
  change (resolve_embed (embed_token body) _ 1 p) with (resolve_embed (embed_token body) 0 1 p).
  destruct (resolve_embed (embed_token body) 0 1 p) as [r p']. reflexivity.
Qed.


Lemma wikilink_plain_match (prev : option ascii) (name : str) :
  name <> [] -> avoids (L "]#|") name ->
  match_at Pat.wikilink false prev (link_token name) =
  Some {| m_text := link_token name; m_caps := [(1, name)]; m_rest := [] |}.
Proof.
  intros Hne Hav. unfold match_at, Pat.wikilink, link_token. cbn [cat rmatch].
  rewrite lit_match_app by apply chr_eqb_refl.
  erewrite many_greedy_run; cycle 1.
  - apply avoids_class, Hav.
  - reflexivity.
  - apply nonempty_length, Hne.
  - exact I.
  - cbn beta. cbn [rmatch lit_match L list_ascii_of_string or_else].
    cbn. reflexivity.
  - pose proof (take_app_minus name (L "]]")) as Ht. cbn in Ht.
    rewrite Ht, firstn_all. reflexivity.
Qed.

Lemma wikilink_no_match_end (prev : option ascii) : match_at Pat.wikilink false prev [] = None.
Proof. reflexivity. Qed.

(** A link [[[name]]] to a file in the embedded-files set is internal. *)
Lemma convert_wikilinks_internal (name : str) (c : LatexConverter) :
  link_name name ->
  name ∈ files_embedded (c_stats c) ->
  convert_wikilinks (link_token name) c =
  (internal_ref c name name, c_with_stats (incr_internal_links (c_stats c)) c).
Proof.
  intros (Hne & Hav & Hstrip) Hin. unfold convert_wikilinks, re_sub_st.
  rewrite (sub_scan_hit_all _ _ _ _ _ _ (wikilink_plain_match None name Hne Hav) eq_refl);
    [| discriminate | apply wikilink_no_match_end].
  unfold replace_link, stripped_group, group_str, group.
  cbn [m_caps cap_lookup Nat.eqb default truthy make_key].
  unfold id. rewrite Hstrip. rewrite (bool_decide_eq_true_2 _ Hin). reflexivity.
Qed.

(** A text in which the passes that touch the converter find nothing is
    translated by the other passes alone. *)
Lemma translate_stateless (content : str) (c : LatexConverter) :
  (let content2 := convert_tables (convert_footnotes content) in
   re_search Pat.image_embed content2 = None
   /\ re_search Pat.image_std content2 = None
   /\ re_search Pat.wikilink content2 = None
   /\ re_search (Pat.heading true) content2 = None) ->
  convert_markdown_to_latex content c
  = Some (_convert_code_blocks
            (convert_code_spans
               (convert_emphasis
                  (_convert_lists (convert_tables (convert_footnotes content))))), c).
Proof.
  cbv zeta. intros (H1 & H2 & H3 & H4).
  unfold convert_markdown_to_latex, convert_images.
  rewrite (re_sub_st_none Pat.image_embed) by exact H1.
  rewrite (re_sub_st_none Pat.image_std) by exact H2.
  unfold convert_wikilinks. rewrite re_sub_st_none by exact H3.
  unfold convert_headings. rewrite re_sub_st_none by exact H4.
  reflexivity.
Qed.

End Passes.

End DocumentFacts.
Import DocumentFacts.

Module HeadingFacts.

Lemma times_Forall (c : ascii) (n : nat) : Forall (fun x => just c x = true) (times c n).
Proof.
  unfold times. induction n; simpl; constructor; [apply chr_eqb_refl|assumption].
Qed.

Lemma times_length (c : ascii) (n : nat) : length (times c n) = n.
Proof. apply repeat_length. Qed.

Lemma space_not_hash (c : ascii) : is_space c = true -> just "#" c = false.
Proof.
  intros Hs. unfold just. destruct (chr_eqb c "#") eqn:E; [|reflexivity].
  apply chr_eqb_eq in E. subst c. discriminate.
Qed.

Lemma one_line_dot (w : str) : one_line w -> Forall (fun c => dot c = true) w.
Proof.
  intros H. eapply Forall_impl; [exact H|]. intros c Hc.
  unfold dot. apply negb_true_iff, chr_eqb_neq, Hc.
Qed.

Lemma at_eol_stops (ml : bool) (rest : str) : at_eol ml rest = true -> stops dot rest.
Proof.
  destruct rest as [|c rest]; simpl; [trivial|].
  intros H. apply andb_true_iff in H as [H _]. unfold dot. rewrite H. reflexivity.
Qed.

(** The heading pattern on a marker run, a whitespace run and a title that
    goes up to the end of its line. *)
Lemma heading_match (ml : bool) (prev : option ascii) (n : nat) (ws title rest : str) :
  at_bol ml prev = true ->
  1 <= n <= 6 ->
  ws <> [] -> Forall (fun c => is_space c = true) ws ->
  title_text title ->
  at_eol ml rest = true ->
  match_at (Pat.heading ml) false prev (times "#" n ++ ws ++ title ++ rest) =
  Some {| m_text := times "#" n ++ ws ++ title;
          m_caps := [(2, title); (1, times "#" n)];
          m_rest := rest |}.
Proof.
  intros Hbol Hn Hws Hsp Htitle Heol.
  assert (Hol : one_line title) by (destruct title; [contradiction|apply Htitle]).
  assert (Hst : stops is_space (title ++ rest))
    by (destruct title; [contradiction|apply Htitle]).
  assert (Hlen : 1 <= length title) by (destruct title; [contradiction|simpl; lia]).
  unfold match_at, Pat.heading. cbn [cat rmatch]. rewrite Hbol.
  eapply many_greedy_run.
  { apply times_Forall. }
  { destruct ws as [|c ws]; [congruence|]. simpl.
    apply space_not_hash. inversion Hsp; assumption. }
  { rewrite times_length. lia. }
  { rewrite times_length. simpl. lia. }
  cbn beta.
  eapply many_greedy_run.
  { exact Hsp. }
  { exact Hst. }
  { apply nonempty_length, Hws. }
  { exact I. }
  cbn beta.
  eapply many_greedy_run.
  { apply one_line_dot, Hol. }
  { eapply at_eol_stops, Heol. }
  { exact Hlen. }
  { exact I. }
  cbn beta. rewrite Heol. cbn [andb]. f_equal. f_equal.
  - replace (times "#" n ++ ws ++ title ++ rest)
      with ((times "#" n ++ ws ++ title) ++ rest) by (rewrite <- !app_assoc; reflexivity).
    apply take_app_minus.
  - rewrite take_app_minus.
    rewrite (take_app_minus (times "#" n) (ws ++ title ++ rest)). reflexivity.
Qed.

Lemma heading_no_match_end (ml : bool) (prev : option ascii) :
  match_at (Pat.heading ml) false prev [] = None.
Proof. unfold match_at, Pat.heading. cbn [cat rmatch]. destruct (at_bol ml prev); reflexivity. Qed.

Lemma blank_run_spaces (ws : str) :
  blank_run ws -> ws <> [] /\ Forall (fun c => is_space c = true) ws.
Proof.
  intros [Hne Hall]. split; [exact Hne|].
  eapply Forall_impl; [exact Hall|]. intros c [Hc _]. exact Hc.
Qed.

(** A heading line as [extract_section] reads it. *)
Lemma heading_of_line (n : nat) (ws title : str) :
  1 <= n <= 6 -> blank_run ws -> title_text title ->
  heading_of (times "#" n ++ ws ++ title) = Some (n, strip title).
Proof.
  intros Hn Hws Ht. apply blank_run_spaces in Hws as [Hne Hsp].
  pose proof (heading_match false None n ws title [] eq_refl Hn Hne Hsp Ht eq_refl) as Hm.
  rewrite app_nil_r in Hm.
  unfold heading_of, re_match. rewrite Hm.
  unfold group_str, group. cbn [m_caps cap_lookup Nat.eqb default]. unfold id.
  rewrite times_length. reflexivity.
Qed.

Section Headings.
Context {env : Environment}.

(** The heading pass on a document that is one heading line. *)
Lemma convert_headings_line (n : nat) (ws title : str) (c : LatexConverter) :
  1 <= n <= 6 -> blank_run ws -> title_text title ->
  convert_headings (times "#" n ++ ws ++ title) c =
  (backslash :: default (L "paragraph") (heading_map n) ++ L "{" ++ title ++ L "}"
     ++ tex "label{" ++ heading_label title ++ L "}",
   c_incr_label_counter c).
Proof.
  intros Hn Hws Ht. apply blank_run_spaces in Hws as [Hne Hsp].
  pose proof (heading_match true None n ws title [] eq_refl Hn Hne Hsp Ht eq_refl) as Hm.
  rewrite app_nil_r in Hm.
  unfold convert_headings, re_sub_st.
  rewrite (sub_scan_hit_all _ _ _ _ _ _ Hm eq_refl); [| |apply heading_no_match_end].
  - unfold replace_heading, group_str, group.
    cbn [m_caps cap_lookup Nat.eqb default]. unfold id.
    rewrite times_length. reflexivity.
  - destruct n; [lia|discriminate].
Qed.

(** [demote_headings] on a document that is one heading line. *)
Lemma demote_headings_line (n : nat) (ws title : str) (levels : Z) :
  1 <= n <= 6 -> blank_run ws -> title_text title ->
  demote_headings (times "#" n ++ ws ++ title) levels =
  times "#" (Z.to_nat (Z.min (Z.of_nat n + levels) 6)) ++ L " " ++ title.
Proof.
  intros Hn Hws Ht. apply blank_run_spaces in Hws as [Hne Hsp].
  pose proof (heading_match true None n ws title [] eq_refl Hn Hne Hsp Ht eq_refl) as Hm.
  rewrite app_nil_r in Hm.
  unfold demote_headings, re_sub, re_sub_st.
  rewrite (sub_scan_hit_all _ _ _ _ _ _ Hm eq_refl); [| |apply heading_no_match_end].
  - unfold demote_heading, group_str, group.
    cbn [fst m_caps cap_lookup Nat.eqb default]. unfold id.
    rewrite times_length. reflexivity.
  - destruct n; [lia|discriminate].
Qed.

(** On a heading line, demoting by [d] and then by [e] is demoting by
    [d + e]. *)
Lemma demote_line_compose (n : nat) (ws title : str) (d e : Z) :
  1 <= n <= 6 -> blank_run ws -> title_text title ->
  (0 <= d)%Z -> (0 <= e)%Z ->
  demote_headings (demote_headings (times "#" n ++ ws ++ title) d) e
  = demote_headings (times "#" n ++ ws ++ title) (d + e).
Proof.
  intros Hn Hws Ht Hd He.
  rewrite (demote_headings_line n ws title d) by assumption.
  rewrite (demote_headings_line n ws title (d + e)) by assumption.
  rewrite demote_headings_line; [| lia | split; [discriminate|repeat constructor; discriminate]
                                 | assumption].
  f_equal. f_equal. lia.
Qed.

(** A heading line of rank 6 with one space after its markers is left as it
    is, and no demoted heading line has more than six markers. *)
Lemma demote_line_rank6 (title : str) (d : Z) :
  title_text title -> (0 <= d)%Z ->
  demote_headings (times "#" 6 ++ L " " ++ title) d = times "#" 6 ++ L " " ++ title.
Proof.
  intros Ht Hd.
  rewrite demote_headings_line; [| lia | split; [discriminate|repeat constructor; discriminate]
                                 | assumption].
  f_equal. f_equal. lia.
Qed.

Lemma demote_line_clamped (n : nat) (d : Z) : Z.to_nat (Z.min (Z.of_nat n + d) 6) <= 6.
Proof. lia. Qed.

End Headings.
End HeadingFacts.
Import HeadingFacts.


Module TableFacts.
Section Tables.
Context {env : Environment}.

Lemma data_rows_fold (num_cols : nat) (lines : list str) :
  forall acc,
  fold_left
    (fun rows line =>
       let cells := cells_of line in
       if (length cells =? num_cols)%nat then rows ++ [cells] else rows)
    lines acc
  = acc ++ map cells_of (filter (fun line => (length (cells_of line) =? num_cols)%nat = true) lines).
Proof.
  induction lines as [|l ls IH]; intros acc; simpl.
  - rewrite app_nil_r. reflexivity.
  - rewrite IH. rewrite filter_cons.
    destruct (length (cells_of l) =? num_cols)%nat eqn:E.
    + rewrite decide_True by reflexivity. simpl. rewrite <- app_assoc. reflexivity.
    + rewrite decide_False by discriminate. reflexivity.
Qed.

Lemma latex_rows_fold (rows : list (list str)) :
  forall latex,
  fold_left (fun latex row => latex ++ table_row row) rows latex
  = latex ++ concat (map table_row rows).
Proof.
  induction rows as [|r rs IH]; intros latex; simpl.
  - rewrite app_nil_r. reflexivity.
  - rewrite IH. rewrite <- app_assoc. reflexivity.
Qed.

(** The closed form of [_convert_table] for a block of two lines or more. *)
Lemma convert_table_closed (header sep : str) (rows : list str) :
  _convert_table (header :: sep :: rows)
  = tabular (cells_of header)
      (map cells_of (filter (fun line => fits header line = true) rows)).
Proof.
  unfold _convert_table. cbn [length Nat.ltb Nat.leb nth drop].
  rewrite data_rows_fold, latex_rows_fold. cbn [app].
  unfold tabular, fits. rewrite <- !app_assoc. reflexivity.
Qed.

Lemma tables_loop_block (block : list str) :
  forall result table_lines,
  Forall (fun l => is_table_line l = true) block ->
  tables_loop block result true table_lines
  = result ++ [_convert_table (table_lines ++ block)].
Proof.
  induction block as [|l ls IH]; intros result table_lines Hall; simpl.
  - rewrite app_nil_r. reflexivity.
  - inversion Hall as [|? ? Hl Hls]; subst. rewrite Hl.
    rewrite IH by assumption. rewrite <- app_assoc. reflexivity.
Qed.

(** A document that is one table block is its tabular. *)
Lemma convert_tables_block (block : list str) :
  block <> [] ->
  Forall (fun l => is_table_line l = true) block ->
  Forall one_line block ->
  convert_tables (join_lines block) = _convert_table block.
Proof.
  intros Hne Hall Hol. unfold convert_tables.
  rewrite split_join_lines by assumption.
  destruct block as [|l ls]; [congruence|].
  inversion Hall as [|? ? Hl Hls]; subst.
  simpl. rewrite Hl. rewrite tables_loop_block by assumption. reflexivity.
Qed.

End Tables.
End TableFacts.
Import TableFacts.


Module SectionFacts.






End SectionFacts.
Import SectionFacts.

(* ===================================================================== *)
(** ** The heading pattern in full, and the composition of demotions *)
(* ===================================================================== *)

Module BacktrackFacts.

(** A greedy class over a run none of whose splits lets the continuation
    succeed fails. *)
Lemma many_greedy_fail_all {R} (p : ascii -> bool) (w s : str) :
  forall lo prev (k : option ascii -> str -> option R),
  Forall (fun c => p c = true) w ->
  stops p s ->
  (forall u v, w = u ++ v -> lo <= length u -> k (after prev u) (v ++ s) = None) ->
  many_greedy p lo None prev (w ++ s) k = None.
Proof.
  induction w as [|c w IH]; intros lo prev k Hall Hstop Hk.
  - simpl. assert (Hstop0 : match lo with 0 => k prev s | S _ => None end = None).
    { destruct lo; [|reflexivity]. apply (Hk [] []); [reflexivity|simpl; lia]. }
    destruct s as [|c s]; simpl; [exact Hstop0|].
    simpl in Hstop. rewrite Hstop. exact Hstop0.
  - inversion Hall as [|? ? Hc Hw]; subst. simpl. rewrite Hc. simpl.
    rewrite IH; [| assumption | assumption |].
    + simpl. destruct lo; [|reflexivity].
      apply (Hk [] (c :: w)); [reflexivity|simpl; lia].
    + intros u v Hw' Hlo. apply (Hk (c :: u) v); [rewrite Hw'; reflexivity|simpl; lia].
Qed.

(** A greedy class gives back characters until the continuation succeeds:
    the split [w1], [w2] of the run is taken when it succeeds and no longer
    one does. *)
Lemma many_greedy_first {R} (p : ascii -> bool) (w1 w2 s : str) :
  forall lo prev (k : option ascii -> str -> option R) r,
  Forall (fun c => p c = true) w1 ->
  Forall (fun c => p c = true) w2 ->
  stops p s ->
  lo <= length w1 ->
  k (after prev w1) (w2 ++ s) = Some r ->
  (forall u v, w2 = u ++ v -> u <> [] -> k (after prev (w1 ++ u)) (v ++ s) = None) ->
  many_greedy p lo None prev (w1 ++ w2 ++ s) k = Some r.
Proof.
  induction w1 as [|c w1 IH]; intros lo prev k r H1 H2 Hstop Hlo Hk Hlonger.
  - simpl in *. assert (lo = 0) by lia. subst lo.
    destruct w2 as [|c w2].
    + simpl in *. destruct s as [|c s]; simpl; [exact Hk|].
      simpl in Hstop. rewrite Hstop. exact Hk.
    + inversion H2 as [|? ? Hc Hw]; subst. simpl. rewrite Hc. simpl.
      rewrite many_greedy_fail_all; [exact Hk|assumption|assumption|].
      intros u v Hw' _. apply (Hlonger (c :: u) v); [rewrite Hw'; reflexivity|discriminate].
  - inversion H1 as [|? ? Hc Hw]; subst. simpl. rewrite Hc. simpl.
    rewrite (IH (pred lo) (Some c) k r); try assumption.
    + reflexivity.
    + simpl in Hlo. lia.
Qed.

(** Splitting a text at the end of its leading run of a class. *)
Lemma span_class (p : ascii -> bool) (s : str) :
  exists w z, s = w ++ z /\ Forall (fun c => p c = true) w /\ stops p z.
Proof.
  induction s as [|c s (w & z & -> & Hw & Hz)].
  - exists [], []. repeat split; constructor.
  - destruct (p c) eqn:E.
    + exists (c :: w), z. repeat split; [constructor; assumption|assumption].
    + exists [], (c :: w ++ z). repeat split; [constructor|exact E].
Qed.

(** A text is made of line breaks only, or has a last character that is not
    one. *)
Lemma last_not_nl (w : str) :
  Forall (fun c => c = nl) w
  \/ exists w1 c w2, w = w1 ++ c :: w2 /\ c <> nl /\ Forall (fun c => c = nl) w2.
Proof.
  induction w as [|a w IH].
  - left. constructor.
  - destruct IH as [Hall|(w1 & c & w2 & -> & Hc & H2)].
    + destruct (chr_eqb a nl) eqn:E.
      * apply chr_eqb_eq in E. left. constructor; assumption.
      * apply chr_eqb_neq in E. right. exists [], a, w. repeat split; assumption.
    + right. exists (a :: w1), c, w2. repeat split; assumption.
Qed.

End BacktrackFacts.
Import BacktrackFacts.

Module DemoteFacts.

Local Abbreviation H := (Pat.heading true).

Lemma Forall_just_times (c : ascii) (h : str) :
  Forall (fun x => just c x = true) h -> h = times c (length h).
Proof.
  induction 1 as [|a h Ha _ IH]; [reflexivity|].
  apply chr_eqb_eq in Ha. subst a. unfold times in *. simpl. f_equal. exact IH.
Qed.

Lemma hash_prefix_unique (h1 h2 x y : str) :
  Forall (fun c => just "#" c = true) h1 ->
  Forall (fun c => just "#" c = true) h2 ->
  stops (just "#") x -> stops (just "#") y ->
  h1 ++ x = h2 ++ y -> h1 = h2 /\ x = y.
Proof.
  intros H1. revert h2. induction H1 as [|a h1 Ha _ IH]; intros h2 H2 Hx Hy Heq.
  - destruct H2 as [|b h2 Hb _]; [split; [reflexivity|exact Heq]|].
    simpl in Heq. subst x. simpl in Hx. congruence.
  - destruct H2 as [|b h2 Hb H2].
    + simpl in Heq. subst y. simpl in Hy. congruence.
    + simpl in Heq. injection Heq as -> Heq.
      destruct (IH h2 H2 Hx Hy Heq) as [-> ->]. split; reflexivity.
Qed.

Lemma heading_at_bol (mb : bool) (prev : option ascii) (s : str) :
  at_bol true prev = false -> match_at H mb prev s = None.
Proof.
  intros Hb. unfold match_at, Pat.heading. cbn [cat rmatch]. rewrite Hb. reflexivity.
Qed.

(** Only a text that starts like a heading can match the heading pattern. *)
Lemma heading_match_start (mb : bool) (prev : option ascii) (s : str) (m : Match) :
  match_at H mb prev s = Some m -> heading_start s.
Proof.
  intros Hm. apply match_at_sound in Hm as [Hs Hl].
  unfold Pat.heading in Hl. cbn [cat lang] in Hl.
  destruct Hl as (w1 & w2 & Hw & -> & h & w3 & -> & (Hh & Hlo & Hhi) & W & w4 & ->
                  & (HW & HWlo & _) & _).
  destruct W as [|c W]; [simpl in HWlo; lia|].
  apply Forall_cons in HW as [Hc _].
  exists (length h), c, (W ++ w4 ++ m_rest m). repeat split; try assumption.
  rewrite Hs, Hw. rewrite <- (Forall_just_times _ _ Hh).
  rewrite <- !app_assoc. simpl. reflexivity.
Qed.

Lemma no_heading_start_no_match (mb : bool) (prev : option ascii) (s : str) :
  ~ heading_start s -> match_at H mb prev s = None.
Proof.
  intros Hn. destruct (match_at H mb prev s) as [m|] eqn:E; [|reflexivity].
  exfalso. apply Hn. eapply heading_match_start, E.
Qed.

Lemma blank_no_heading_start (W : str) :
  Forall (fun c => is_space c = true) W -> ~ heading_start W.
Proof.
  intros HW (n & c & x & -> & Hn & _).
  destruct n as [|n]; [lia|]. simpl in HW. inversion HW as [|? ? Hc _]. discriminate.
Qed.

Lemma stops_dot_eol (rest : str) : stops dot rest -> at_eol true rest = true.
Proof.
  destruct rest as [|c rest]; simpl; [reflexivity|].
  unfold dot. intros Hc. apply negb_false_iff in Hc. rewrite Hc. reflexivity.
Qed.

Lemma dot_one_line (t : str) : Forall (fun c => dot c = true) t -> one_line t.
Proof.
  intros Ht. eapply Forall_impl; [exact Ht|]. intros c Hc.
  unfold dot in Hc. apply negb_true_iff, chr_eqb_neq in Hc. exact Hc.
Qed.

Lemma space_is_nl : is_space nl = true.
Proof. reflexivity. Qed.

(** The greedy case: a character that is not whitespace follows the
    whitespace run, and the title runs from it to the end of its line. *)
Lemma heading_match_greedy (prev : option ascii) (n : nat) (W z : str) :
  at_bol true prev = true ->
  1 <= n <= 6 ->
  W <> [] -> Forall (fun c => is_space c = true) W ->
  match z with [] => False | c :: _ => is_space c = false end ->
  exists t rest,
    z = t ++ rest /\ title_text t /\ at_eol true rest = true
    /\ match_at H false prev (times "#" n ++ W ++ z)
       = Some {| m_text := times "#" n ++ W ++ t;
                 m_caps := [(2, t); (1, times "#" n)];
                 m_rest := rest |}.
Proof.
  intros Hb Hn HWne HW Hz.
  destruct (span_class dot z) as (t & rest & -> & Ht & Hrest).
  assert (Htt : title_text t).
  { destruct t as [|c t].
    - destruct rest as [|c rest]; [contradiction|]. simpl in Hz, Hrest.
      unfold dot in Hrest. apply negb_false_iff, chr_eqb_eq in Hrest. subst c.
      rewrite space_is_nl in Hz. discriminate.
    - simpl in Hz. split; [exact Hz|]. apply dot_one_line, Ht. }
  exists t, rest. repeat split; try assumption.
  - apply stops_dot_eol, Hrest.
  - apply heading_match; try assumption. apply stops_dot_eol, Hrest.
Qed.

Lemma nl_run_stops_dot (v : str) : Forall (fun c => c = nl) v -> stops dot v.
Proof. intros Hv. destruct v as [|c v]; [exact I|]. inversion Hv; subst. reflexivity. Qed.

(** The backtracking case: the whitespace run goes to the end of the text,
    and the title is its last character that is not a line break. *)
Lemma heading_match_back (prev : option ascii) (n : nat) (W1 NLs : str) (c : ascii) :
  at_bol true prev = true ->
  1 <= n <= 6 ->
  W1 <> [] -> Forall (fun c => is_space c = true) W1 ->
  is_space c = true -> c <> nl ->
  Forall (fun c => c = nl) NLs ->
  match_at H false prev (times "#" n ++ W1 ++ c :: NLs)
  = Some {| m_text := times "#" n ++ W1 ++ [c];
            m_caps := [(2, [c]); (1, times "#" n)];
            m_rest := NLs |}.
Proof.
  intros Hb Hn HWne HW Hc Hcnl HN.
  assert (HNsp : Forall (fun c => is_space c = true) NLs).
  { eapply Forall_impl; [exact HN|]. intros a ->. reflexivity. }
  unfold match_at, Pat.heading. cbn [cat rmatch]. rewrite Hb.
  eapply many_greedy_run.
  { apply times_Forall. }
  { destruct W1 as [|a W1]; [congruence|]. simpl.
    apply space_not_hash. inversion HW; assumption. }
  { rewrite times_length. lia. }
  { rewrite times_length. simpl. lia. }
  cbn beta.
  replace (W1 ++ c :: NLs) with (W1 ++ (c :: NLs) ++ []) by (rewrite app_nil_r; reflexivity).
  eapply many_greedy_first.
  { exact HW. }
  { constructor; assumption. }
  { exact I. }
  { apply nonempty_length, HWne. }
  { cbn beta. cbn [rmatch]. rewrite app_nil_r.
    change (c :: NLs) with ([c] ++ NLs).
    eapply many_greedy_run.
    { constructor; [|constructor]. unfold dot. apply negb_true_iff, chr_eqb_neq, Hcnl. }
    { apply nl_run_stops_dot, HN. }
    { simpl. lia. }
    { exact I. }
    cbn beta. rewrite (stops_dot_eol NLs) by (apply nl_run_stops_dot, HN).
    cbn [andb]. f_equal. f_equal.
    - replace (times "#" n ++ W1 ++ [c] ++ NLs) with ((times "#" n ++ W1 ++ [c]) ++ NLs)
        by (rewrite <- !app_assoc; reflexivity).
      apply take_app_minus.
    - rewrite (take_app_minus [c] NLs).
      rewrite (take_app_minus (times "#" n) (W1 ++ [c] ++ NLs)). reflexivity. }
  intros u v Huv Hu. cbn beta. cbn [rmatch]. rewrite app_nil_r.
  assert (Hv : Forall (fun a => a = nl) v).
  { destruct u as [|a u]; [congruence|]. simpl in Huv. injection Huv as _ Huv.
    rewrite Huv in HN. apply Forall_app in HN. apply HN. }
  destruct v as [|a v]; [reflexivity|].
  inversion Hv; subst. reflexivity.
Qed.

(** Markers, one whitespace character and line breaks up to the end: no
    heading. *)
Lemma heading_no_match_blank (mb : bool) (prev : option ascii) (n : nat)
    (c : ascii) (NLs : str) :
  is_space c = true ->
  Forall (fun c => c = nl) NLs ->
  match_at H mb prev (times "#" n ++ c :: NLs) = None.
Proof.
  intros Hc HN. destruct (match_at H mb prev _) as [m|] eqn:E; [|reflexivity].
  exfalso. apply match_at_sound in E as [Hs Hl].
  unfold Pat.heading in Hl. cbn [cat lang] in Hl.
  destruct Hl as (w1 & w2 & Hw & -> & h & w3 & -> & (Hh & Hlo & Hhi) & W & w4 & ->
                  & (HW & HWlo & _) & t & w5 & -> & (Ht & Htlo & _) & ->).
  rewrite Hw in Hs. simpl in Hs. rewrite <- !app_assoc in Hs.
  destruct W as [|a W]; [simpl in HWlo; lia|].
  apply Forall_cons in HW as [Ha HW'].
  apply hash_prefix_unique in Hs as [_ Hs].
  - simpl in Hs. injection Hs as _ Hs. rewrite Hs in HN.
    apply Forall_app in HN as [_ HN]. apply Forall_app in HN as [HN _].
    destruct t as [|b t]; [simpl in Htlo; lia|].
    apply Forall_cons in HN as [-> _]. apply Forall_cons in Ht as [Hb _]. discriminate.
  - apply times_Forall.
  - exact Hh.
  - apply space_not_hash, Hc.
  - apply space_not_hash, Ha.
Qed.


(** Every match of the heading pattern is one of the two cases above. *)
Lemma heading_match_form (prev : option ascii) (s : str) (m : Match) :
  match_at H false prev s = Some m ->
  at_bol true prev = true /\
  exists n W t rest,
    1 <= n <= 6 /\ W <> [] /\ Forall (fun c => is_space c = true) W
    /\ s = times "#" n ++ W ++ t ++ rest
    /\ m = {| m_text := times "#" n ++ W ++ t;
              m_caps := [(2, t); (1, times "#" n)];
              m_rest := rest |}
    /\ ((title_text t /\ at_eol true rest = true)
        \/ (exists c, t = [c] /\ is_space c = true /\ c <> nl
                      /\ Forall (fun c => c = nl) rest)).
Proof.
  intros Hm.
  destruct (at_bol true prev) eqn:Hb;
    [|rewrite heading_at_bol in Hm by exact Hb; discriminate].
  split; [reflexivity|].
  destruct (heading_match_start _ _ _ _ Hm) as (n & c & x & -> & Hn & Hc).
  destruct (span_class is_space x) as (W' & z & -> & HW' & Hz).
  assert (HW : Forall (fun c => is_space c = true) (c :: W')) by (constructor; assumption).
  destruct z as [|c' z].
  - rewrite app_nil_r in Hm.
    destruct (last_not_nl W') as [Hall|(w1 & c1 & NLs & -> & Hc1 & HN)].
    + rewrite heading_no_match_blank in Hm by assumption. discriminate.
    + assert (Hc1s : is_space c1 = true).
      { apply Forall_app in HW' as [_ HW']. apply Forall_cons in HW' as [Hc1s _]. exact Hc1s. }
      assert (HW1 : Forall (fun c => is_space c = true) (c :: w1)).
      { constructor; [exact Hc|]. apply Forall_app in HW' as [HW' _]. exact HW'. }
      pose proof (heading_match_back prev n (c :: w1) NLs c1 Hb Hn ltac:(discriminate)
                    HW1 Hc1s Hc1 HN) as Hback.
      simpl in Hback. rewrite Hm in Hback. injection Hback as ->.
      exists n, (c :: w1), [c1], NLs. repeat split; try assumption; try lia.
      * discriminate.
      * rewrite app_nil_r. reflexivity.
      * right. exists c1. repeat split; assumption.
  - destruct (heading_match_greedy prev n (c :: W') (c' :: z) Hb Hn ltac:(discriminate)
                HW Hz) as (t & rest & Hz' & Ht & Hrest & Hg).
    simpl in Hg. rewrite Hm in Hg. injection Hg as ->.
    exists n, (c :: W'), t, rest. repeat split; try assumption; try lia.
    + discriminate.
    + rewrite Hz'. reflexivity.
    + left. split; assumption.
Qed.

(** *** [demote_headings] from a cursor *)

Lemma demote_from_nil (d : Z) (prev : option ascii) : demote_from d prev [] = [].
Proof.
  unfold demote_from. rewrite sub_scan_end by apply heading_no_match_end. reflexivity.
Qed.

Lemma demote_from_miss (d : Z) (prev : option ascii) (c : ascii) (s : str) :
  match_at H false prev (c :: s) = None ->
  demote_from d prev (c :: s) = c :: demote_from d (Some c) s.
Proof.
  intros Hm. unfold demote_from. rewrite sub_scan_miss by exact Hm.
  destruct (sub_scan _ _ (Some c) s 0 tt). reflexivity.
Qed.

Lemma demote_from_hit (d : Z) (prev : option ascii) (w rest : str) (m : Match) :
  match_at H false prev (w ++ rest) = Some m ->
  m_text m = w -> w <> [] ->
  demote_from d prev (w ++ rest) = demote_heading d m ++ demote_from d (after prev w) rest.
Proof.
  intros Hm Ht Hw. unfold demote_from.
  rewrite (sub_scan_hit _ _ prev w rest m tt Hm Ht Hw).
  destruct (sub_scan _ _ (after prev w) rest 0 tt). reflexivity.
Qed.

Lemma after_last (prev : option ascii) (x t : str) :
  t <> [] -> after prev (x ++ t) = after None t.
Proof.
  intros Ht. rewrite after_app.
  destruct t as [|c t]; [congruence|]. reflexivity.
Qed.

Lemma after_one_line (t : str) :
  t <> [] -> one_line t -> at_bol true (after None t) = false.
Proof.
  intros Hne Hol. destruct t as [|c t]; [congruence|]. clear Hne.
  simpl. revert c Hol. induction t as [|a t IH]; intros c Hol.
  - simpl. apply Forall_cons in Hol as [Hc _]. apply chr_eqb_neq, Hc.
  - simpl. apply IH. apply Forall_cons in Hol as [_ Hol]. exact Hol.
Qed.

Lemma not_bol_after (prev : option ascii) (u : str) :
  at_bol true prev = false -> one_line u -> at_bol true (after prev u) = false.
Proof.
  intros Hb Hol. destruct u as [|c u]; [exact Hb|].
  rewrite <- (app_nil_l (c :: u)). rewrite after_last by discriminate.
  apply after_one_line; [discriminate|exact Hol].
Qed.

Lemma not_bol_chr (a : ascii) : a <> nl -> at_bol true (Some a) = false.
Proof. intros Ha. simpl. apply chr_eqb_neq, Ha. Qed.

(** Away from the start of a line nothing matches: the rest of the line is
    copied. *)
Lemma demote_from_line (d : Z) (u rest : str) :
  forall prev,
  at_bol true prev = false -> one_line u ->
  demote_from d prev (u ++ rest) = u ++ demote_from d (after prev u) rest.
Proof.
  induction u as [|a u IH]; intros prev Hb Hol; [reflexivity|].
  apply Forall_cons in Hol as [Ha Hol].
  simpl. rewrite demote_from_miss by (apply heading_at_bol, Hb).
  rewrite IH; [reflexivity|apply not_bol_chr, Ha|exact Hol].
Qed.

(** Whitespace is copied. *)
Lemma demote_from_blank (d : Z) (W : str) :
  forall prev, Forall (fun c => is_space c = true) W -> demote_from d prev W = W.
Proof.
  induction W as [|a W IH]; intros prev HW; [apply demote_from_nil|].
  rewrite demote_from_miss
    by (apply no_heading_start_no_match, blank_no_heading_start, HW).
  apply Forall_cons in HW as [_ HW]. rewrite IH by exact HW. reflexivity.
Qed.

(** What comes out of a line away from its start went in. *)
Lemma demote_from_prefix_inv (d : Z) (u : str) :
  forall prev s c0 x,
  at_bol true prev = false -> one_line u ->
  demote_from d prev s = u ++ c0 :: x ->
  exists x', s = u ++ c0 :: x'.
Proof.
  induction u as [|a u IH]; intros prev s c0 x Hb Hol Hd.
  - destruct s as [|b s]; [rewrite demote_from_nil in Hd; discriminate|].
    rewrite demote_from_miss in Hd by (apply heading_at_bol, Hb).
    simpl in Hd. injection Hd as -> _. exists s. reflexivity.
  - apply Forall_cons in Hol as [Ha Hol].
    destruct s as [|b s]; [rewrite demote_from_nil in Hd; discriminate|].
    rewrite demote_from_miss in Hd by (apply heading_at_bol, Hb).
    simpl in Hd. injection Hd as -> Hd.
    destruct (IH (Some a) s c0 x (not_bol_chr a Ha) Hol Hd) as (x' & ->).
    exists x'. reflexivity.
Qed.

Lemma times_one_line (n : nat) : one_line (times "#" n).
Proof. unfold times. induction n; simpl; constructor; [discriminate|assumption]. Qed.

(** Where the pattern does not match before demotion, it does not match
    after the rest of the text has been demoted. *)
Lemma heading_miss_stable (d : Z) (prev : option ascii) (c : ascii) (s : str) :
  match_at H false prev (c :: s) = None ->
  match_at H false prev (c :: demote_from d (Some c) s) = None.
Proof.
  intros Hnone.
  destruct (match_at H false prev (c :: demote_from d (Some c) s)) as [m|] eqn:E;
    [exfalso|reflexivity].
  destruct (heading_match_start _ _ _ _ E) as (n & c0 & x & Heq & Hn & Hc0).
  destruct n as [|n]; [lia|]. simpl in Heq. injection Heq as -> Heq.
  assert (Hhash : at_bol true (Some "#"%char) = false) by reflexivity.
  destruct (demote_from_prefix_inv d (times "#" n) (Some "#"%char) s c0 x Hhash
              (times_one_line n) Heq) as (x' & ->).
  destruct (span_class is_space x') as (W' & z & -> & HW' & Hz).
  assert (HW : Forall (fun c => is_space c = true) (c0 :: W')) by (constructor; assumption).
  destruct (at_bol true prev) eqn:Hb;
    [|rewrite heading_at_bol in E by exact Hb; discriminate].
  destruct z as [|c' z].
  - rewrite app_nil_r in *.
    assert (Hid : demote_from d (Some "#"%char) (times "#" n ++ c0 :: W')
                  = times "#" n ++ c0 :: W').
    { rewrite demote_from_line by (reflexivity || apply times_one_line).
      rewrite demote_from_blank by exact HW. reflexivity. }
    rewrite Hid in E. rewrite Hnone in E. discriminate.
  - destruct (heading_match_greedy prev (S n) (c0 :: W') (c' :: z) Hb Hn
                ltac:(discriminate) HW Hz) as (t & rest & _ & _ & _ & Hg).
    simpl in Hg. simpl in Hnone. rewrite Hnone in Hg. discriminate.
Qed.

Lemma demote_heading_value (d : Z) (n : nat) (W t rest : str) :
  demote_heading d {| m_text := times "#" n ++ W ++ t;
                      m_caps := [(2, t); (1, times "#" n)];
                      m_rest := rest |}
  = times "#" (Z.to_nat (Z.min (Z.of_nat n + d) 6)) ++ L " " ++ t.
Proof.
  unfold demote_heading, group_str, group. cbn [m_caps cap_lookup Nat.eqb default].
  unfold id. rewrite times_length. reflexivity.
Qed.

(** The composition law from any cursor, by induction on the length of the
    text. *)
Lemma demote_from_compose (d e : Z) :
  (0 <= d)%Z -> (0 <= e)%Z ->
  forall k s, length s <= k ->
  forall prev,
  demote_from e prev (demote_from d prev s) = demote_from (d + e) prev s.
Proof.
  intros Hd He. induction k as [|k IH]; intros s Hlen prev.
  { destruct s; [|simpl in Hlen; lia]. rewrite !demote_from_nil. reflexivity. }
  destruct s as [|c s]; [rewrite !demote_from_nil; reflexivity|].
  destruct (match_at H false prev (c :: s)) as [m|] eqn:Hm.
  - destruct (heading_match_form _ _ _ Hm) as (Hb & n & W & t & rest & Hn & HWne & HW
                                               & Hs & -> & Hcase).
    assert (Htne : t <> [] /\ one_line t).
    { destruct Hcase as [[Ht _]|(c1 & -> & _ & Hc1 & _)].
      - destruct t; [contradiction|]. split; [discriminate|apply Ht].
      - split; [discriminate|]. constructor; [exact Hc1|constructor]. }
    destruct Htne as [Htne Hol].
    assert (Hlen' : length rest <= k).
    { apply (f_equal (@length ascii)) in Hs. rewrite !length_app in Hs. simpl in Hlen, Hs.
      destruct t; [congruence|]. simpl in Hs. lia. }
    rewrite Hs in *.
    replace (times "#" n ++ W ++ t ++ rest) with ((times "#" n ++ W ++ t) ++ rest) in *
      by (rewrite <- !app_assoc; reflexivity).
    assert (Hw : times "#" n ++ W ++ t <> []).
    { destruct n; [lia|discriminate]. }
    rewrite (demote_from_hit d _ _ _ _ Hm eq_refl Hw).
    rewrite (demote_from_hit (d + e) _ _ _ _ Hm eq_refl Hw).
    rewrite !demote_heading_value.
    set (nd := Z.to_nat (Z.min (Z.of_nat n + d) 6)).
    assert (Hnd : 1 <= nd <= 6) by (unfold nd; lia).
    replace (after prev (times "#" n ++ W ++ t)) with (after None t)
      by (rewrite app_assoc; symmetry; apply after_last, Htne).
    set (pt := after None t).
    assert (Hpt : at_bol true pt = false) by (apply after_one_line; assumption).
    set (rest2 := demote_from d pt rest).
    assert (Hm2 : match_at H false prev ((times "#" nd ++ L " " ++ t) ++ rest2)
                  = Some {| m_text := times "#" nd ++ L " " ++ t;
                            m_caps := [(2, t); (1, times "#" nd)];
                            m_rest := rest2 |}).
    { rewrite <- !app_assoc.
      destruct Hcase as [[Ht Heol]|(c1 & -> & Hc1s & Hc1 & HN)].
      - apply heading_match; try assumption.
        + discriminate.
        + repeat constructor.
        + unfold rest2. destruct rest as [|a rest]; [rewrite demote_from_nil; reflexivity|].
          simpl in Heol. apply andb_true_iff in Heol as [Ha _].
          rewrite demote_from_miss by (apply heading_at_bol, Hpt).
          simpl. rewrite Ha. reflexivity.
      - assert (Hr2 : rest2 = rest).
        { unfold rest2. apply demote_from_blank.
          eapply Forall_impl; [exact HN|]. intros a ->. reflexivity. }
        rewrite Hr2.
        apply (heading_match_back prev nd (L " ") rest c1); try assumption.
        + discriminate.
        + repeat constructor. }
    assert (Hw2 : times "#" nd ++ L " " ++ t <> []).
    { destruct nd; [lia|discriminate]. }
    rewrite (demote_from_hit e _ _ _ _ Hm2 eq_refl Hw2).
    rewrite demote_heading_value.
    replace (after prev (times "#" nd ++ L " " ++ t)) with pt
      by (rewrite app_assoc; symmetry; apply after_last, Htne).
    unfold rest2. rewrite (IH rest Hlen' pt).
    replace (Z.to_nat (Z.min (Z.of_nat nd + e) 6))
      with (Z.to_nat (Z.min (Z.of_nat n + (d + e)) 6)) by (unfold nd; lia).
    reflexivity.
  - rewrite (demote_from_miss d) by exact Hm.
    rewrite (demote_from_miss (d + e)) by exact Hm.
    rewrite (demote_from_miss e) by (apply heading_miss_stable, Hm).
    rewrite IH by (simpl in Hlen; lia). reflexivity.
Qed.

(** Demoting by [d] and then by [e] is demoting by [d + e], on every text. *)
Lemma demote_headings_compose (s : str) (d e : Z) :
  (0 <= d)%Z -> (0 <= e)%Z ->
  demote_headings (demote_headings s d) e = demote_headings s (d + e).
Proof.
  intros Hd He. apply (demote_from_compose d e Hd He (length s) s (le_n _) None).
Qed.

End DemoteFacts.
Import DemoteFacts.

(* ===================================================================== *)
(** ** The claims *)
(* ===================================================================== *)

(** C1, as stated, fails on the example vault: the resolved text carries no
    missing-file marker for [World], and no warning at all is recorded. *)
Lemma C1_counterexample :
  let r := process_embeds (env := Example.vault_env) (L "![[Intro]]") Example.parser0 in
  fst r = L "## Intro" ++ NL ++ L "Hello ![[World]]"
  /\ fst r <> L "## Intro" ++ NL ++ L "Hello " ++ missing_marker (L "World")
  /\ warnings (stats (snd r)) = []
  /\ length (warnings (stats (snd r))) <> 2.
Proof.
  split; [vm_compute; reflexivity|].
  split; [vm_compute; discriminate|].
  split; [vm_compute; reflexivity|vm_compute; discriminate].
Qed.

(** C1, amended.  For a master body [![[Intro]]] where [Intro.md] holds
    [# Intro], a line break and [Hello ![[World]]], embed resolution yields
    the heading demoted to the second level, followed by [Hello ] and the
    embed marker [![[World]]] left as it is: the text of an embedded file is
    not searched for embeds.  [Intro] is recorded as embedded, one section is
    counted, and no warning is recorded, whether or not [World.md] exists. *)
Theorem C1_embed_is_expanded_one_level (env : Environment) (p : ObsidianParser)
    (path : Path) :
  L "Intro" ∉ embedded_files p ->
  _find_file p (L "Intro") = Some path ->
  path_exists path = true ->
  read_text path = L "# Intro" ++ NL ++ L "Hello ![[World]]" ->
  let p1 := after_expand (L "Intro") (L "Intro") p in
  process_embeds (L "![[Intro]]") p = (L "## Intro" ++ NL ++ L "Hello ![[World]]", p1)
  /\ warnings (stats p1) = warnings (stats p).
Proof.
  intros Hnin Hf He Hr p1. split; [|reflexivity].
  change (L "![[Intro]]") with (embed_token (L "Intro")).
  rewrite process_embeds_token;
    [| discriminate | repeat constructor; vm_compute; intuition discriminate
     | repeat constructor; discriminate].
  unfold resolve_embed.
  change (parse_embed (embed_token (L "Intro"))) with (Some (L "Intro", @None str)).
  cbn [make_key]. rewrite (bool_decide_eq_false_2 _ Hnin). cbn zeta.
  change (_find_file _ (L "Intro")) with (_find_file p (L "Intro")). rewrite Hf.
  rewrite read_file_plain; [|exact He|rewrite Hr; reflexivity].
  cbn [truthy]. rewrite Hr.
  replace (demote_headings (L "# Intro" ++ NL ++ L "Hello ![[World]]") 1)
    with (L "## Intro" ++ NL ++ L "Hello ![[World]]") by (vm_compute; reflexivity).
  reflexivity.
Qed.

(** The example vault meets the hypotheses of C1 as amended. *)
Lemma C1_witness :
  process_embeds (env := Example.vault_env) (L "![[Intro]]") Example.parser0
  = (L "## Intro" ++ NL ++ L "Hello ![[World]]",
     after_expand (L "Intro") (L "Intro") Example.parser0)
  /\ warnings (stats (after_expand (L "Intro") (L "Intro") Example.parser0)) = [].
Proof.
  apply (C1_embed_is_expanded_one_level Example.vault_env Example.parser0 (L "/vault/Intro.md")).
  - vm_compute. set_solver.
  - vm_compute. reflexivity.
  - vm_compute. reflexivity.
  - vm_compute. reflexivity.
Defined.

(** C2 is not met by the code.  The document that is the fenced block
    [```], [x], [```] is translated, whatever the converter, to two
    back-ticks, an inline [\texttt] command around the interior and two more
    back-ticks: the inline-code pass, which runs before the fenced-code pass,
    takes the third back-tick of the opening fence as the start of a code
    span, so that no fence is left and no verbatim block is produced.  With
    a language tag and emphasis markers in the interior the emphasis is
    rewritten as well.  On its own the fenced-code pass does produce the
    verbatim block with the interior as it is. *)
Theorem C2_fence_is_lost (env : Environment) (c : LatexConverter) :
  convert_markdown_to_latex (L "```" ++ NL ++ L "x" ++ NL ++ L "```") c
  = Some (L "``" ++ tex "texttt{" ++ NL ++ L "x" ++ NL ++ L "}``", c)
  /\ convert_markdown_to_latex (L "```python" ++ NL ++ L "**a** | b" ++ NL ++ L "```") c
     = Some (L "``" ++ tex "texttt{python" ++ NL ++ tex "textbf{a} | b" ++ NL ++ L "}``", c)
  /\ _convert_code_blocks (L "```" ++ NL ++ L "x" ++ NL ++ L "```")
     = tex "begin{verbatim}" ++ NL ++ L "x" ++ NL ++ NL ++ tex "end{verbatim}"
  /\ _convert_code_blocks (L "```python" ++ NL ++ L "**a** | b" ++ NL ++ L "```")
     = tex "begin{verbatim}" ++ NL ++ L "**a** | b" ++ NL ++ NL ++ tex "end{verbatim}".
Proof.
  split; [|split; [|split; vm_compute; reflexivity]].
  - rewrite translate_stateless by (vm_compute; repeat split; reflexivity).
    apply f_equal. apply (f_equal (fun x => (x, c))). vm_compute. reflexivity.
  - rewrite translate_stateless by (vm_compute; repeat split; reflexivity).
    apply f_equal. apply (f_equal (fun x => (x, c))). vm_compute. reflexivity.
Qed.

(** C3, as stated, fails: rank 4 becomes [\paragraph] while rank 6 becomes
    [\subparagraph], so ranks 4 to 6 do not share one command. *)
Lemma C3_counterexample :
  fst (convert_headings (env := Example.vault_env) (L "#### T") Example.converter0)
    = tex "paragraph{T}" ++ tex "label{sec:t}"
  /\ fst (convert_headings (env := Example.vault_env) (L "###### T") Example.converter0)
    = tex "subparagraph{T}" ++ tex "label{sec:t}"
  /\ heading_map 4 <> heading_map 6.
Proof. repeat split; [vm_compute; reflexivity..|discriminate]. Qed.

(** C3, amended.  A heading line of rank [n] between 1 and 6 becomes the
    sectioning command of its rank, immediately followed by a label that is
    [sec:] and the title in lower case with spaces turned into underscores.
    Ranks 1, 2 and 3 give [section], [subsection] and [subsubsection]; rank 4
    gives [paragraph]; ranks 5 and 6 both give [subparagraph]. *)
Theorem C3_heading_translation (env : Environment) (c : LatexConverter)
    (n : nat) (ws title : str) :
  1 <= n <= 6 -> blank_run ws -> title_text title ->
  exists cmd,
    heading_map n = Some cmd
    /\ convert_headings (times "#" n ++ ws ++ title) c =
       (backslash :: cmd ++ L "{" ++ title ++ L "}"
          ++ tex "label{" ++ L "sec:" ++ replace_chr " " (L "_") (lower title) ++ L "}",
        c_incr_label_counter c)
    /\ (n = 1 -> cmd = L "section")
    /\ (n = 2 -> cmd = L "subsection")
    /\ (n = 3 -> cmd = L "subsubsection")
    /\ (n = 4 -> cmd = L "paragraph")
    /\ (n = 5 \/ n = 6 -> cmd = L "subparagraph").
Proof.
  intros Hn Hws Ht.
  pose proof (convert_headings_line n ws title c Hn Hws Ht) as Hc.
  assert (Hcases : n = 1 \/ n = 2 \/ n = 3 \/ n = 4 \/ n = 5 \/ n = 6) by lia.
  destruct Hcases as [-> | [-> | [-> | [-> | [-> | ->]]]]];
    eexists; (split; [reflexivity|]); (split; [exact Hc|]);
    repeat split; intros; try lia; try reflexivity.
  all: destruct H; lia || reflexivity.
Qed.

(** A second-level heading with two spaces after its markers. *)
Lemma C3_witness :
  convert_headings (env := Example.vault_env) (L "##  My Title") Example.converter0
  = (tex "subsection{My Title}" ++ tex "label{sec:my_title}",
     c_incr_label_counter Example.converter0).
Proof.
  destruct (C3_heading_translation Example.vault_env Example.converter0 2
              (L "  ") (L "My Title")) as (cmd & Hcmd & Hc & _).
  - lia.
  - split; [discriminate|]. repeat constructor; discriminate.
  - split; [reflexivity|]. repeat constructor; discriminate.
  - injection Hcmd as <-. exact Hc.
Defined.



(** C5.  A table block is a run of at least two table lines.  Its
    translation is the tabular of the header cells and of the data rows that
    have as many cells as the header, each row written with the cell
    separator and the row terminator; the second line never matters, a data
    row with the right number of cells is among the rows written, and a row
    with any other number of cells can be deleted from the input without
    changing the output. *)
Theorem C5_table_rows (header sep : str) (rows : list str) :
  Forall (fun l => is_table_line l = true /\ one_line l) (header :: sep :: rows) ->
  let kept := map cells_of (filter (fun line => fits header line = true) rows) in
  convert_tables (join_lines (header :: sep :: rows)) = tabular (cells_of header) kept
  /\ (forall sep', _convert_table (header :: sep' :: rows) = tabular (cells_of header) kept)
  /\ (forall row, In row rows -> fits header row = true -> In (cells_of row) kept)
  /\ (forall row, In row rows -> fits header row = false ->
      forall before after, rows = before ++ row :: after ->
      _convert_table (header :: sep :: rows) = _convert_table (header :: sep :: before ++ after)).
Proof.
  intros Hall kept.
  assert (Ht : Forall (fun l => is_table_line l = true) (header :: sep :: rows)).
  { eapply Forall_impl; [exact Hall|]. intros l [H _]. exact H. }
  assert (Ho : Forall one_line (header :: sep :: rows)).
  { eapply Forall_impl; [exact Hall|]. intros l [_ H]. exact H. }
  repeat split.
  - rewrite convert_tables_block by (assumption || discriminate).
    apply convert_table_closed.
  - intros sep'. apply convert_table_closed.
  - intros row Hin Hfit. unfold kept. apply in_map.
    apply list_elem_of_In. apply list_elem_of_filter. split; [exact Hfit|].
    apply list_elem_of_In. exact Hin.
  - intros row Hin Hfit before after ->.
    rewrite !convert_table_closed. f_equal. f_equal.
    rewrite !filter_app, filter_cons.
    rewrite decide_False by (rewrite Hfit; discriminate). reflexivity.
Qed.

(** A block whose second line is no rule and whose second data row is short. *)
Lemma C5_witness :
  convert_tables (L "| a | b |" ++ NL ++ L "| not a rule |" ++ NL ++ L "| 1 | 2 |"
                    ++ NL ++ L "| 3 |" ++ NL ++ L "| 4 | 5 |")
  = tex "begin{tabular}{ll}" ++ NL ++ tex "hline" ++ NL
      ++ L "a & b " ++ [backslash; backslash] ++ NL ++ tex "hline" ++ NL
      ++ L "1 & 2 " ++ [backslash; backslash] ++ NL
      ++ L "4 & 5 " ++ [backslash; backslash] ++ NL
      ++ tex "hline" ++ NL ++ tex "end{tabular}".
Proof.
  destruct (C5_table_rows (L "| a | b |") (L "| not a rule |")
              [L "| 1 | 2 |"; L "| 3 |"; L "| 4 | 5 |"]) as (H & _).
  - repeat constructor; try reflexivity; discriminate.
  - change (join_lines _) with
      (L "| a | b |" ++ NL ++ L "| not a rule |" ++ NL ++ L "| 1 | 2 |"
                    ++ NL ++ L "| 3 |" ++ NL ++ L "| 4 | 5 |") in H.
    rewrite H. vm_compute. reflexivity.
Defined.



(** C7.  With [Intro] in the embedded-files set, the link [[[Intro|See it]]]
    becomes an internal cross-reference whose text is [See it], and the
    internal-link counter grows by one.  With [Nowhere] not in the set, the
    link [[[Nowhere]]] becomes an external reference, to the note
    application or to the file according to the configuration, and the
    converter is unchanged. *)
Theorem C7_link_classification (env : Environment) (c1 c2 : LatexConverter) :
  L "Intro" ∈ files_embedded (c_stats c1) ->
  L "Nowhere" ∉ files_embedded (c_stats c2) ->
  convert_wikilinks (L "[[Intro|See it]]") c1
  = (internal_ref c1 (L "Intro") (L "See it"),
     c_with_stats (incr_internal_links (c_stats c1)) c1)
  /\ internal_links (c_stats (snd (convert_wikilinks (L "[[Intro|See it]]") c1)))
     = S (internal_links (c_stats c1))
  /\ convert_wikilinks (L "[[Nowhere]]") c2
     = (tex "href{" ++ link_target c2 (L "Nowhere") ++ L "}{Nowhere}", c2).
Proof.
  intros Hin Hnin.
  assert (H1 : convert_wikilinks (L "[[Intro|See it]]") c1
               = (internal_ref c1 (L "Intro") (L "See it"),
                  c_with_stats (incr_internal_links (c_stats c1)) c1)).
  { unfold convert_wikilinks, re_sub_st.
    erewrite sub_scan_hit_all;
      [| vm_compute; reflexivity | reflexivity | discriminate | reflexivity].
    unfold replace_link.
    match goal with |- context [strip (group_str ?m 1)] =>
      change (strip (group_str m 1)) with (L "Intro");
      change (stripped_group m 2) with (@None str);
      change (stripped_group m 3) with (Some (L "See it")) end.
    cbn [truthy make_key L list_ascii_of_string default from_option]. unfold id.
    rewrite (bool_decide_eq_true_2 _ Hin). reflexivity. }
  split; [exact H1|]. split; [rewrite H1; reflexivity|].
  unfold convert_wikilinks, re_sub_st.
  erewrite sub_scan_hit_all;
    [| vm_compute; reflexivity | reflexivity | discriminate | reflexivity].
  unfold replace_link.
  match goal with |- context [strip (group_str ?m 1)] =>
    change (strip (group_str m 1)) with (L "Nowhere");
    change (stripped_group m 2) with (@None str);
    change (stripped_group m 3) with (@None str) end.
  cbn [truthy make_key L list_ascii_of_string default from_option]. unfold id.
  rewrite (bool_decide_eq_false_2 _ Hnin). cbn [orb].
  unfold link_target. destruct (obsidian_uri (config c2)); reflexivity.
Qed.

(** A converter over statistics that record [Intro], and a fresh one. *)
Lemma C7_witness :
  let c1 := new_converter (env := Example.vault_env) (L "/vault") (L "/out")
              (add_file_embedded (L "Intro") new_stats) Example.cfg in
  convert_wikilinks (L "[[Intro|See it]]") c1
  = (tex "hyperref[sec:Intro]{See it}", c_with_stats (incr_internal_links (c_stats c1)) c1)
  /\ convert_wikilinks (env := Example.vault_env) (L "[[Nowhere]]") Example.converter0
     = (tex "href{obsidian://open?vault=MyVault&file=Nowhere}{Nowhere}", Example.converter0).
Proof.
  intros c1.
  destruct (C7_link_classification Example.vault_env c1 Example.converter0)
    as (H1 & _ & H3).
  - vm_compute. set_solver.
  - vm_compute. set_solver.
  - split; [exact H1 | exact H3].
Defined.

(** C8 is not met by the code.  In the text [#], line break, [foo] neither
    line is a heading for the line-by-line readers of the program, yet
    [demote_headings] joins the two lines into the heading [## foo]: under
    [re.MULTILINE] the whitespace after the markers may be a line break.
    Lines that are no headings are therefore not always left as they are. *)
Theorem C8_demote_joins_lines :
  demote_headings (L "#" ++ NL ++ L "foo") 1 = L "## foo"
  /\ heading_of (L "#") = None
  /\ heading_of (L "foo") = None.
Proof. repeat split; vm_compute; reflexivity. Qed.







(* ===================================================================== *)
(** ** Facts about lines *)
(* ===================================================================== *)

Module LineFacts.

Lemma join_split_on (sep : ascii) (s : str) : join [sep] (split_on sep s) = s.
Proof.
  induction s as [|c s IH]; [reflexivity|].
  simpl split_on. destruct (chr_eqb c sep) eqn:E.
  - apply chr_eqb_eq in E. subst c.
    pose proof (split_on_nonempty sep s) as Hne.
    destruct (split_on sep s) as [|w ws] eqn:Es; [congruence|].
    change (join [sep] ([] :: w :: ws)) with ([] ++ [sep] ++ join [sep] (w :: ws)).
    rewrite IH. reflexivity.
  - destruct (split_on sep s) as [|w ws] eqn:Es.
    + exfalso. eapply split_on_nonempty. exact Es.
    + destruct ws as [|w' ws'].
      * simpl in *. rewrite IH. reflexivity.
      * change (join [sep] ((c :: w) :: w' :: ws'))
          with (c :: (w ++ [sep] ++ join [sep] (w' :: ws'))).
        change (join [sep] (w :: w' :: ws')) with (w ++ [sep] ++ join [sep] (w' :: ws')) in IH.
        rewrite IH. reflexivity.
Qed.

(** Joining undoes splitting. *)
Lemma join_split_lines (s : str) : join_lines (split_lines s) = s.
Proof. apply join_split_on. Qed.

Lemma split_on_Forall (P : ascii -> Prop) (sep : ascii) (s : str) :
  Forall P s -> Forall (Forall P) (split_on sep s).
Proof.
  induction 1 as [|c s Hc Hs IH]; simpl.
  - repeat constructor.
  - destruct (chr_eqb c sep).
    + constructor; [constructor|exact IH].
    + destruct (split_on sep s) as [|w ws]; [repeat constructor; assumption|].
      apply Forall_cons in IH as [Hw Hws].
      constructor; [constructor; assumption|assumption].
Qed.

Lemma split_on_free (sep : ascii) (s : str) :
  Forall (Forall (fun c => c <> sep)) (split_on sep s).
Proof.
  induction s as [|c s IH]; simpl.
  - repeat constructor.
  - destruct (chr_eqb c sep) eqn:E.
    + constructor; [constructor|exact IH].
    + apply chr_eqb_neq in E.
      destruct (split_on sep s) as [|w ws]; [repeat constructor; assumption|].
      apply Forall_cons in IH as [Hw Hws].
      constructor; [constructor; assumption|assumption].
Qed.

Lemma split_lines_one_lines (s : str) : Forall one_line (split_lines s).
Proof. apply split_on_free. Qed.

(** Every part of a joined text is a part of the text. *)
Lemma join_part (sep : str) (ls : list str) (l : str) :
  In l ls -> exists u t, join sep ls = u ++ l ++ t.
Proof.
  induction ls as [|a ls IH]; [intros []|].
  intros [->|Hin].
  - destruct ls as [|b ls].
    + exists [], []. simpl. rewrite app_nil_r. reflexivity.
    + exists [], (sep ++ join sep (b :: ls)). reflexivity.
  - destruct (IH Hin) as (u & t & E).
    destruct ls as [|b ls]; [destruct Hin|].
    exists (a ++ sep ++ u), t.
    change (join sep (a :: b :: ls)) with (a ++ sep ++ join sep (b :: ls)).
    rewrite E, <- !app_assoc. reflexivity.
Qed.

Lemma split_lines_part (s l : str) :
  In l (split_lines s) -> exists u t, s = u ++ l ++ t.
Proof.
  intros Hin. destruct (join_part NL (split_lines s) l Hin) as (u & t & E).
  change (join NL (split_lines s)) with (join_lines (split_lines s)) in E.
  rewrite join_split_lines in E. exists u, t. exact E.
Qed.

End LineFacts.
Import LineFacts.

(* ===================================================================== *)
(** ** Facts about occurrences *)
(* ===================================================================== *)

Module OccursFacts.

Lemma occurs_part (p s u t : str) : occurs p s -> occurs p (u ++ s ++ t).
Proof.
  intros (a & b & ->). exists (u ++ a), (b ++ t). rewrite <- !app_assoc. reflexivity.
Qed.

Lemma occurs_line (p s l : str) : In l (split_lines s) -> occurs p l -> occurs p s.
Proof.
  intros Hin Ho. destruct (split_lines_part s l Hin) as (u & t & ->).
  apply occurs_part. exact Ho.
Qed.

Lemma lead_sound (r : regex) : forall w, lang r w -> exists x, w = lead r ++ x.
Proof.
  induction r as [p|l|l|r1 IH1 r2 IH2|r1 IH1 r2 IH2|g lo hi p|r1 IH1|n r1 IH1|ml|ml];
    intros w Hw; try (exists w; reflexivity).
  - simpl in Hw. subst w. exists []. simpl. rewrite app_nil_r. reflexivity.
  - destruct Hw as (w1 & w2 & -> & H1 & H2).
    destruct r1; try (eexists; reflexivity).
    + simpl in H1. subst w1. exists w2. reflexivity.
    + simpl in H1. subst w1. simpl. apply IH2. exact H2.
  - simpl in Hw. simpl. apply IH1. exact Hw.
Qed.

(** A pattern finds nothing in a text where its leading literal does not
    occur. *)
Lemma re_search_no_lead (r : regex) (s : str) :
  ~ occurs (lead r) s -> re_search r s = None.
Proof.
  intros Hno. apply re_search_no_word. intros u w t -> Hw.
  destruct (lead_sound r w Hw) as (x & ->).
  apply Hno. exists u, (x ++ t). rewrite <- !app_assoc. reflexivity.
Qed.

Lemma occurs_In (c : ascii) (p s : str) : In c p -> occurs p s -> In c s.
Proof.
  intros Hc (u & t & ->). apply in_or_app. right. apply in_or_app. left. exact Hc.
Qed.

(** A text without the character [c] has no occurrence of a text with [c]. *)
Lemma avoids_no_occurrence (c : ascii) (cs p s : str) :
  In c cs -> In c p -> avoids cs s -> ~ occurs p s.
Proof.
  intros Hcs Hp Hav Ho. pose proof (occurs_In c p s Hp Ho) as Hin.
  unfold avoids in Hav. rewrite Forall_forall in Hav.
  apply (Hav c); [apply list_elem_of_In|]; assumption.
Qed.

End OccursFacts.
Import OccursFacts.

(* ===================================================================== *)
(** ** Invariants of a substitution *)
(* ===================================================================== *)

Module InvariantFacts.

(** A relation between states that every call of the callable respects, and
    that is reflexive and transitive, holds across a substitution. *)
Lemma sub_scan_invariant {S} (R : S -> S -> Prop) (r : regex) (f : Match -> S -> str * S) :
  (forall st, R st st) ->
  (forall a b c, R a b -> R b c -> R a c) ->
  (forall m st, R st (snd (f m st))) ->
  forall s prev skip st, R st (snd (sub_scan r f prev s skip st)).
Proof.
  intros Hrefl Htrans Hf. induction s as [|c s IH]; intros prev skip st.
  - destruct skip; simpl; [|apply Hrefl].
    destruct (match_at r false prev []) as [m|]; [|apply Hrefl].
    pose proof (Hf m st) as H. destruct (f m st). exact H.
  - destruct skip as [|n]; [|simpl; apply IH].
    rewrite sub_scan_zero.
    destruct (match_at r false prev (c :: s)) as [m|].
    + pose proof (Hf m st) as H1. destruct (f m st) as [rep st1]. simpl in H1.
      destruct (length (m_text m)) as [|n].
      * destruct (match_at r true prev (c :: s)) as [m2|].
        -- pose proof (Hf m2 st1) as H2. destruct (f m2 st1) as [rep2 st2]. simpl in H2.
           pose proof (IH (Some c) (pred (length (m_text m2))) st2) as H3.
           destruct (sub_scan r f (Some c) s (pred (length (m_text m2))) st2) as [out st3].
           simpl in *. eauto.
        -- pose proof (IH (Some c) 0 st1) as H3.
           destruct (sub_scan r f (Some c) s 0 st1) as [out st2]. simpl in *. eauto.
      * pose proof (IH (Some c) n st1) as H3.
        destruct (sub_scan r f (Some c) s n st1) as [out st2]. simpl in *. eauto.
    + pose proof (IH (Some c) 0 st) as H3.
      destruct (sub_scan r f (Some c) s 0 st) as [out st1]. simpl in *. exact H3.
Qed.

Lemma re_sub_st_invariant {S} (R : S -> S -> Prop) (r : regex) (f : Match -> S -> str * S) :
  (forall st, R st st) ->
  (forall a b c, R a b -> R b c -> R a c) ->
  (forall m st, R st (snd (f m st))) ->
  forall s st, R st (snd (re_sub_st r f s st)).
Proof. intros H1 H2 H3 s st. unfold re_sub_st. apply sub_scan_invariant; assumption. Qed.

Lemma stats_grow_refl (s : CompilationStats) : stats_grow s s.
Proof. unfold stats_grow. repeat split; reflexivity. Qed.

Lemma stats_grow_trans (a b c : CompilationStats) :
  stats_grow a b -> stats_grow b c -> stats_grow a c.
Proof.
  intros (A1 & A2 & A3 & A4 & A5) (B1 & B2 & B3 & B4 & B5).
  unfold stats_grow. repeat split; try (etrans; eassumption). 
Qed.

Lemma stats_grow_warning (msg : str) (s : CompilationStats) : stats_grow s (add_warning msg s).
Proof.
  unfold stats_grow, add_warning. simpl. repeat split; try reflexivity.
  apply prefix_app_r. reflexivity.
Qed.

End InvariantFacts.
Import InvariantFacts.

(* ===================================================================== *)
(** ** Facts about the embed pass *)
(* ===================================================================== *)

Module EmbedPassFacts.
Section EmbedPass.
Context {env : Environment}.

Lemma parser_grows_refl (p : ObsidianParser) : parser_grows p p.
Proof. unfold parser_grows. repeat split; reflexivity. Qed.

Lemma parser_grows_trans (a b c : ObsidianParser) :
  parser_grows a b -> parser_grows b c -> parser_grows a c.
Proof.
  intros (A1 & A2 & A3 & A4 & A5) (B1 & B2 & B3 & B4 & B5).
  unfold parser_grows.
  split; [congruence|]. split; [etrans; eassumption|].
  split; [eapply stats_grow_trans; eassumption|]. split; congruence.
Qed.

(** [read_file] and [extract_section] record at most one warning. *)
Lemma read_file_stats (filepath : Path) (s : CompilationStats) :
  snd (read_file filepath s) = s
  \/ exists msg, snd (read_file filepath s) = add_warning msg s.
Proof.
  unfold read_file. destruct (negb (path_exists filepath)); [right; eexists; reflexivity|].
  left. destruct (startswith _ _); [|reflexivity].
  destruct (find_sub _ _) as [[block rest]|]; [|reflexivity].
  destruct (yaml_safe_load block); reflexivity.
Qed.

Lemma extract_section_stats (content section_name : str) (s : CompilationStats) :
  snd (extract_section content section_name s) = s
  \/ exists msg, snd (extract_section content section_name s) = add_warning msg s.
Proof.
  unfold extract_section.
  destruct (extract_loop _ _ _ _ _) as [in_section result_lines].
  destruct in_section; [left|right; eexists]; reflexivity.
Qed.

Lemma with_stats_grows (p : ObsidianParser) (s : CompilationStats) :
  stats_grow (stats p) s ->
  images_copied s = images_copied (stats p) ->
  internal_links s = internal_links (stats p) ->
  parser_grows p (with_stats s p).
Proof.
  intros H1 H2 H3. unfold parser_grows, with_stats. simpl.
  split; [reflexivity|]. split; [reflexivity|]. split; [exact H1|]. split; assumption.
Qed.

Lemma warning_grows (p : ObsidianParser) (msg : str) :
  parser_grows p (with_stats (add_warning msg (stats p)) p).
Proof. apply with_stats_grows; [apply stats_grow_warning|reflexivity..]. Qed.

Lemma resolve_embed_grows (e : str) (lvl n : nat) (p : ObsidianParser) :
  parser_grows p (snd (resolve_embed e lvl n p)).
Proof.
  unfold resolve_embed.
  destruct (parse_embed e) as [[filename section]|]; [|apply parser_grows_refl].
  destruct (bool_decide _); [apply warning_grows|]. cbv zeta.
  set (p1 := add_embedded (make_key filename section) p).
  set (p2 := with_stats (add_file_embedded filename (stats p1)) p1).
  assert (H2 : parser_grows p p2).
  { unfold parser_grows, p2, p1, with_stats, add_embedded, add_file_embedded, stats_grow.
    simpl. repeat split; try reflexivity; try set_solver. }
  destruct (_find_file p2 filename) as [filepath|].
  - destruct (read_file filepath (stats p2)) as [[fm content] s3] eqn:Er.
    assert (H3 : parser_grows p2 (with_stats s3 p2)).
    { pose proof (read_file_stats filepath (stats p2)) as Hs. rewrite Er in Hs. simpl in Hs.
      destruct Hs as [->|[msg ->]]; [|apply warning_grows].
      apply with_stats_grows; [apply stats_grow_refl|reflexivity..]. }
    set (p3 := with_stats s3 p2) in *.
    destruct (truthy section).
    + destruct (extract_section content (default [] section) (stats p3)) as [r s4] eqn:Ex.
      assert (H4 : parser_grows p3 (with_stats s4 p3)).
      { pose proof (extract_section_stats content (default [] section) (stats p3)) as Hs.
        rewrite Ex in Hs. simpl in Hs.
        destruct Hs as [->|[msg ->]]; [|apply warning_grows].
        apply with_stats_grows; [apply stats_grow_refl|reflexivity..]. }
      set (p4 := with_stats s4 p3) in *.
      destruct r as [content'|]; simpl.
      * eapply parser_grows_trans; [exact H2|]. eapply parser_grows_trans; [exact H3|].
        eapply parser_grows_trans; [exact H4|].
        apply with_stats_grows; [|reflexivity..].
        unfold stats_grow, incr_sections_processed. simpl. repeat split; try reflexivity. lia.
      * eauto using parser_grows_trans.
    + simpl. eapply parser_grows_trans; [exact H2|]. eapply parser_grows_trans; [exact H3|].
      apply with_stats_grows; [|reflexivity..].
      unfold stats_grow, incr_sections_processed. simpl. repeat split; try reflexivity. lia.
  - simpl. eapply parser_grows_trans; [exact H2|]. apply warning_grows.
Qed.

Lemma process_line_grows (lines : list str) (n : nat) (line : str) (p : ObsidianParser) :
  parser_grows p (snd (process_line lines n line p)).
Proof.
  unfold process_line. destruct (re_search Pat.embed line); [|apply parser_grows_refl].
  apply (re_sub_st_invariant parser_grows).
  - apply parser_grows_refl.
  - apply parser_grows_trans.
  - intros m0 st. apply resolve_embed_grows.
Qed.

Lemma process_lines_grows (lines : list str) (todo : list str) :
  forall n p, parser_grows p (snd (process_lines lines n todo p)).
Proof.
  induction todo as [|line todo IH]; intros n p; simpl; [apply parser_grows_refl|].
  pose proof (process_line_grows lines n line p) as H1.
  destruct (process_line lines n line p) as [line' p1]. simpl in H1.
  pose proof (IH (S n) p1) as H2.
  destruct (process_lines lines (S n) todo p1) as [rs p2]. simpl in *.
  eapply parser_grows_trans; eassumption.
Qed.

Lemma process_embeds_grows (content : str) (p : ObsidianParser) :
  parser_grows p (snd (process_embeds content p)).
Proof.
  unfold process_embeds.
  pose proof (process_lines_grows (split_lines content) (split_lines content) 1 p) as H.
  destruct (process_lines _ 1 _ p) as [rs p']. exact H.
Qed.

(** Lines without an embed token are left alone. *)
Lemma process_lines_plain (lines : list str) (todo : list str) :
  Forall (fun l => re_search Pat.embed l = None) todo ->
  forall n p, process_lines lines n todo p = (todo, p).
Proof.
  induction 1 as [|line todo Hl Ht IH]; intros n p; simpl; [reflexivity|].
  unfold process_line. rewrite Hl. rewrite IH. reflexivity.
Qed.

Lemma process_embeds_plain (content : str) (p : ObsidianParser) :
  ~ occurs (L "![[") content -> process_embeds content p = (content, p).
Proof.
  intros Hno. unfold process_embeds.
  rewrite process_lines_plain; [rewrite join_split_lines; reflexivity|].
  apply Forall_forall. intros l Hin. apply list_elem_of_In in Hin.
  apply re_search_no_lead. intros Ho. apply Hno. eapply occurs_line; eassumption.
Qed.

End EmbedPass.
End EmbedPassFacts.
Import EmbedPassFacts.

(* ===================================================================== *)
(** ** Facts about the splicing of files *)
(* ===================================================================== *)

Module SpliceFacts.

Lemma occurs_find (p s : str) : occurs p s -> find_sub p s <> None.
Proof.
  intros (u & t & ->). induction u as [|c u IH]; simpl.
  - assert (H : strip_prefix p (p ++ t) = Some t).
    { clear. induction p as [|a p IH]; simpl; [reflexivity|].
      rewrite chr_eqb_refl. exact IH. }
    destruct (p ++ t); simpl; rewrite H; discriminate.
  - destruct (strip_prefix p (c :: u ++ p ++ t)); [discriminate|].
    destruct (find_sub p (u ++ p ++ t)) as [[b r]|]; [discriminate|congruence].
Qed.

Lemma join_lines_cons (l : str) (ls : list str) :
  ls <> [] -> join_lines (l :: ls) = l ++ NL ++ join_lines ls.
Proof. destruct ls; [congruence|reflexivity]. Qed.

Lemma join_lines_app (a b : list str) :
  a <> [] -> b <> [] -> join_lines (a ++ b) = join_lines a ++ NL ++ join_lines b.
Proof.
  intros Ha Hb. induction a as [|l a IH]; [congruence|].
  destruct a as [|l' a'].
  - simpl app. apply join_lines_cons. exact Hb.
  - change ((l :: l' :: a') ++ b) with (l :: ((l' :: a') ++ b)).
    rewrite join_lines_cons by discriminate.
    rewrite IH by discriminate.
    rewrite (join_lines_cons l (l' :: a')) by discriminate.
    rewrite <- !app_assoc. reflexivity.
Qed.

Section Splice.
Context {env : Environment}.

Lemma read_file_exists (filepath : Path) (s : CompilationStats) :
  path_exists filepath = true ->
  read_file filepath s = (fst (read_file filepath new_stats), s).
Proof.
  intros He. unfold read_file. rewrite He. cbn [negb].
  destruct (startswith _ _); [|reflexivity].
  destruct (find_sub _ _) as [[block rest]|]; [|reflexivity].
  destruct (yaml_safe_load block); reflexivity.
Qed.

Lemma extract_section_result (content section_name : str) (s : CompilationStats) :
  extract_section content section_name s
  = match fst (extract_section content section_name new_stats) with
    | Some text => (Some text, s)
    | None => (None, add_warning (not_found_warning section_name) s)
    end.
Proof.
  unfold extract_section.
  destruct (extract_loop _ _ _ _ _) as [[] result_lines]; reflexivity.
Qed.

Lemma plain_line_search (l : str) : plain_line l -> re_search Pat.embed l = None.
Proof. intros [_ Hno]. apply re_search_no_lead. exact Hno. Qed.

Lemma process_lines_app (lines a b : list str) :
  forall n p,
  process_lines lines n (a ++ b) p =
  let '(ra, pa) := process_lines lines n a p in
  let '(rb, pb) := process_lines lines (n + length a) b pa in
  (ra ++ rb, pb).
Proof.
  induction a as [|l a IH]; intros n p.
  - simpl. rewrite Nat.add_0_r. destruct (process_lines lines n b p). reflexivity.
  - simpl. destruct (process_line lines n l p) as [l' p1].
    rewrite IH. destruct (process_lines lines (S n) a p1) as [ra pa].
    replace (n + S (length a)) with (S n + length a) by lia.
    destruct (process_lines lines (S n + length a) b pa). reflexivity.
Qed.

(** An embed token on a line of its own, between lines without tokens, is
    replaced by what [resolve_embed] returns for it. *)
Lemma process_embeds_between (above below : list str) (body : str) (p : ObsidianParser) :
  Forall plain_line (above ++ below) ->
  body <> [] -> avoids (L "]") body -> one_line body ->
  exists lvl n,
  process_embeds (join_lines (above ++ embed_token body :: below)) p =
  let '(r, p') := resolve_embed (embed_token body) lvl n p in
  (join_lines (above ++ r :: below), p').
Proof.
  intros Hpl Hne Hav Hol.
  apply Forall_app in Hpl as [Ha Hb].
  set (lines := above ++ embed_token body :: below).
  exists (get_current_heading_level lines (1 + length above)), (1 + length above).
  unfold process_embeds.
  rewrite split_join_lines.
  - fold lines. unfold lines at 2.
    rewrite process_lines_app.
    rewrite process_lines_plain
      by (eapply Forall_impl; [exact Ha|]; intros l; apply plain_line_search).
    cbn [process_lines]. rewrite process_line_token by assumption.
    destruct (resolve_embed _ _ _ p) as [r p'].
    rewrite process_lines_plain
      by (eapply Forall_impl; [exact Hb|]; intros l; apply plain_line_search).
    reflexivity.
  - destruct above; discriminate.
  - apply Forall_app. split; [eapply Forall_impl; [exact Ha|]; intros l [H _]; exact H|].
    constructor; [apply embed_token_one_line, Hol|].
    eapply Forall_impl; [exact Hb|]. intros l [H _]. exact H.
Qed.

Lemma resolve_embed_file (e filename : str) (lvl n : nat) (p : ObsidianParser)
    (filepath : Path) :
  parse_embed e = Some (filename, None) ->
  filename ∉ embedded_files p ->
  _find_file p filename = Some filepath ->
  path_exists filepath = true ->
  resolve_embed e lvl n p
  = (demote_headings (file_body filepath) 1, after_expand filename filename p).
Proof.
  intros Hp Hnin Hf He. unfold resolve_embed. rewrite Hp. cbn [make_key].
  rewrite (bool_decide_eq_false_2 _ Hnin). cbn zeta.
  change (_find_file _ filename) with (_find_file p filename). rewrite Hf.
  rewrite read_file_exists by exact He.
  unfold file_body. destruct (fst (read_file filepath new_stats)) as [fm content].
  reflexivity.
Qed.

Lemma resolve_embed_section (e filename section : str) (lvl n : nat) (p : ObsidianParser)
    (filepath : Path) :
  parse_embed e = Some (filename, Some section) ->
  section <> [] ->
  filename ++ L "#" ++ section ∉ embedded_files p ->
  _find_file p filename = Some filepath ->
  path_exists filepath = true ->
  resolve_embed e lvl n p
  = match fst (extract_section (file_body filepath) section new_stats) with
    | Some text =>
        (demote_headings text 1,
         after_expand filename (filename ++ L "#" ++ section) p)
    | None =>
        (missing_section_marker filename section,
         after_missing_section filename section (filename ++ L "#" ++ section) p)
    end.
Proof.
  intros Hp Hs Hnin Hf He. unfold resolve_embed. rewrite Hp.
  destruct section as [|c sec]; [congruence|]. cbn [make_key].
  rewrite (bool_decide_eq_false_2 _ Hnin). cbn zeta.
  change (_find_file _ filename) with (_find_file p filename). rewrite Hf.
  rewrite read_file_exists by exact He.
  unfold file_body. destruct (fst (read_file filepath new_stats)) as [fm content].
  cbn [truthy default from_option snd]. unfold id.
  rewrite extract_section_result.
  destruct (fst (extract_section content (c :: sec) new_stats)); reflexivity.
Qed.

End Splice.
End SpliceFacts.
Import SpliceFacts.

(* ===================================================================== *)
(** ** Invariants of the converter *)
(* ===================================================================== *)

Module ConverterFacts.
Section Converter.
Context {env : Environment}.

Lemma converter_grows_refl (c : LatexConverter) : converter_grows c c.
Proof. unfold converter_grows. repeat split; reflexivity. Qed.

Lemma converter_grows_trans (a b c : LatexConverter) :
  converter_grows a b -> converter_grows b c -> converter_grows a c.
Proof.
  intros (A1 & A2 & A3 & A4 & A5 & A6 & A7 & A8 & A9)
         (B1 & B2 & B3 & B4 & B5 & B6 & B7 & B8 & B9).
  unfold converter_grows.
  split; [congruence|]. split; [congruence|]. split; [congruence|]. split; [congruence|].
  split; [lia|]. split; [etrans; eassumption|].
  split; [eapply stats_grow_trans; eassumption|]. split; congruence.
Qed.

Lemma run_grows_refl (oc : option LatexConverter) : run_grows oc oc.
Proof. destruct oc; simpl; [apply converter_grows_refl|exact I]. Qed.

Lemma run_grows_trans (a b c : option LatexConverter) :
  run_grows a b -> run_grows b c -> run_grows a c.
Proof.
  destruct a, b, c; simpl; try tauto. apply converter_grows_trans.
Qed.

Lemma replace_image_grows (m : Match) (c c' : LatexConverter) (r : str) :
  replace_image m c = Some (r, c') -> converter_grows c c'.
Proof.
  unfold replace_image. destruct (negb (path_exists _)).
  - intros [= <- <-]. unfold converter_grows, c_with_stats. simpl.
    repeat split; try reflexivity. apply prefix_app_r. reflexivity.
  - cbv zeta. destruct (negb (mkdir_returns _ _)); [discriminate|].
    destruct (negb (copy2_returns _ _ _)); [discriminate|].
    intros [= <- <-].
    unfold converter_grows, c_with_stats, c_log, add_image_copied, stats_grow. simpl.
    repeat split; try reflexivity; try set_solver.
    rewrite <- app_assoc. apply prefix_app_r. reflexivity.
Qed.

Lemma raising_replace_image_grows (m : Match) (oc : option LatexConverter) :
  run_grows oc (snd (raising replace_image m oc)).
Proof.
  unfold raising. destruct oc as [c|]; [|exact I].
  destruct (replace_image m c) as [[r c']|] eqn:E; [|exact I].
  apply (replace_image_grows m c c' r E).
Qed.

Lemma replace_image_std_grows (m : Match) (oc : option LatexConverter) :
  run_grows oc (snd (replace_image_std m oc)).
Proof.
  unfold replace_image_std.
  destruct (re_match Pat.rest_of_line _) as [m'|]; [|destruct oc; exact I].
  apply raising_replace_image_grows.
Qed.

Lemma replace_link_grows (m : Match) (c : LatexConverter) :
  converter_grows c (snd (replace_link m c)).
Proof.
  unfold replace_link. cbv zeta.
  destruct (_ || _).
  - simpl. unfold converter_grows, c_with_stats, incr_internal_links, stats_grow. simpl.
    repeat split; try reflexivity. lia.
  - destruct (obsidian_uri (config c)); apply converter_grows_refl.
Qed.

Lemma replace_heading_grows (m : Match) (c : LatexConverter) :
  converter_grows c (snd (replace_heading m c)).
Proof.
  unfold replace_heading, converter_grows, c_incr_label_counter. simpl.
  repeat split; try reflexivity. lia.
Qed.

Lemma convert_images_grows (content out : str) (c c' : LatexConverter) :
  convert_images content c = Some (out, c') -> converter_grows c c'.
Proof.
  unfold convert_images.
  pose proof (re_sub_st_invariant run_grows Pat.image_embed (raising replace_image)
                run_grows_refl run_grows_trans raising_replace_image_grows
                content (Some c)) as H1.
  destruct (re_sub_st Pat.image_embed (raising replace_image) content (Some c))
    as [content1 oc1].
  pose proof (re_sub_st_invariant run_grows Pat.image_std replace_image_std
                run_grows_refl run_grows_trans replace_image_std_grows content1 oc1) as H2.
  destruct (re_sub_st Pat.image_std replace_image_std content1 oc1) as [content2 [c2|]];
    [|discriminate].
  intros [= <- <-]. simpl in *.
  apply (run_grows_trans (Some c) oc1 (Some c2) H1 H2).
Qed.

Lemma convert_markdown_grows (content out : str) (c c' : LatexConverter) :
  convert_markdown_to_latex content c = Some (out, c') -> converter_grows c c'.
Proof.
  unfold convert_markdown_to_latex. cbv zeta.
  destruct (convert_images _ c) as [[content3 c3]|] eqn:E3; [|discriminate].
  apply convert_images_grows in E3.
  unfold convert_wikilinks, convert_headings.
  pose proof (re_sub_st_invariant converter_grows Pat.wikilink replace_link
                converter_grows_refl converter_grows_trans replace_link_grows content3 c3) as H4.
  destruct (re_sub_st Pat.wikilink replace_link content3 c3) as [content4 c4].
  pose proof (re_sub_st_invariant converter_grows (Pat.heading true) replace_heading
                converter_grows_refl converter_grows_trans replace_heading_grows content4 c4) as H5.
  destruct (re_sub_st (Pat.heading true) replace_heading content4 c4) as [content5 c5].
  intros [= <- <-]. simpl in *.
  eauto using converter_grows_trans.
Qed.

End Converter.
End ConverterFacts.
Import ConverterFacts.

(* ===================================================================== *)
(** ** Facts about text without markup *)
(* ===================================================================== *)

Module PlainFacts.

Lemma avoids_not_In (c : ascii) (cs s : str) : In c cs -> avoids cs s -> ~ In c s.
Proof.
  intros Hc Hav Hin. unfold avoids in Hav. rewrite Forall_forall in Hav.
  apply (Hav c); [apply list_elem_of_In|]; assumption.
Qed.

Lemma avoids_search (c : ascii) (cs : str) (r : regex) (s : str) :
  In c cs -> In c (lead r) -> avoids cs s -> re_search r s = None.
Proof.
  intros Hcs Hl Hav. apply re_search_no_lead.
  apply (avoids_no_occurrence c cs); assumption.
Qed.

Lemma contains_chr_In (c : ascii) (s : str) : contains_chr c s = true -> In c s.
Proof.
  unfold contains_chr. intros H. apply existsb_exists in H as (x & Hx & E).
  apply chr_eqb_eq in E. subst x. exact Hx.
Qed.

(** Lines that are no table lines pass through the table loop. *)
Lemma tables_loop_plain (lines : list str) :
  Forall (fun l => is_table_line l = false) lines ->
  forall result, tables_loop lines result false [] = result ++ lines.
Proof.
  induction 1 as [|l lines Hl Hls IH]; intros result; simpl.
  - rewrite app_nil_r. reflexivity.
  - rewrite Hl. rewrite IH. rewrite <- app_assoc. reflexivity.
Qed.

Lemma convert_tables_plain (s : str) : ~ In "|"%char s -> convert_tables s = s.
Proof.
  intros Hno. unfold convert_tables.
  rewrite tables_loop_plain; [apply join_split_lines|].
  apply Forall_forall. intros l Hin. apply list_elem_of_In in Hin.
  unfold is_table_line. destruct (contains_chr "|" l) eqn:E; [|reflexivity].
  exfalso. apply Hno. apply contains_chr_In in E.
  destruct (split_lines_part s l Hin) as (u & t & ->).
  apply in_or_app. right. apply in_or_app. left. exact E.
Qed.

(** Lines that are no list items pass through the list loop. *)
Lemma lists_loop_plain (lines : list str) :
  Forall (fun l => re_match Pat.unordered_item l = None
                   /\ re_match Pat.ordered_item l = None) lines ->
  forall result, lists_loop lines result false None = result ++ lines.
Proof.
  induction 1 as [|l lines [Hu Ho] Hls IH]; intros result; simpl.
  - rewrite app_nil_r. reflexivity.
  - rewrite Hu, Ho. rewrite IH. rewrite <- app_assoc. reflexivity.
Qed.

Lemma lstrip_blank_app (ws rest : str) :
  Forall (fun c => is_space c = true) ws -> lstrip (ws ++ rest) = lstrip rest.
Proof. induction 1 as [|c ws Hc _ IH]; simpl; [reflexivity|]. rewrite Hc. exact IH. Qed.

Lemma marker_not_space (c : ascii) : one_of (L "-*+") c = true -> is_space c = false.
Proof.
  unfold one_of. simpl. rewrite !orb_true_iff.
  intros [H|[H|[H|H]]]; try discriminate; apply chr_eqb_eq in H; subst c; reflexivity.
Qed.

Lemma digit_not_space (c : ascii) : is_digit c = true -> is_space c = false.
Proof.
  unfold is_digit, is_space, in_range. intros H.
  apply andb_true_iff in H as [H1 H2].
  apply Nat.leb_le in H1. apply Nat.leb_le in H2.
  repeat (apply orb_false_iff; split);
    try (apply andb_false_iff; right; apply Nat.leb_gt; lia);
    try (apply Nat.eqb_neq; lia).
Qed.

Lemma lang_unordered_start (w : str) : lang Pat.unordered_item w -> list_start w.
Proof.
  unfold Pat.unordered_item. cbn [cat lang].
  intros (w0 & w1 & -> & -> & ws & w2 & -> & (Hws & _) & w3 & w4 & -> & (c & -> & Hc) & _).
  unfold list_start. cbn [app]. rewrite lstrip_blank_app by exact Hws.
  cbn [app lstrip]. rewrite (marker_not_space c Hc). left. exact Hc.
Qed.

Lemma lang_ordered_start (w : str) : lang Pat.ordered_item w -> list_start w.
Proof.
  unfold Pat.ordered_item. cbn [cat lang].
  intros (w0 & w1 & -> & -> & ws & w2 & -> & (Hws & _) & ds & w4 & -> & (Hds & Hlen & _) & _).
  unfold list_start. cbn [app]. rewrite lstrip_blank_app by exact Hws.
  destruct ds as [|d ds]; [simpl in Hlen; lia|].
  apply Forall_cons in Hds as [Hd _].
  cbn [app lstrip]. rewrite (digit_not_space d Hd). right. exact Hd.
Qed.

Lemma list_start_match (r : regex) (l : str) :
  (forall w, lang r w -> list_start w) ->
  ~ list_start l -> re_match r l = None.
Proof.
  intros Hr Hno. unfold re_match.
  destruct (match_at r false None l) as [m|] eqn:E; [|reflexivity].
  exfalso. apply Hno. apply match_at_sound in E as [Hl Hw].
  apply Hr in Hw. rewrite Hl. unfold list_start in *.
  destruct (lstrip (m_text m)) as [|c x] eqn:Es; [contradiction|].
  (* the first character after the blank prefix is that of the match *)
  assert (Hx : lstrip (m_text m ++ m_rest m) = c :: x ++ m_rest m).
  { clear - Es. revert Es. induction (m_text m) as [|a t IH]; simpl; [discriminate|].
    destruct (is_space a); [exact IH|]. intros [= -> ->]. reflexivity. }
  rewrite Hx. exact Hw.
Qed.

Lemma convert_lists_plain (s : str) :
  Forall (fun l => ~ list_start l) (split_lines s) -> _convert_lists s = s.
Proof.
  intros H. unfold _convert_lists.
  rewrite lists_loop_plain; [apply join_split_lines|].
  eapply Forall_impl; [exact H|]. intros l Hl. split.
  - apply list_start_match; [apply lang_unordered_start|exact Hl].
  - apply list_start_match; [apply lang_ordered_start|exact Hl].
Qed.

Lemma heading_start_hash (s : str) : heading_start s -> In "#"%char s.
Proof.
  intros (n & c & x & -> & Hn & _). destruct n as [|n]; [lia|]. left. reflexivity.
Qed.

Lemma heading_search_plain (s : str) : ~ In "#"%char s -> re_search (Pat.heading true) s = None.
Proof.
  intros Hno. apply search_from_none. intros u t ->.
  apply no_heading_start_no_match. intros Hh. apply Hno.
  apply in_or_app. right. apply heading_start_hash, Hh.
Qed.

Section Plain.
Context {env : Environment}.

Lemma convert_footnotes_plain (s : str) : ~ In "^"%char s -> convert_footnotes s = s.
Proof.
  intros Hno.
  assert (Hav : avoids (L "^") s).
  { apply Forall_forall. intros c Hc Hin. apply list_elem_of_In in Hc.
    destruct Hin as [<-|[]]. contradiction. }
  unfold convert_footnotes.
  rewrite re_sub_none by (eapply (avoids_search "^"); [| |exact Hav]; vm_compute; tauto).
  rewrite re_sub_st_none by (eapply (avoids_search "^"); [| |exact Hav]; vm_compute; tauto).
  rewrite re_sub_none by (eapply (avoids_search "^"); [| |exact Hav]; vm_compute; tauto).
  reflexivity.
Qed.

Lemma convert_emphasis_plain (s : str) :
  ~ In "*"%char s -> ~ In "_"%char s -> convert_emphasis s = s.
Proof.
  intros H1 H2.
  assert (Hav : avoids (L "*_") s).
  { apply Forall_forall. intros c Hc Hin. apply list_elem_of_In in Hc.
    destruct Hin as [<-|[<-|[]]]; contradiction. }
  unfold convert_emphasis.
  rewrite (re_sub_none (Pat.emphasis "**"))
    by (eapply (avoids_search "*"); [| |exact Hav]; vm_compute; tauto).
  rewrite (re_sub_none (Pat.emphasis "*"))
    by (eapply (avoids_search "*"); [| |exact Hav]; vm_compute; tauto).
  rewrite (re_sub_none (Pat.emphasis "__"))
    by (eapply (avoids_search "_"); [| |exact Hav]; vm_compute; tauto).
  rewrite (re_sub_none (Pat.emphasis "_"))
    by (eapply (avoids_search "_"); [| |exact Hav]; vm_compute; tauto).
  reflexivity.
Qed.

Lemma convert_code_plain (s : str) :
  ~ In "`"%char s -> _convert_code_blocks (convert_code_spans s) = s.
Proof.
  intros Hno.
  assert (Hav : avoids (L "`") s).
  { apply Forall_forall. intros c Hc Hin. apply list_elem_of_In in Hc.
    destruct Hin as [<-|[]]. contradiction. }
  unfold _convert_code_blocks, convert_code_spans.
  rewrite (re_sub_none Pat.code_span)
    by (eapply (avoids_search "`"); [| |exact Hav]; vm_compute; tauto).
  rewrite (re_sub_none Pat.code_fence)
    by (eapply (avoids_search "`"); [| |exact Hav]; vm_compute; tauto).
  reflexivity.
Qed.

Lemma translate_plain (s : str) (c : LatexConverter) :
  avoids (L "!#*[^_`|") s ->
  Forall (fun l => ~ list_start l) (split_lines s) ->
  convert_markdown_to_latex s c = Some (s, c).
Proof.
  intros Hav Hls.
  assert (Hno : forall ch, In ch (L "!#*[^_`|") -> ~ In ch s).
  { intros ch Hch. eapply avoids_not_In; eassumption. }
  rewrite translate_stateless.
  - rewrite convert_footnotes_plain by (apply Hno; vm_compute; tauto).
    rewrite convert_tables_plain by (apply Hno; vm_compute; tauto).
    rewrite convert_lists_plain by exact Hls.
    rewrite convert_emphasis_plain by (apply Hno; vm_compute; tauto).
    rewrite convert_code_plain by (apply Hno; vm_compute; tauto).
    reflexivity.
  - rewrite convert_footnotes_plain by (apply Hno; vm_compute; tauto).
    rewrite convert_tables_plain by (apply Hno; vm_compute; tauto).
    cbv zeta. split; [|split; [|split]].
    + eapply (avoids_search "!"); [| |exact Hav]; vm_compute; tauto.
    + eapply (avoids_search "!"); [| |exact Hav]; vm_compute; tauto.
    + eapply (avoids_search "["); [| |exact Hav]; vm_compute; tauto.
    + apply heading_search_plain. apply Hno. vm_compute. tauto.
Qed.

End Plain.
End PlainFacts.
Import PlainFacts.

(* ===================================================================== *)
(** ** Facts about lazy spans and leading literals *)
(* ===================================================================== *)

Module LazyFacts.

(** A lazy class stops at the first run after which the rest of the pattern
    succeeds. *)
Lemma many_lazy_first {R} (p : ascii -> bool) (w s : str) :
  forall lo prev (k : option ascii -> str -> option R) r,
  Forall (fun c => p c = true) w ->
  lo <= length w ->
  k (after prev w) s = Some r ->
  (forall u v, w = u ++ v -> v <> [] -> lo <= length u ->
               k (after prev u) (v ++ s) = None) ->
  many_lazy p lo None prev (w ++ s) k = Some r.
Proof.
  induction w as [|c w IH]; intros lo prev k r Hp Hlo Hk Hfail.
  - simpl in Hlo. assert (lo = 0) by lia. subst lo.
    simpl in Hk. destruct s; simpl; rewrite Hk; reflexivity.
  - apply Forall_cons in Hp as [Hc Hw].
    assert (Hmore : many_lazy p (pred lo) None (Some c) (w ++ s) k = Some r).
    { apply IH.
      - exact Hw.
      - simpl in Hlo. lia.
      - exact Hk.
      - intros u v -> Hv Hu. apply (Hfail (c :: u) v); [reflexivity|exact Hv|].
        simpl. lia. }
    cbn [app many_lazy]. rewrite Hc. cbn [andb can_take dec_hi option_map].
    destruct lo as [|lo]; [|exact Hmore].
    pose proof (Hfail [] (c :: w) eq_refl) as H0. simpl in H0.
    rewrite H0 by (discriminate || lia). exact Hmore.
Qed.

(** Where a match starts, the leading literal of the pattern starts. *)
Lemma match_at_lead (r : regex) (mb : bool) (prev : option ascii) (s : str) (m : Match) :
  match_at r mb prev s = Some m -> exists x, s = lead r ++ x.
Proof.
  intros Hm. apply match_at_sound in Hm as [-> Hw].
  destruct (lead_sound r _ Hw) as (x & ->). exists (x ++ m_rest m).
  rewrite <- app_assoc. reflexivity.
Qed.

Lemma match_at_other_head (r : regex) (mb : bool) (prev : option ascii)
    (a c : ascii) (l s : str) :
  lead r = a :: l -> c <> a -> match_at r mb prev (c :: s) = None.
Proof.
  intros Hl Hc. destruct (match_at r mb prev (c :: s)) as [m|] eqn:E; [|reflexivity].
  apply match_at_lead in E as (x & E). rewrite Hl in E. injection E as E _. contradiction.
Qed.

Lemma match_at_lead_end (r : regex) (mb : bool) (prev : option ascii) (a : ascii) (l : str) :
  lead r = a :: l -> match_at r mb prev [] = None.
Proof.
  intros Hl. destruct (match_at r mb prev []) as [m|] eqn:E; [|reflexivity].
  apply match_at_lead in E as (x & E). rewrite Hl in E. discriminate.
Qed.

Section Pass.
Context {S : Type} (r : regex) (f : Match -> S -> str * S).

(** A substitution copies a text in which the first character of the
    leading literal does not occur. *)
Lemma sub_scan_pass (a : ascii) (l x : str) :
  lead r = a :: l -> ~ In a x ->
  forall prev rest st,
  sub_scan r f prev (x ++ rest) 0 st =
  let '(out, st') := sub_scan r f (after prev x) rest 0 st in (x ++ out, st').
Proof.
  intros Hl. induction x as [|c x IH]; intros Hno prev rest st.
  - simpl. destruct (sub_scan r f prev rest 0 st). reflexivity.
  - cbn [app]. rewrite sub_scan_miss.
    + rewrite IH by (intros H; apply Hno; right; exact H).
      rewrite after_cons. destruct (sub_scan r f (after (Some c) x) rest 0 st). reflexivity.
    + eapply match_at_other_head; [exact Hl|]. intros ->. apply Hno. left. reflexivity.
Qed.

Lemma sub_scan_pass_all (a : ascii) (l x : str) :
  lead r = a :: l -> ~ In a x ->
  forall prev st, sub_scan r f prev x 0 st = (x, st).
Proof.
  intros Hl Hno prev st. rewrite <- (app_nil_r x) at 1.
  rewrite (sub_scan_pass a l x Hl Hno).
  rewrite sub_scan_end by (eapply match_at_lead_end; exact Hl).
  rewrite app_nil_r. reflexivity.
Qed.

End Pass.

(** A span between two copies of a marker whose first character occurs
    neither in the span nor around it. *)
Lemma emphasis_match (marker : string) (a : ascii) (l y rest : str) (prev : option ascii) :
  L marker = a :: l ->
  y <> [] -> one_line y -> ~ In a y ->
  match_at (Pat.emphasis marker) false prev (L marker ++ y ++ L marker ++ rest)
  = Some {| m_text := L marker ++ y ++ L marker; m_caps := [(1, y)]; m_rest := rest |}.
Proof.
  intros Hm Hne Hol Hno. unfold match_at, Pat.emphasis. cbn [cat rmatch].
  rewrite lit_match_app by apply chr_eqb_refl.
  erewrite many_lazy_first; cycle 1.
  - apply one_line_dot, Hol.
  - apply nonempty_length, Hne.
  - cbn beta. rewrite lit_match_app by apply chr_eqb_refl. reflexivity.
  - intros u v -> Hv _. cbn beta.
    destruct v as [|c v]; [congruence|].
    rewrite Hm. cbn [app lit_match].
    destruct (chr_eqb c a) eqn:E; [|reflexivity].
    apply chr_eqb_eq in E. subst c. exfalso. apply Hno.
    apply in_or_app. right. left. reflexivity.
  - f_equal. f_equal.
    + replace (L marker ++ y ++ L marker ++ rest) with ((L marker ++ y ++ L marker) ++ rest)
        by (rewrite <- !app_assoc; reflexivity).
      apply take_app_minus.
    + rewrite take_app_minus. reflexivity.
Qed.

Lemma emphasis_lead (marker : string) : lead (Pat.emphasis marker) = L marker.
Proof. reflexivity. Qed.

(** One emphasis pass over a text with one marked span. *)
Lemma emphasis_pass (marker cmd : string) (a : ascii) (l x y z : str) :
  L marker = a :: l ->
  ~ In a x -> y <> [] -> one_line y -> ~ In a y -> ~ In a z ->
  re_sub (Pat.emphasis marker) (wrap_group cmd) (x ++ L marker ++ y ++ L marker ++ z)
  = x ++ tex cmd ++ L "{" ++ y ++ L "}" ++ z.
Proof.
  intros Hm Hx Hne Hol Hy Hz. unfold re_sub, re_sub_st.
  rewrite (sub_scan_pass _ _ a l x) by (rewrite ?emphasis_lead; assumption).
  replace (L marker ++ y ++ L marker ++ z) with ((L marker ++ y ++ L marker) ++ z)
    by (rewrite <- !app_assoc; reflexivity).
  erewrite sub_scan_hit; cycle 1.
  - rewrite <- !app_assoc. apply (emphasis_match marker a l); assumption.
  - reflexivity.
  - rewrite Hm. discriminate.
  - rewrite (sub_scan_pass_all _ _ a l z) by (rewrite ?emphasis_lead; assumption).
    cbn [fst]. unfold wrap_group, group_str, group. cbn [m_caps cap_lookup Nat.eqb default].
    unfold id. rewrite <- !app_assoc. reflexivity.
Qed.

Lemma emphasis_pass_none (marker cmd : string) (a : ascii) (l s : str) :
  L marker = a :: l -> ~ In a s ->
  re_sub (Pat.emphasis marker) (wrap_group cmd) s = s.
Proof.
  intros Hm Hno. unfold re_sub, re_sub_st.
  rewrite (sub_scan_pass_all _ _ a l s) by (rewrite ?emphasis_lead; assumption).
  reflexivity.
Qed.

End LazyFacts.
Import LazyFacts.

(* ===================================================================== *)
(** ** Facts about the emphasis passes *)
(* ===================================================================== *)

Module EmphasisFacts.

Lemma notin_app (a : ascii) (x y : str) : ~ In a x -> ~ In a y -> ~ In a (x ++ y).
Proof. intros Hx Hy H. apply in_app_or in H as [H|H]; contradiction. Qed.

Lemma notin_lit (a : ascii) (l : str) :
  forallb (fun c => negb (chr_eqb a c)) l = true -> ~ In a l.
Proof.
  intros H Hin. rewrite forallb_forall in H. specialize (H a Hin).
  rewrite chr_eqb_refl in H. discriminate.
Qed.

(** A character that stands alone twice in a text does not stand doubled. *)
Lemma no_double_tail (a : ascii) (y z : str) :
  ~ In a y -> ~ In a z -> forall u t, y ++ a :: z <> u ++ a :: a :: t.
Proof.
  intros Hy Hz. induction y as [|c y IH]; intros u t E.
  - destruct u as [|b u]; simpl in E.
    + injection E as ->. apply Hz. left. reflexivity.
    + injection E as _ ->. apply Hz. apply in_or_app. right. left. reflexivity.
  - destruct u as [|b u]; simpl in E.
    + injection E as -> _. apply Hy. left. reflexivity.
    + injection E as _ E. apply (IH (fun H => Hy (or_intror H)) u t E).
Qed.

Lemma no_double (a : ascii) (x y z : str) :
  ~ In a x -> y <> [] -> ~ In a y -> ~ In a z ->
  ~ occurs [a; a] (x ++ [a] ++ y ++ [a] ++ z).
Proof.
  intros Hx Hne Hy Hz (u & t & E). revert u E.
  induction x as [|c x IH]; intros u E.
  - destruct u as [|b u]; simpl in E.
    + injection E as E. destruct y as [|c y]; [congruence|].
      injection E as -> _. apply Hy. left. reflexivity.
    + injection E as _ E. exact (no_double_tail a y z Hy Hz u t E).
  - destruct u as [|b u]; simpl in E.
    + injection E as -> _. apply Hx. left. reflexivity.
    + injection E as _ E. apply (IH (fun H => Hx (or_intror H)) u E).
Qed.

Lemma avoids_pair (a b : ascii) (s : str) :
  avoids [a; b] s -> ~ In a s /\ ~ In b s.
Proof.
  intros H. split; eapply avoids_not_In; try exact H; simpl; tauto.
Qed.

Ltac notin :=
  repeat (apply notin_app); try assumption; try (apply notin_lit; reflexivity).

Lemma emphasis_spans (x y z : str) :
  avoids (L "*_") x -> avoids (L "*_") y -> avoids (L "*_") z ->
  y <> [] -> one_line y ->
  convert_emphasis (x ++ L "**" ++ y ++ L "**" ++ z) = x ++ tex "textbf{" ++ y ++ L "}" ++ z
  /\ convert_emphasis (x ++ L "*" ++ y ++ L "*" ++ z) = x ++ tex "textit{" ++ y ++ L "}" ++ z
  /\ convert_emphasis (x ++ L "__" ++ y ++ L "__" ++ z) = x ++ tex "textbf{" ++ y ++ L "}" ++ z
  /\ convert_emphasis (x ++ L "_" ++ y ++ L "_" ++ z) = x ++ tex "textit{" ++ y ++ L "}" ++ z.
Proof.
  intros Hx Hy Hz Hne Hol.
  apply avoids_pair in Hx as [Hx1 Hx2].
  apply avoids_pair in Hy as [Hy1 Hy2].
  apply avoids_pair in Hz as [Hz1 Hz2].
  unfold convert_emphasis. split; [|split; [|split]].
  - rewrite (emphasis_pass "**" "textbf" "*" (L "*")) by (reflexivity || assumption).
    change (tex "textbf" ++ L "{" ++ y ++ L "}" ++ z) with (tex "textbf{" ++ y ++ L "}" ++ z).
    rewrite (emphasis_pass_none "*" "textit" "*" []) by (reflexivity || notin).
    rewrite (emphasis_pass_none "__" "textbf" "_" (L "_")) by (reflexivity || notin).
    rewrite (emphasis_pass_none "_" "textit" "_" []) by (reflexivity || notin).
    reflexivity.
  - rewrite (re_sub_none (Pat.emphasis "**")).
    + rewrite (emphasis_pass "*" "textit" "*" []) by (reflexivity || assumption).
      change (tex "textit" ++ L "{" ++ y ++ L "}" ++ z) with (tex "textit{" ++ y ++ L "}" ++ z).
      rewrite (emphasis_pass_none "__" "textbf" "_" (L "_")) by (reflexivity || notin).
      rewrite (emphasis_pass_none "_" "textit" "_" []) by (reflexivity || notin).
      reflexivity.
    + apply re_search_no_lead. apply (no_double "*"); assumption.
  - rewrite (emphasis_pass_none "**" "textbf" "*" (L "*")) by (reflexivity || notin).
    rewrite (emphasis_pass_none "*" "textit" "*" []) by (reflexivity || notin).
    rewrite (emphasis_pass "__" "textbf" "_" (L "_")) by (reflexivity || assumption).
    change (tex "textbf" ++ L "{" ++ y ++ L "}" ++ z) with (tex "textbf{" ++ y ++ L "}" ++ z).
    rewrite (emphasis_pass_none "_" "textit" "_" []) by (reflexivity || notin).
    reflexivity.
  - rewrite (emphasis_pass_none "**" "textbf" "*" (L "*")) by (reflexivity || notin).
    rewrite (emphasis_pass_none "*" "textit" "*" []) by (reflexivity || notin).
    rewrite (re_sub_none (Pat.emphasis "__")).
    + rewrite (emphasis_pass "_" "textit" "_" []) by (reflexivity || assumption).
      reflexivity.
    + apply re_search_no_lead. apply (no_double "_"); assumption.
Qed.

End EmphasisFacts.
Import EmphasisFacts.

(* ===================================================================== *)
(** ** Facts about heading labels *)
(* ===================================================================== *)

Module LabelFacts.

Ltac each_ascii c :=
  destruct c as [[] [] [] [] [] [] [] []].

Lemma word_chr_plain (c : ascii) :
  is_word c = true -> c <> "_"%char ->
  is_space c = false /\ none_of (markup_chars ++ L " ") c = true.
Proof. each_ascii c; vm_compute; intros H1 H2; try discriminate; try (split; reflexivity); congruence. Qed.

Lemma word_chr_lower (c : ascii) :
  is_word c = true -> c <> "_"%char ->
  is_word (lower_chr c) = true /\ lower_chr c <> "_"%char.
Proof.
  each_ascii c; vm_compute; intros H1 H2; try discriminate;
    try (split; [reflexivity|discriminate]); congruence.
Qed.

Lemma lower_chr_idem (c : ascii) : lower_chr (lower_chr c) = lower_chr c.
Proof. each_ascii c; vm_compute; reflexivity. Qed.


Lemma lower_word (w : str) : word w -> word (lower w).
Proof.
  intros [Hne Hw]. split; [destruct w; [congruence|discriminate]|].
  unfold lower. apply Forall_map. eapply Forall_impl; [exact Hw|].
  intros c [H1 H2]. apply word_chr_lower; assumption.
Qed.

Lemma word_avoids (w : str) : word w -> avoids (markup_chars ++ L " ") w.
Proof.
  intros [_ Hw]. eapply Forall_impl; [exact Hw|].
  intros c [H1 H2]. apply none_of_true. apply word_chr_plain; assumption.
Qed.

Lemma avoids_lit (cs l : str) : forallb (none_of cs) l = true -> avoids cs l.
Proof.
  intros H. apply Forall_forall. intros c Hc. apply list_elem_of_In in Hc.
  rewrite forallb_forall in H. apply none_of_true. apply H. exact Hc.
Qed.

Lemma avoids_app (cs a b : str) : avoids cs a -> avoids cs b -> avoids cs (a ++ b).
Proof. intros Ha Hb. apply Forall_app. split; assumption. Qed.

Lemma avoids_one_line (cs s : str) : In nl cs -> avoids cs s -> one_line s.
Proof.
  intros Hin Hav. eapply Forall_impl; [exact Hav|]. intros c Hc ->. contradiction.
Qed.

Lemma replace_chr_absent (old : ascii) (new s : str) :
  ~ In old s -> replace_chr old new s = s.
Proof.
  induction s as [|c s IH]; intros Hno; [reflexivity|].
  unfold replace_chr in *. cbn [flat_map].
  destruct (chr_eqb c old) eqn:E.
  - apply chr_eqb_eq in E. subst c. exfalso. apply Hno. left. reflexivity.
  - rewrite IH by (intros H; apply Hno; right; exact H). reflexivity.
Qed.

Lemma replace_chr_app (old : ascii) (new a b : str) :
  replace_chr old new (a ++ b) = replace_chr old new a ++ replace_chr old new b.
Proof. unfold replace_chr. apply flat_map_app. Qed.

Lemma lower_app (a b : str) : lower (a ++ b) = lower a ++ lower b.
Proof. unfold lower. apply map_app. Qed.

(** The label of a title of three words. *)
Lemma heading_label_words (a b d : str) :
  word a -> word b -> word d ->
  heading_label (a ++ L " " ++ b ++ L " " ++ d)
  = L "sec:" ++ lower a ++ L "_" ++ lower b ++ L "_" ++ lower d.
Proof.
  intros Ha Hb Hd. unfold heading_label.
  rewrite !lower_app, !replace_chr_app.
  assert (Hw : forall w, word w -> replace_chr " " (L "_") (lower w) = lower w).
  { intros w Hw. apply replace_chr_absent.
    eapply avoids_not_In; [|apply word_avoids, lower_word, Hw]. vm_compute. tauto. }
  rewrite (Hw a), (Hw b), (Hw d) by assumption. reflexivity.
Qed.

Lemma heading_cmd_clean (n : nat) (cmd : str) :
  heading_map n = Some cmd -> 1 <= n <= 6 /\ avoids (markup_chars ++ L " ") cmd.
Proof.
  destruct n as [|[|[|[|[|[|[|n]]]]]]]; try discriminate; intros [= <-];
    (split; [lia|apply avoids_lit; reflexivity]).
Qed.

Section Labels.
Context {env : Environment}.

Lemma convert_images_none (s : str) (c : LatexConverter) :
  ~ In "!"%char s -> convert_images s c = Some (s, c).
Proof.
  intros Hno.
  assert (Hav : avoids (L "!") s).
  { apply Forall_forall. intros ch Hc Hin. apply list_elem_of_In in Hc.
    destruct Hin as [<-|[]]. contradiction. }
  unfold convert_images.
  rewrite (re_sub_st_none Pat.image_embed)
    by (eapply (avoids_search "!"); [| |exact Hav]; vm_compute; tauto).
  rewrite (re_sub_st_none Pat.image_std)
    by (eapply (avoids_search "!"); [| |exact Hav]; vm_compute; tauto).
  reflexivity.
Qed.

Lemma convert_wikilinks_none (s : str) (c : LatexConverter) :
  ~ In "["%char s -> convert_wikilinks s c = (s, c).
Proof.
  intros Hno.
  assert (Hav : avoids (L "[") s).
  { apply Forall_forall. intros ch Hc Hin. apply list_elem_of_In in Hc.
    destruct Hin as [<-|[]]. contradiction. }
  unfold convert_wikilinks.
  apply re_sub_st_none. eapply (avoids_search "["); [| |exact Hav]; vm_compute; tauto.
Qed.

Lemma heading_line_translation (c : LatexConverter) (n : nat) (cmd a b d : str) :
  heading_map n = Some cmd ->
  word a -> word b -> word d ->
  convert_markdown_to_latex (times "#" n ++ L " " ++ a ++ L " " ++ b ++ L " " ++ d) c
  = Some (backslash :: cmd ++ L "{" ++ a ++ L " " ++ b ++ L " " ++ d ++ L "}"
            ++ tex "label{sec:" ++ lower a ++ tex "textit{" ++ lower b ++ L "}"
            ++ lower d ++ L "}",
          c_incr_label_counter c).
Proof.
  intros Hcmd Ha Hb Hd.
  destruct (heading_cmd_clean n cmd Hcmd) as [Hn Hc].
  set (title := a ++ L " " ++ b ++ L " " ++ d).
  pose proof (word_avoids a Ha) as Haa. pose proof (word_avoids b Hb) as Hab.
  pose proof (word_avoids d Hd) as Had.
  pose proof (word_avoids _ (lower_word a Ha)) as Hla.
  pose proof (word_avoids _ (lower_word b Hb)) as Hlb.
  pose proof (word_avoids _ (lower_word d Hd)) as Hld.
  assert (Hsub : forall ch, In ch markup_chars -> In ch (markup_chars ++ L " ")).
  { intros ch H. apply in_or_app. left. exact H. }
  assert (Htitle : avoids markup_chars title).
  { unfold title. repeat apply avoids_app;
      try (apply avoids_lit; reflexivity);
      eapply avoids_weaken; try exact Hsub; assumption. }
  assert (Hol : one_line title).
  { eapply avoids_one_line; [|exact Htitle]. vm_compute. tauto. }
  assert (Htt : title_text title).
  { clear - Ha Hol. unfold title in *. destruct Ha as [Hne Hw].
    destruct a as [|a0 a]; [congruence|].
    apply Forall_cons in Hw as [[H1 H2] _]. split; [|exact Hol].
    apply word_chr_plain; assumption. }
  set (s0 := times "#" n ++ L " " ++ title).
  assert (Hs0 : avoids (L "!*[^_`|" ++ NL) s0).
  { unfold s0. apply avoids_app; [|apply avoids_app].
    - apply Forall_forall. intros ch Hch. apply list_elem_of_In in Hch.
      apply repeat_spec in Hch. subst ch. vm_compute. intuition discriminate.
    - apply avoids_lit. reflexivity.
    - eapply avoids_weaken; [|exact Htitle]. vm_compute. tauto. }
  assert (Hno0 : forall ch, In ch (L "!*[^_`|" ++ NL) -> ~ In ch s0).
  { intros ch Hch. eapply avoids_not_In; eassumption. }
  unfold convert_markdown_to_latex.
  rewrite convert_footnotes_plain by (apply Hno0; vm_compute; tauto).
  rewrite convert_tables_plain by (apply Hno0; vm_compute; tauto).
  rewrite convert_images_none by (apply Hno0; vm_compute; tauto).
  rewrite convert_wikilinks_none by (apply Hno0; vm_compute; tauto).
  unfold s0.
  rewrite (convert_headings_line n (L " ") title c Hn)
    by (exact Htt || (split; [discriminate|repeat constructor; discriminate])).
  rewrite Hcmd. cbn [default from_option]. unfold id.
  unfold title at 2. rewrite heading_label_words by assumption. fold title.
  set (x := backslash :: cmd ++ L "{" ++ title ++ L "}" ++ tex "label{" ++ L "sec:" ++ lower a).
  set (z := lower d ++ L "}").
  set (h := backslash :: cmd ++ L "{" ++ title ++ L "}" ++ tex "label{"
              ++ (L "sec:" ++ lower a ++ L "_" ++ lower b ++ L "_" ++ lower d) ++ L "}").
  assert (Hh : h = x ++ L "_" ++ lower b ++ L "_" ++ z).
  { unfold h, x, z. cbn [app]. f_equal. rewrite <- !app_assoc. reflexivity. }
  assert (Hx : avoids (L "!#*[^_`|" ++ NL) x).
  { unfold x. change (backslash :: cmd ++ ?r) with (([backslash] ++ cmd) ++ r).
    repeat apply avoids_app;
      try (apply avoids_lit; reflexivity);
      try exact Htitle;
      eapply avoids_weaken; try exact Hsub; assumption. }
  assert (Hz : avoids (L "!#*[^_`|" ++ NL) z).
  { unfold z. apply avoids_app; [|apply avoids_lit; reflexivity].
    eapply avoids_weaken; try exact Hsub; assumption. }
  assert (Hy : avoids (L "!#*[^_`|" ++ NL) (lower b)).
  { eapply avoids_weaken; try exact Hsub; assumption. }
  assert (Hhh : avoids (L "!#*[^`|" ++ NL) h).
  { rewrite Hh. repeat apply avoids_app; try (apply avoids_lit; reflexivity);
      (eapply avoids_weaken; [|eassumption]); vm_compute; tauto. }
  assert (Hlist : _convert_lists h = h).
  { apply convert_lists_plain. rewrite split_lines_one_line.
    - constructor; [|constructor]. unfold list_start, h. cbn [lstrip].
      change (is_space backslash) with false. cbn iota.
      vm_compute. intuition discriminate.
    - eapply avoids_one_line; [|exact Hhh]. vm_compute. tauto. }
  rewrite Hlist.
  assert (Hemph : convert_emphasis h
                  = x ++ tex "textit{" ++ lower b ++ L "}" ++ z).
  { rewrite Hh. apply emphasis_spans.
    - eapply avoids_weaken; [|exact Hx]. vm_compute. tauto.
    - eapply avoids_weaken; [|exact Hy]. vm_compute. tauto.
    - eapply avoids_weaken; [|exact Hz]. vm_compute. tauto.
    - destruct (lower_word b Hb) as [H _]. exact H.
    - eapply avoids_one_line; [|exact Hy]. vm_compute. tauto. }
  rewrite Hemph.
  rewrite convert_code_plain.
  - apply f_equal. apply (f_equal (fun t => (t, c_incr_label_counter c))).
    unfold x, z, title. cbn [app]. f_equal. rewrite <- !app_assoc. reflexivity.
  - apply notin_app; [|apply notin_app; [|apply notin_app; [|apply notin_app]]].
    + eapply avoids_not_In; [|exact Hx]. vm_compute. tauto.
    + apply notin_lit. reflexivity.
    + eapply avoids_not_In; [|exact Hy]. vm_compute. tauto.
    + apply notin_lit. reflexivity.
    + eapply avoids_not_In; [|exact Hz]. vm_compute. tauto.
Qed.

End Labels.
End LabelFacts.
Import LabelFacts.

(* ===================================================================== *)
(** ** Facts about link targets *)
(* ===================================================================== *)

Module TargetFacts.

(** Every character of a heading label is in lower case. *)
Lemma heading_label_lower (title : str) :
  Forall (fun c => lower_chr c = c) (heading_label title).
Proof.
  unfold heading_label. apply Forall_app. split; [repeat constructor|].
  unfold replace_chr, lower. induction title as [|c t IH]; [constructor|].
  cbn [map flat_map]. apply Forall_app. split; [|exact IH].
  destruct (chr_eqb (lower_chr c) " "); repeat constructor. apply lower_chr_idem.
Qed.

Lemma lower_changes (s : str) : lower s <> s -> exists c, In c s /\ lower_chr c <> c.
Proof.
  induction s as [|a s IH]; intros H; [exfalso; apply H; reflexivity|].
  destruct (ascii_dec (lower_chr a) a) as [E|E].
  - destruct IH as (c & Hc & Hl).
    + intros Hs. apply H. simpl. rewrite E. f_equal. exact Hs.
    + exists c. split; [right; exact Hc|exact Hl].
  - exists a. split; [left; reflexivity|exact E].
Qed.

Lemma replace_chr_keeps (old : ascii) (new s : str) (c : ascii) :
  In c s -> c <> old -> In c (replace_chr old new s).
Proof.
  intros Hin Hc. unfold replace_chr. apply in_flat_map. exists c. split; [exact Hin|].
  apply chr_eqb_neq in Hc. rewrite Hc. left. reflexivity.
Qed.

Lemma link_target_no_heading (name title : str) :
  lower name <> name ->
  heading_label title <> L "sec:" ++ replace_chr " " (L "_") name.
Proof.
  intros Hl E. destruct (lower_changes name Hl) as (c & Hc & Hlc).
  pose proof (heading_label_lower title) as Hall. rewrite E in Hall.
  rewrite Forall_forall in Hall. apply Hlc, Hall. apply list_elem_of_In.
  apply in_or_app. right. apply replace_chr_keeps; [exact Hc|].
  intros ->. apply Hlc. reflexivity.
Qed.

End TargetFacts.
Import TargetFacts.

(* ===================================================================== *)
(** ** Facts about fenced code *)
(* ===================================================================== *)

Module FenceFacts.

Lemma fence_match (prev : option ascii) (tag code rest : str) :
  Forall (fun c => is_word c = true) tag ->
  ~ In "`"%char code ->
  match_at Pat.code_fence false prev (L "```" ++ tag ++ NL ++ code ++ L "```" ++ rest)
  = Some {| m_text := L "```" ++ tag ++ NL ++ code ++ L "```";
            m_caps := [(2, code); (1, tag)];
            m_rest := rest |}.
Proof.
  intros Htag Hno. unfold match_at, Pat.code_fence. cbn [cat rmatch].
  rewrite lit_match_app by apply chr_eqb_refl.
  erewrite many_greedy_run; cycle 1.
  - exact Htag.
  - reflexivity.
  - lia.
  - exact I.
  - cbn beta. rewrite lit_match_app by apply chr_eqb_refl.
    erewrite many_lazy_first; cycle 1.
    + apply Forall_forall. intros; reflexivity.
    + lia.
    + cbn beta. rewrite lit_match_app by apply chr_eqb_refl. reflexivity.
    + intros u v -> Hv _. cbn beta.
      destruct v as [|c v]; [congruence|]. cbn [app L list_ascii_of_string lit_match].
      destruct (chr_eqb c "`") eqn:E; [|reflexivity].
      apply chr_eqb_eq in E. subst c. exfalso. apply Hno.
      apply in_or_app. right. left. reflexivity.
    + reflexivity.
  - f_equal. f_equal.
    + replace (L "```" ++ tag ++ NL ++ code ++ L "```" ++ rest)
        with ((L "```" ++ tag ++ NL ++ code ++ L "```") ++ rest)
        by (rewrite <- !app_assoc; reflexivity).
      apply take_app_minus.
    + rewrite !take_app_minus. reflexivity.
Qed.

End FenceFacts.
Import FenceFacts.

(* ===================================================================== *)
(** ** Facts about table and list blocks *)
(* ===================================================================== *)

Module BlockFacts.

Lemma tables_loop_before (plain rest : list str) :
  Forall (fun l => is_table_line l = false) plain ->
  forall result,
  tables_loop (plain ++ rest) result false [] = tables_loop rest (result ++ plain) false [].
Proof.
  induction 1 as [|l plain Hl _ IH]; intros result; simpl.
  - rewrite app_nil_r. reflexivity.
  - rewrite Hl. rewrite IH. rewrite <- app_assoc. reflexivity.
Qed.

Lemma tables_loop_run (block : list str) (below : list str) :
  Forall (fun l => is_table_line l = true) block ->
  Forall (fun l => is_table_line l = false) below ->
  forall result table_lines,
  tables_loop (block ++ below) result true table_lines
  = result ++ _convert_table (table_lines ++ block) :: below.
Proof.
  induction 1 as [|l block Hl _ IH]; intros Hb result table_lines.
  - rewrite app_nil_r. destruct below as [|b below]; [reflexivity|].
    apply Forall_cons in Hb as [Hb1 Hb2]. simpl. rewrite Hb1.
    rewrite tables_loop_plain by exact Hb2.
    rewrite <- !app_assoc. reflexivity.
  - simpl. rewrite Hl. rewrite IH by exact Hb. rewrite <- app_assoc. reflexivity.
Qed.

Lemma convert_tables_around (above block below : list str) :
  block <> [] ->
  Forall (fun l => is_table_line l = true /\ one_line l) block ->
  Forall (fun l => is_table_line l = false /\ one_line l) (above ++ below) ->
  convert_tables (join_lines (above ++ block ++ below))
  = join_lines (above ++ _convert_table block :: below).
Proof.
  intros Hne Hblock Hrest. apply Forall_app in Hrest as [Ha Hb].
  unfold convert_tables. rewrite split_join_lines.
  - rewrite tables_loop_before by (eapply Forall_impl; [exact Ha|]; intros l [H _]; exact H).
    destruct block as [|l block]; [congruence|].
    apply Forall_cons in Hblock as [[Hl1 Hl2] Hblock].
    cbn [app tables_loop]. rewrite Hl1.
    rewrite tables_loop_run.
    + reflexivity.
    + eapply Forall_impl; [exact Hblock|]. intros x [H _]. exact H.
    + eapply Forall_impl; [exact Hb|]. intros x [H _]. exact H.
  - destruct above; [destruct block; [congruence|discriminate]|discriminate].
  - apply Forall_app. split; [eapply Forall_impl; [exact Ha|]; intros l [_ H]; exact H|].
    apply Forall_app. split; eapply Forall_impl; try eassumption; intros l [_ H]; exact H.
Qed.

Lemma bullet_one_line (line text : str) : bullet line text -> one_line line.
Proof.
  intros (indent & marker & ws & -> & Hi & Hm & [_ Hws] & Ht).
  apply Forall_app. split; [eapply Forall_impl; [exact Hi|]; intros c [_ H]; exact H|].
  constructor.
  - intros ->. discriminate.
  - apply Forall_app. split; [eapply Forall_impl; [exact Hws|]; intros c [_ H]; exact H|].
    destruct text; [contradiction|]. apply Ht.
Qed.

Lemma unordered_match (indent : str) (marker : ascii) (ws text rest : str) :
  Forall (fun c => is_space c = true) indent ->
  one_of (L "-*+") marker = true ->
  ws <> [] -> Forall (fun c => is_space c = true) ws ->
  title_text text ->
  at_eol false rest = true ->
  match_at Pat.unordered_item false None (indent ++ marker :: ws ++ text ++ rest)
  = Some {| m_text := indent ++ marker :: ws ++ text;
            m_caps := [(2, text); (1, indent)];
            m_rest := rest |}.
Proof.
  intros Hi Hm Hne Hsp Ht Heol.
  assert (Hol : one_line text) by (destruct text; [contradiction|apply Ht]).
  assert (Hst : stops is_space (text ++ rest))
    by (destruct text; [contradiction|apply Ht]).
  assert (Hlen : 1 <= length text) by (destruct text; [contradiction|simpl; lia]).
  unfold match_at, Pat.unordered_item. cbn [cat rmatch at_bol].
  eapply many_greedy_run.
  { exact Hi. }
  { simpl. apply marker_not_space, Hm. }
  { lia. }
  { exact I. }
  cbn beta. rewrite Hm.
  eapply many_greedy_run.
  { exact Hsp. }
  { exact Hst. }
  { apply nonempty_length, Hne. }
  { exact I. }
  cbn beta.
  eapply many_greedy_run.
  { apply one_line_dot, Hol. }
  { eapply at_eol_stops, Heol. }
  { exact Hlen. }
  { exact I. }
  cbn beta. rewrite Heol. f_equal. f_equal.
  - replace (indent ++ marker :: ws ++ text ++ rest)
      with ((indent ++ marker :: ws ++ text) ++ rest)
      by (rewrite <- !app_assoc; cbn [app]; rewrite <- !app_assoc; reflexivity).
    apply take_app_minus.
  - rewrite !take_app_minus. reflexivity.
Qed.

Lemma bullet_match (line text : str) :
  bullet line text ->
  exists m, re_match Pat.unordered_item line = Some m /\ group_str m 2 = text.
Proof.
  intros (indent & marker & ws & -> & Hi & Hm & Hws & Ht).
  apply blank_run_spaces in Hws as [Hne Hsp].
  eexists. split.
  - unfold re_match.
    pose proof (unordered_match indent marker ws text [] ) as H.
    rewrite !app_nil_r in H. apply H; try assumption; try reflexivity.
    eapply Forall_impl; [exact Hi|]. intros c [Hc _]. exact Hc.
  - reflexivity.
Qed.

Lemma lists_loop_before (plain rest : list str) :
  Forall (fun l => ~ list_start l) plain ->
  forall result,
  lists_loop (plain ++ rest) result false None = lists_loop rest (result ++ plain) false None.
Proof.
  induction 1 as [|l plain Hl _ IH]; intros result.
  - rewrite app_nil_r. reflexivity.
  - cbn [app lists_loop].
    rewrite (list_start_match _ l lang_unordered_start Hl).
    rewrite (list_start_match _ l lang_ordered_start Hl).
    cbn [negb]. rewrite IH. rewrite <- app_assoc. reflexivity.
Qed.

Lemma lists_loop_items (items : list (str * str)) (below : list str) :
  Forall (fun it => bullet (fst it) (snd it)) items ->
  Forall (fun l => ~ list_start l) below ->
  forall result,
  lists_loop (map fst items ++ below) result true (Some (L "itemize"))
  = result ++ map (fun it => item_line (snd it)) items
      ++ list_end (Some (L "itemize")) :: below.
Proof.
  induction 1 as [|[line text] items Hit _ IH]; intros Hb result.
  - cbn [map app]. destruct below as [|b below]; [reflexivity|].
    apply Forall_cons in Hb as [Hb1 Hb2]. cbn [lists_loop].
    rewrite (list_start_match _ b lang_unordered_start Hb1).
    rewrite (list_start_match _ b lang_ordered_start Hb1).
    rewrite lists_loop_plain.
    + rewrite <- !app_assoc. reflexivity.
    + eapply Forall_impl; [exact Hb2|]. intros l Hl. split.
      * apply list_start_match; [apply lang_unordered_start|exact Hl].
      * apply list_start_match; [apply lang_ordered_start|exact Hl].
  - cbn [map app fst snd lists_loop].
    destruct (bullet_match line text Hit) as (m & -> & ->).
    cbn [negb]. rewrite bool_decide_eq_true_2 by reflexivity. cbn [negb].
    rewrite IH by exact Hb. rewrite <- app_assoc. reflexivity.
Qed.

End BlockFacts.
Import BlockFacts.

(* ===================================================================== *)
(** ** Facts about front matter *)
(* ===================================================================== *)

Module FrontMatterFacts.

Lemma strip_prefix_app (p s : str) : strip_prefix p (p ++ s) = Some s.
Proof. induction p as [|a p IH]; simpl; [reflexivity|]. rewrite chr_eqb_refl. exact IH. Qed.

Lemma strip_prefix_sound (p : str) : forall s r, strip_prefix p s = Some r -> s = p ++ r.
Proof.
  induction p as [|a p IH]; intros s r H; simpl in H.
  - injection H as ->. reflexivity.
  - destruct s as [|c s]; [discriminate|].
    destruct (chr_eqb a c) eqn:E; [|discriminate].
    apply chr_eqb_eq in E. subst c. simpl. f_equal. apply IH. exact H.
Qed.

Lemma find_sub_sound (p : str) : forall s b r, find_sub p s = Some (b, r) -> s = b ++ p ++ r.
Proof.
  induction s as [|c s IH]; intros b r H; simpl in H.
  - destruct (strip_prefix p []) eqn:E; [|discriminate].
    injection H as <- <-. apply strip_prefix_sound in E. exact E.
  - destruct (strip_prefix p (c :: s)) eqn:E.
    + injection H as <- <-. apply strip_prefix_sound in E. exact E.
    + destruct (find_sub p s) as [[b' r']|] eqn:F; [|discriminate].
      injection H as <- <-. simpl. f_equal. apply IH. reflexivity.
Qed.

Lemma find_sub_none (p s : str) : ~ occurs p s -> find_sub p s = None.
Proof.
  intros Hno. destruct (find_sub p s) as [[b r]|] eqn:E; [|reflexivity].
  exfalso. apply Hno. exists b, r. apply find_sub_sound. exact E.
Qed.

(** [find_sub] returns the first occurrence. *)
Lemma find_sub_first (p b r : str) :
  (forall u v, b = u ++ v -> v <> [] -> strip_prefix p (v ++ p ++ r) = None) ->
  find_sub p (b ++ p ++ r) = Some (b, r).
Proof.
  induction b as [|c b IH]; intros Hfirst.
  - cbn [app]. destruct (p ++ r) eqn:E; simpl; rewrite <- E, strip_prefix_app; reflexivity.
  - cbn [app find_sub].
    pose proof (Hfirst [] (c :: b) eq_refl) as H0. cbn [app] in H0.
    rewrite H0 by discriminate.
    rewrite IH; [reflexivity|].
    intros u v -> Hv. apply (Hfirst (c :: u) v); [reflexivity|exact Hv].
Qed.

(** In a block without a line break followed by the rule, the closing line
    is the first one found. *)
Lemma closing_line_first (block rest : str) :
  ~ occurs (NL ++ rule) block ->
  forall u v, block = u ++ v -> v <> [] ->
  strip_prefix (NL ++ rule ++ NL) (v ++ (NL ++ rule ++ NL) ++ rest) = None.
Proof.
  intros Hno u v -> Hv.
  destruct (strip_prefix _ _) as [r|] eqn:E; [|reflexivity].
  exfalso. apply strip_prefix_sound in E.
  destruct v as [|c1 [|c2 [|c3 [|c4 v]]]]; [congruence|..];
    cbn in E; try discriminate E.
  injection E as -> -> -> -> E. apply Hno. exists u, v. reflexivity.
Qed.

Section FrontMatter.
Context {env : Environment}.

End FrontMatter.
End FrontMatterFacts.
Import FrontMatterFacts.

(* ===================================================================== *)
(** ** Facts about links with all their parts *)
(* ===================================================================== *)

Module LinkFacts.

Lemma full_link_match (prev : option ascii) (name sec text : str) :
  name <> [] -> avoids (L "]#|") name ->
  sec <> [] -> avoids (L "]|") sec ->
  text <> [] -> avoids (L "]") text ->
  match_at Pat.wikilink false prev (full_link name sec text) =
  Some {| m_text := full_link name sec text;
          m_caps := [(3, text); (2, sec); (1, name)];
          m_rest := [] |}.
Proof.
  intros Hn1 Hn2 Hs1 Hs2 Ht1 Ht2.
  unfold match_at, Pat.wikilink, full_link. cbn [cat rmatch].
  change (L "[[" ++ name ++ L "#" ++ sec ++ L "|" ++ text ++ L "]]")
    with (L "[[" ++ name ++ L "#" ++ sec ++ L "|" ++ text ++ L "]]" ++ []).
  rewrite lit_match_app by apply chr_eqb_refl.
  erewrite many_greedy_run; cycle 1.
  - apply avoids_class, Hn2.
  - reflexivity.
  - apply nonempty_length, Hn1.
  - exact I.
  - cbn beta. cbn [rmatch].
    rewrite lit_match_app by apply chr_eqb_refl.
    erewrite many_greedy_run; cycle 1.
    + apply avoids_class, Hs2.
    + reflexivity.
    + apply nonempty_length, Hs1.
    + exact I.
    + cbn beta. cbn [rmatch].
      rewrite lit_match_app by apply chr_eqb_refl.
      erewrite many_greedy_run; cycle 1.
      * apply avoids_class, Ht2.
      * reflexivity.
      * apply nonempty_length, Ht1.
      * exact I.
      * cbn beta. rewrite lit_match_app by apply chr_eqb_refl. cbn [or_else]. reflexivity.
      * cbn [or_else]. reflexivity.
    + cbn [or_else]. reflexivity.
  - f_equal. f_equal.
    + etransitivity;
        [|apply (take_app_minus (L "[[" ++ name ++ L "#" ++ sec ++ L "|" ++ text ++ L "]]") [])].
      rewrite <- !app_assoc. reflexivity.
    + rewrite !take_app_minus. reflexivity.
Qed.

Section Links.
Context {env : Environment}.

Lemma full_link_parts (name sec text : str) (c : LatexConverter) :
  name <> [] -> avoids (L "]#|") name ->
  avoids (L "]|") sec -> strip sec <> [] ->
  avoids (L "]") text -> strip text <> [] ->
  convert_wikilinks (full_link name sec text) c
  = replace_link {| m_text := full_link name sec text;
                    m_caps := [(3, text); (2, sec); (1, name)];
                    m_rest := [] |} c.
Proof.
  intros Hn1 Hn2 Hs2 Hs1 Ht2 Ht1.
  assert (Hs : sec <> []) by (intros ->; apply Hs1; reflexivity).
  assert (Ht : text <> []) by (intros ->; apply Ht1; reflexivity).
  unfold convert_wikilinks, re_sub_st.
  apply (sub_scan_hit_all _ _ _ _ _ _ (full_link_match None name sec text Hn1 Hn2 Hs Hs2 Ht Ht2) eq_refl).
  - discriminate.
  - apply wikilink_no_match_end.
Qed.

End Links.
End LinkFacts.
Import LinkFacts.

(* ===================================================================== *)
(** ** Facts about images in the standard form *)
(* ===================================================================== *)

Module StandardImageFacts.

(** Where a character stands once in a text, a word that starts with it can
    only stand there. *)
Lemma occurs_single (a : ascii) (p x y : str) :
  ~ In a x -> ~ In a y -> occurs (a :: p) (x ++ a :: y) -> exists t, y = p ++ t.
Proof.
  intros Hx Hy (u & t & E). revert u E. induction x as [|c x IH]; intros u E.
  - destruct u as [|b u]; simpl in E.
    + injection E as ->. exists t. reflexivity.
    + injection E as _ ->. exfalso. apply Hy. apply in_or_app. right. left. reflexivity.
  - destruct u as [|b u]; simpl in E.
    + injection E as -> _. exfalso. apply Hx. left. reflexivity.
    + injection E as _ E. apply (IH (fun H => Hx (or_intror H)) u E).
Qed.

Lemma take_minus_eq (w s x : str) : x = w ++ s -> take (length x - length s) x = w.
Proof. intros ->. apply take_app_minus. Qed.

Lemma image_std_match (prev : option ascii) (alt target rest : str) :
  avoids (L "]") alt ->
  target <> [] -> avoids (L ")") target ->
  match_at Pat.image_std false prev (image_token alt (target ++ L ".png") ++ rest)
  = Some {| m_text := image_token alt (target ++ L ".png");
            m_caps := [(2, target ++ L ".png"); (3, L "png"); (1, alt)];
            m_rest := rest |}.
Proof.
  intros Ha Hne Ht. unfold match_at, Pat.image_std, image_token, Pat.image_ext.
  cbn [cat rmatch]. rewrite <- !app_assoc.
  rewrite lit_match_app by apply chr_eqb_refl.
  erewrite many_greedy_run; cycle 1.
  - apply avoids_class, Ha.
  - reflexivity.
  - lia.
  - exact I.
  - cbn beta. rewrite lit_match_app by apply chr_eqb_refl.
    erewrite (many_greedy_first (none_of (L ")")) target (L ".png") (L ")" ++ rest)); cycle 1.
    + apply avoids_class, Ht.
    + repeat constructor.
    + reflexivity.
    + apply nonempty_length, Hne.
    + cbn beta.
      change (L ".png" ++ L ")" ++ rest) with (L "." ++ L "png" ++ L ")" ++ rest).
      rewrite lit_match_app by apply chr_eqb_refl.
      cbn [rmatch].
      rewrite (lit_match_app eq_nocase (L "png"))
        by (intros ch; unfold eq_nocase; apply chr_eqb_refl).
      rewrite lit_match_app by apply chr_eqb_refl.
      cbn [or_else]. reflexivity.
    + intros u v E Hu. cbn beta.
      destruct u as [|c1 [|c2 [|c3 [|c4 [|c5 u]]]]]; [congruence|..];
        cbn in E; try discriminate E; injection E; intros; subst; reflexivity.
    + reflexivity.
  - f_equal. f_equal; [|f_equal; [|f_equal]]; repeat f_equal;
      apply take_minus_eq; rewrite <- ?app_assoc; reflexivity.
Qed.


Lemma rest_of_line_match (s : str) :
  s <> [] -> one_line s ->
  re_match Pat.rest_of_line s = Some {| m_text := s; m_caps := [(1, s)]; m_rest := [] |}.
Proof.
  intros Hne Hol.
  assert (H : re_match Pat.rest_of_line (s ++ [])
              = Some {| m_text := s; m_caps := [(1, s)]; m_rest := [] |}).
  { unfold re_match, match_at, Pat.rest_of_line. cbn [rmatch].
    erewrite many_greedy_run; cycle 1.
    - apply one_line_dot, Hol.
    - exact I.
    - apply nonempty_length, Hne.
    - exact I.
    - reflexivity.
    - f_equal. f_equal; [|repeat f_equal]; apply take_minus_eq; reflexivity. }
  rewrite app_nil_r in H. exact H.
Qed.

Lemma rest_of_line_break (s : str) : re_match Pat.rest_of_line (nl :: s) = None.
Proof. reflexivity. Qed.

Lemma image_token_no_embed (x alt target z : str) :
  ~ In "!"%char x -> ~ In "!"%char alt -> ~ In "["%char alt ->
  ~ In "!"%char target -> ~ In "!"%char z ->
  ~ occurs (L "![[") (x ++ image_token alt target ++ z).
Proof.
  intros Hx Ha1 Ha2 Ht Hz Ho. unfold image_token in Ho.
  change (x ++ (L "![" ++ alt ++ L "](" ++ target ++ L ")") ++ z)
    with (x ++ "!"%char :: ((L "[" ++ alt ++ L "](" ++ target ++ L ")") ++ z)) in Ho.
  apply occurs_single in Ho as (t & E).
  - destruct alt as [|a alt]; [discriminate E|].
    injection E as ->. apply Ha2. left. reflexivity.
  - exact Hx.
  - rewrite <- !app_assoc. repeat apply notin_app; try assumption; apply notin_lit; reflexivity.
Qed.

Section Images.
Context {env : Environment}.

(** Once a run has raised, the rest of the substitution does not bring it back. *)
Lemma raised_stays (s : str) (prev : option ascii) (skip : nat) :
  snd (sub_scan Pat.image_std replace_image_std prev s skip None) = None.
Proof.
  pose proof (sub_scan_invariant run_grows Pat.image_std replace_image_std
                run_grows_refl run_grows_trans replace_image_std_grows s prev skip None) as H.
  destruct (snd (sub_scan _ _ _ _ _ _)); [destruct H|reflexivity].
Qed.

Lemma image_pass_one (x alt target z : str) (oc : option LatexConverter) :
  ~ In "!"%char x -> avoids (L "![]") alt ->
  target <> [] -> avoids (L "!)") target -> ~ In "!"%char z ->
  re_sub_st Pat.image_embed (raising replace_image)
    (x ++ image_token alt (target ++ L ".png") ++ z) oc
  = (x ++ image_token alt (target ++ L ".png") ++ z, oc).
Proof.
  intros Hx Ha Hne Ht Hz. apply re_sub_st_none. apply re_search_no_lead.
  apply image_token_no_embed; try assumption.
  - eapply avoids_not_In; [|exact Ha]. simpl. tauto.
  - eapply avoids_not_In; [|exact Ha]. simpl. tauto.
  - apply notin_app; [|apply notin_lit; reflexivity].
    eapply avoids_not_In; [|exact Ht]. simpl. tauto.
Qed.

Lemma image_pass_two (x alt target z : str) (c : LatexConverter) :
  ~ In "!"%char x -> avoids (L "![]") alt ->
  target <> [] -> avoids (L "!)") target -> ~ In "!"%char z ->
  re_sub_st Pat.image_std replace_image_std
    (x ++ image_token alt (target ++ L ".png") ++ z) (Some c)
  = let '(rep, oc) :=
      replace_image_std {| m_text := image_token alt (target ++ L ".png");
                           m_caps := [(2, target ++ L ".png"); (3, L "png"); (1, alt)];
                           m_rest := z |} (Some c) in
    let '(out, oc') := sub_scan Pat.image_std replace_image_std (Some ")"%char) z 0 oc in
    (x ++ rep ++ out, oc').
Proof.
  intros Hx Ha Hne Ht Hz. unfold re_sub_st.
  rewrite (sub_scan_pass _ _ "!" (L "[") x) by (reflexivity || assumption).
  erewrite sub_scan_hit; cycle 1.
  - apply image_std_match.
    + eapply avoids_weaken; [|exact Ha]. simpl. tauto.
    + exact Hne.
    + eapply avoids_weaken; [|exact Ht]. simpl. tauto.
  - reflexivity.
  - discriminate.
  - destruct (replace_image_std _ (Some c)) as [rep oc].
    replace (after (after None x) (image_token alt (target ++ L ".png")))
      with (Some ")"%char).
    + destruct (sub_scan _ _ _ z 0 oc) as [out oc']. reflexivity.
    + unfold image_token. rewrite !app_assoc. rewrite after_app. reflexivity.
Qed.

(** A line break right after the opening parenthesis makes the pass raise. *)
Lemma convert_images_raises (x alt path z : str) (c : LatexConverter) :
  ~ In "!"%char x -> avoids (L "![]") alt ->
  avoids (L "!)") path -> ~ In "!"%char z ->
  convert_images (x ++ image_token alt (NL ++ path ++ L ".png") ++ z) c = None.
Proof.
  intros Hx Ha Hp Hz. unfold convert_images.
  change (NL ++ path ++ L ".png") with ((NL ++ path) ++ L ".png").
  assert (Ht : avoids (L "!)") (NL ++ path)).
  { apply Forall_app. split; [apply avoids_lit; reflexivity|exact Hp]. }
  rewrite image_pass_one by (assumption || discriminate).
  rewrite image_pass_two by (assumption || discriminate).
  unfold replace_image_std at 1. unfold group_str, group.
  cbn [m_caps cap_lookup Nat.eqb default from_option]. unfold id.
  change ((NL ++ path) ++ L ".png") with (nl :: path ++ L ".png").
  rewrite rest_of_line_break.
  pose proof (raised_stays z (Some ")"%char) 0) as H.
  destruct (sub_scan _ _ _ z 0 None) as [out oc']. simpl in H. subst oc'. reflexivity.
Qed.

(** An image in the standard form on one line: the alternative text is
    dropped and the target is looked up in the attachments folder. *)
Lemma convert_images_standard (x alt target z : str) (c : LatexConverter) :
  ~ In "!"%char x -> avoids (L "![]") alt ->
  target <> [] -> avoids (L "!)") target -> one_line target -> ~ In "!"%char z ->
  convert_images (x ++ image_token alt (target ++ L ".png") ++ z) c
  = match replace_image {| m_text := target ++ L ".png";
                           m_caps := [(1, target ++ L ".png")];
                           m_rest := [] |} c with
    | Some (rep, c') => Some (x ++ rep ++ z, c')
    | None => None
    end.
Proof.
  intros Hx Ha Hne Ht Hol Hz. unfold convert_images.
  rewrite image_pass_one by assumption.
  rewrite image_pass_two by assumption.
  unfold replace_image_std at 1. unfold group_str at 1, group.
  cbn [m_caps cap_lookup Nat.eqb default from_option]. unfold id.
  rewrite rest_of_line_match.
  - unfold raising. destruct (replace_image _ c) as [[rep c']|].
    + rewrite (sub_scan_pass_all _ _ "!" (L "[") z) by (reflexivity || assumption).
      reflexivity.
    + pose proof (raised_stays z (Some ")"%char) 0) as H.
      destruct (sub_scan _ _ _ z 0 None) as [out oc']. simpl in H. subst oc'. reflexivity.
  - destruct target; [congruence|discriminate].
  - apply Forall_app. split; [exact Hol|repeat constructor; discriminate].
Qed.

End Images.
End StandardImageFacts.
Import StandardImageFacts.

(* ===================================================================== *)
(** ** Facts about footnotes *)
(* ===================================================================== *)

Module FootnoteFacts.

Lemma occurs_first (a : ascii) (p x y : str) :
  ~ In a x -> occurs (a :: p) (x ++ a :: y) ->
  (exists t, y = p ++ t) \/ occurs (a :: p) y.
Proof.
  intros Hx (u & t & E). revert u E. induction x as [|c x IH]; intros u E.
  - destruct u as [|b u]; simpl in E.
    + injection E as ->. left. exists t. reflexivity.
    + injection E as _ ->. right. exists u, t. reflexivity.
  - destruct u as [|b u]; simpl in E.
    + injection E as -> _. exfalso. apply Hx. left. reflexivity.
    + injection E as _ E. apply (IH (fun H => Hx (or_intror H)) u E).
Qed.

Lemma word_not_bracket (k : str) :
  Forall (fun c => is_word c = true) k -> ~ In "["%char k /\ ~ In "^"%char k /\ ~ In "]"%char k.
Proof.
  intros Hk. rewrite Forall_forall in Hk.
  repeat split; intros Hin; apply list_elem_of_In in Hin; apply Hk in Hin; discriminate.
Qed.

Lemma footnote_def_bol (mb : bool) (prev : option ascii) (s : str) :
  at_bol true prev = false -> match_at Pat.footnote_def mb prev s = None.
Proof.
  intros Hb. unfold match_at, Pat.footnote_def. cbn [cat rmatch]. rewrite Hb. reflexivity.
Qed.

Lemma footnote_def_match (key ws text : str) :
  key <> [] -> Forall (fun c => is_word c = true) key ->
  Forall (fun c => is_space c = true) ws ->
  title_text text ->
  match_at Pat.footnote_def false (Some nl) (footnote_line key ws text ++ [])
  = Some {| m_text := footnote_line key ws text;
            m_caps := [(2, text); (1, key)];
            m_rest := [] |}.
Proof.
  intros Hne Hk Hws Ht.
  assert (Hol : one_line text) by (destruct text; [contradiction|apply Ht]).
  assert (Hst : stops is_space (text ++ []))
    by (destruct text; [contradiction|apply Ht]).
  assert (Hlen : 1 <= length text) by (destruct text; [contradiction|simpl; lia]).
  unfold match_at, Pat.footnote_def, footnote_line. cbn [cat rmatch].
  change (at_bol true (Some nl)) with true. cbn iota.
  rewrite <- !app_assoc.
  rewrite lit_match_app by apply chr_eqb_refl.
  erewrite many_greedy_run; cycle 1.
  - exact Hk.
  - reflexivity.
  - apply nonempty_length, Hne.
  - exact I.
  - cbn beta. rewrite lit_match_app by apply chr_eqb_refl.
    erewrite many_greedy_run; cycle 1.
    + exact Hws.
    + exact Hst.
    + lia.
    + exact I.
    + cbn beta. erewrite many_greedy_run; cycle 1.
      * apply one_line_dot, Hol.
      * exact I.
      * exact Hlen.
      * exact I.
      * cbn beta. cbn [at_eol]. reflexivity.
      * reflexivity.
    + reflexivity.
  - f_equal. f_equal; [|repeat f_equal]; apply take_minus_eq;
      rewrite <- ?app_assoc; reflexivity.
Qed.

Lemma footnote_ref_match (prev : option ascii) (key rest : str) :
  key <> [] -> Forall (fun c => is_word c = true) key ->
  match_at Pat.footnote_ref false prev (footnote_mark key ++ rest)
  = Some {| m_text := footnote_mark key; m_caps := [(1, key)]; m_rest := rest |}.
Proof.
  intros Hne Hk. unfold match_at, Pat.footnote_ref, footnote_mark. cbn [cat rmatch].
  rewrite <- !app_assoc.
  rewrite lit_match_app by apply chr_eqb_refl.
  erewrite many_greedy_run; cycle 1.
  - exact Hk.
  - reflexivity.
  - apply nonempty_length, Hne.
  - exact I.
  - cbn beta. rewrite lit_match_app by apply chr_eqb_refl. reflexivity.
  - f_equal. f_equal; [|repeat f_equal]; apply take_minus_eq;
      rewrite <- ?app_assoc; reflexivity.
Qed.

Lemma footnote_inline_match (prev : option ascii) (note rest : str) :
  note <> [] -> avoids (L "]") note ->
  match_at Pat.footnote_inline false prev (L "^[" ++ note ++ L "]" ++ rest)
  = Some {| m_text := L "^[" ++ note ++ L "]"; m_caps := [(1, note)]; m_rest := rest |}.
Proof.
  intros Hne Hav. unfold match_at, Pat.footnote_inline. cbn [cat rmatch].
  rewrite lit_match_app by apply chr_eqb_refl.
  erewrite many_greedy_run; cycle 1.
  - apply avoids_class, Hav.
  - reflexivity.
  - apply nonempty_length, Hne.
  - exact I.
  - cbn beta. rewrite lit_match_app by apply chr_eqb_refl. reflexivity.
  - f_equal. f_equal; [|repeat f_equal]; apply take_minus_eq;
      rewrite <- ?app_assoc; reflexivity.
Qed.

End FootnoteFacts.
Import FootnoteFacts.

(* ===================================================================== *)
(** ** Facts about the heading level above a line *)
(* ===================================================================== *)

Module LevelFacts.

(** The prefix pattern on a line that starts like a heading. *)
Lemma heading_prefix_match (n : nat) (c : ascii) (x : str) :
  1 <= n <= 6 -> is_space c = true ->
  exists m, re_match Pat.heading_prefix (times "#" n ++ c :: x) = Some m
            /\ group_str m 1 = times "#" n.
Proof.
  intros Hn Hc. destruct (span_class is_space x) as (w & z & -> & Hw & Hz).
  eexists. split.
  - unfold re_match, match_at, Pat.heading_prefix. cbn [cat rmatch]. cbn [at_bol].
    eapply many_greedy_run.
    { apply times_Forall. }
    { simpl. apply space_not_hash, Hc. }
    { rewrite times_length. lia. }
    { rewrite times_length. simpl. lia. }
    cbn beta.
    eapply (many_greedy_run is_space (c :: w) z).
    { constructor; assumption. }
    { exact Hz. }
    { simpl. lia. }
    { exact I. }
    cbn beta. reflexivity.
  - unfold group_str, group. cbn.
    apply (take_app_minus (times "#" n) ((c :: w) ++ z)).
Qed.

(** The prefix pattern on any other line. *)
Lemma heading_prefix_none (l : str) :
  ~ heading_start l -> re_match Pat.heading_prefix l = None.
Proof.
  intros Hno. destruct (re_match Pat.heading_prefix l) as [m|] eqn:E; [|reflexivity].
  exfalso. apply Hno. apply match_at_sound in E as [E Hl].
  unfold Pat.heading_prefix in Hl. cbn [cat lang] in Hl.
  destruct Hl as (w1 & w2 & E1 & -> & h & w & -> & (Hh & Hlo & Hhi) & (Hw & Hlw & _)).
  rewrite E, E1. cbn [app].
  destruct w as [|c w]; [simpl in Hlw; lia|].
  exists (length h), c, (w ++ m_rest m). split; [|split].
  - rewrite <- (Forall_just_times "#" h Hh). rewrite <- app_assoc. reflexivity.
  - simpl in Hhi. lia.
  - inversion Hw; assumption.
Qed.

Lemma not_heading_start (l : str) :
  re_match Pat.heading_prefix l = None -> ~ heading_start l.
Proof.
  intros E (n & c & x & -> & Hn & Hc).
  destruct (heading_prefix_match n c x Hn Hc) as (m & Hm & _). congruence.
Qed.

Lemma nearest_heading_level_skip (below : list str) :
  Forall (fun l => ~ heading_start l) below ->
  forall before, nearest_heading_level (rev below ++ before) = nearest_heading_level before.
Proof.
  induction 1 as [|l below Hl _ IH]; intros before; [reflexivity|].
  cbn [rev]. rewrite <- app_assoc. rewrite IH.
  cbn [app nearest_heading_level]. rewrite heading_prefix_none by exact Hl. reflexivity.
Qed.

Lemma take_lines (lines rest : list str) (k : nat) :
  k = length lines -> take k (lines ++ rest) = lines.
Proof. intros ->. apply take_app_length. Qed.

End LevelFacts.
Import LevelFacts.

(* ===================================================================== *)
(** ** Facts about the filling of a template *)
(* ===================================================================== *)

Module TemplateFacts.
Import Document.

Lemma placeholder_shape (h : hole) :
  exists n0 rest, placeholder h = "{"%char :: "{"%char :: n0 :: rest /\ n0 <> "{"%char.
Proof. destruct h; do 2 eexists; (split; [reflexivity|discriminate]). Qed.

Lemma replace_from_skip (old new w : str) :
  forall R, replace_from old new (w ++ R) (length w) = replace_from old new R 0.
Proof.
  induction w as [|c w IH]; intros R; [destruct R; reflexivity|]. simpl. apply IH.
Qed.

Lemma replace_from_miss (old new : str) (c : ascii) (s : str) :
  strip_prefix old (c :: s) = None ->
  replace_from old new (c :: s) 0 = c :: replace_from old new s 0.
Proof. intros H. cbn [replace_from]. rewrite H. reflexivity. Qed.

(** No placeholder starts inside a calm text. *)
Lemma placeholder_not_in_text (h : hole) (a : ascii) (t R : str) :
  ~ occurs (L "{{") (a :: t) -> brace_pair R ->
  strip_prefix (placeholder h) (a :: t ++ R) = None.
Proof.
  intros Hno HR. destruct (placeholder_shape h) as (n0 & rest & -> & Hn0).
  cbn [strip_prefix].
  destruct (chr_eqb "{" a) eqn:Ea; [|reflexivity].
  apply chr_eqb_eq in Ea. subst a.
  destruct t as [|b t]; cbn [app].
  - destruct R as [|c1 R]; [reflexivity|].
    destruct (chr_eqb "{" c1) eqn:E1; [|reflexivity].
    apply chr_eqb_eq in E1. subst c1.
    destruct R as [|c R]; [reflexivity|].
    destruct (chr_eqb n0 c) eqn:E2; [|reflexivity].
    apply chr_eqb_eq in E2. subst c. exfalso. apply Hn0. apply (HR n0 R). reflexivity.
  - destruct (chr_eqb "{" b) eqn:Eb; [|reflexivity].
    apply chr_eqb_eq in Eb. subst b. exfalso. apply Hno. exists [], t. reflexivity.
Qed.

Lemma occurs_tail (p : str) (a : ascii) (t : str) : ~ occurs p (a :: t) -> ~ occurs p t.
Proof. intros H (u & r & ->). apply H. exists (a :: u), r. reflexivity. Qed.

Lemma replace_text (h : hole) (v t R : str) :
  ~ occurs (L "{{") t -> brace_pair R ->
  replace_from (placeholder h) v (t ++ R) 0 = t ++ replace_from (placeholder h) v R 0.
Proof.
  intros Hno HR. induction t as [|a t IH]; [reflexivity|].
  cbn [app]. rewrite replace_from_miss by (apply placeholder_not_in_text; assumption).
  rewrite IH by (eapply occurs_tail; exact Hno). reflexivity.
Qed.

Lemma replace_other (h h' : hole) (v R : str) :
  same_hole h' h = false ->
  replace_from (placeholder h) v (placeholder h' ++ R) 0
  = placeholder h' ++ replace_from (placeholder h) v R 0.
Proof. destruct h, h'; intros E; try discriminate E; reflexivity. Qed.

Lemma replace_same (h h' : hole) (v R : str) :
  same_hole h' h = true ->
  replace_from (placeholder h) v (placeholder h' ++ R) 0
  = v ++ replace_from (placeholder h) v R 0.
Proof.
  intros E. assert (h' = h) by (destruct h, h'; try discriminate E; reflexivity). subst h'.
  destruct (placeholder_shape h) as (n0 & rest & Ep & _).
  assert (Hs : strip_prefix (placeholder h) (placeholder h ++ R) = Some R)
    by apply strip_prefix_app.
  rewrite Ep in *. cbn [app replace_from]. cbn [app] in Hs. rewrite Hs.
  f_equal. apply (replace_from_skip _ v ("{"%char :: n0 :: rest)).
Qed.

Lemma render_cons (p : piece) (ps : list piece) :
  render (p :: ps) = piece_text (fun _ => None) p ++ render ps.
Proof. reflexivity. Qed.

Lemma render_brace_pair (ps : list piece) : Forall calm_piece ps -> brace_pair (render ps).
Proof.
  induction 1 as [|p ps Hp _ IH]; intros c r E; [discriminate E|].
  rewrite render_cons in E. destruct p as [t|h]; cbn [piece_text default from_option] in E.
  - destruct t as [|a t]; [apply (IH c r E)|].
    destruct Hp as [_ Hp]. injection E as -> E. exfalso. apply (Hp t). reflexivity.
  - unfold id in E.
    destruct (placeholder_shape h) as (n0 & rest & Ep & _). rewrite Ep in E.
    injection E as <- _. reflexivity.
Qed.

(** One substitution fills the placeholder wherever it stands and nothing
    else. *)
Lemma replace_hole (h : hole) (v : str) (ps : list piece) :
  Forall calm_piece ps ->
  replace (placeholder h) v (render ps) = render (map (fill_one h v) ps).
Proof.
  unfold replace. induction 1 as [|p ps Hp Hps IH].
  - destruct h; reflexivity.
  - cbn [map]. rewrite !render_cons. destruct p as [t|h'].
    + cbn [piece_text fill_one]. rewrite replace_text.
      * rewrite IH. reflexivity.
      * apply Hp.
      * apply render_brace_pair, Hps.
    + cbn [piece_text fill_one default from_option]. unfold id.
      destruct (same_hole h' h) eqn:E.
      * rewrite replace_same by exact E. rewrite IH. reflexivity.
      * rewrite replace_other by exact E. rewrite IH. reflexivity.
Qed.

Lemma fill_one_calm (h : hole) (v : str) (ps : list piece) :
  calm v -> Forall calm_piece ps -> Forall calm_piece (map (fill_one h v) ps).
Proof.
  intros Hv. induction 1 as [|p ps Hp _ IH]; [constructor|].
  cbn [map]. constructor; [|exact IH].
  destruct p as [t|h']; [exact Hp|]. cbn [fill_one].
  destruct (same_hole h' h); [exact Hv|exact I].
Qed.

Lemma fill_all (value : hole -> str) (ps : list piece) :
  render (map (fill_one Body (value Body))
            (map (fill_one Macros (value Macros))
               (map (fill_one Date (value Date))
                  (map (fill_one Author (value Author))
                     (map (fill_one Title (value Title)) ps)))))
  = fill value ps.
Proof.
  unfold render, fill. induction ps as [|p ps IH]; [reflexivity|].
  cbn [map concat]. rewrite IH. f_equal.
  destruct p as [t|[]]; reflexivity.
Qed.

End TemplateFacts.
Import TemplateFacts.

(* ===================================================================== *)
(** ** Facts about the argument loop *)
(* ===================================================================== *)

Module CliFacts.
Import Cli.

Lemma is_arg_other (name : string) (w : str) :
  In (L name) option_names -> ~ In w option_names -> is_arg name w = false.
Proof.
  intros Hn Hw. unfold is_arg. apply bool_decide_eq_false_2. intros ->. contradiction.
Qed.

Lemma parse_other (w : str) (rest : list str) (o : Options) :
  ~ In w option_names -> parse_args (w :: rest) o = parse_args rest o.
Proof.
  intros Hw. cbn [parse_args].
  rewrite !(is_arg_other _ w) by (assumption || (simpl; tauto)).
  destruct rest; reflexivity.
Qed.

Lemma parse_group (g : group) (rest : list str) (o : Options) :
  well_formed g -> parse_args (words g ++ rest) o = parse_args rest (effect o g).
Proof.
  destruct g as [v|v|v| |v|w]; intros Hg; cbn [words app effect].
  - reflexivity.
  - reflexivity.
  - reflexivity.
  - destruct rest; reflexivity.
  - destruct Hg as [n Hn]. cbn [parse_args]. rewrite Hn. reflexivity.
  - apply parse_other. exact Hg.
Qed.

Lemma parse_groups (gs : list group) :
  Forall well_formed gs ->
  forall rest o,
  parse_args (concat (map words gs) ++ rest) o = parse_args rest (fold_left effect gs o).
Proof.
  induction 1 as [|g gs Hg _ IH]; intros rest o; [reflexivity|].
  cbn [map concat fold_left]. rewrite <- app_assoc.
  rewrite parse_group by exact Hg. apply IH.
Qed.

End CliFacts.
Import CliFacts.

(* ===================================================================== *)
(** ** Decision lemmas for written-out texts *)
(* ===================================================================== *)

Module TextDecisions.

Lemma not_occurs (p s : str) : find_sub p s = None -> ~ occurs p s.
Proof. intros H Ho. apply occurs_find in Ho. contradiction. Qed.

Lemma one_line_lit (s : str) : forallb (fun c => negb (chr_eqb c nl)) s = true -> one_line s.
Proof.
  intros H. apply Forall_forall. intros c Hc ->. apply list_elem_of_In in Hc.
  rewrite forallb_forall in H. specialize (H _ Hc). discriminate.
Qed.

Lemma not_list_start (l : str) :
  match lstrip l with
  | c :: _ => one_of (L "-*+") c || is_digit c
  | [] => false
  end = false -> ~ list_start l.
Proof.
  unfold list_start. destruct (lstrip l) as [|c x]; [tauto|].
  intros H [H1|H1]; rewrite H1 in H; try discriminate.
  rewrite orb_true_r in H. discriminate.
Qed.

(** Each element of a list that is written out. *)
Ltac each tac := repeat (apply List.Forall_cons; [tac|]); try apply List.Forall_nil.

Ltac compute_lines :=
  match goal with
  | |- context [split_lines ?s] =>
      let ls := eval vm_compute in (split_lines s) in change (split_lines s) with ls
  end.

Ltac plain_lines :=
  each ltac:(split; [apply one_line_lit; reflexivity|apply not_occurs; reflexivity]).

End TextDecisions.
Import TextDecisions.

(* ===================================================================== *)
(** ** Further properties *)
(* ===================================================================== *)

(** X1.  Whatever the text, embed resolution keeps what the parser has
    recorded: the vault is the same, no key leaves the duplicate set, no name
    leaves the embedded-files set, the section counter does not go down, the
    warnings recorded before stay first in the list and in their order, and
    the records of the converter (copied images, internal links) are not
    touched. *)
Theorem process_embeds_keeps_records (env : Environment) (content : str) (p : ObsidianParser) :
  let p' := snd (process_embeds content p) in
  vault_path p' = vault_path p
  /\ embedded_files p ⊆ embedded_files p'
  /\ files_embedded (stats p) ⊆ files_embedded (stats p')
  /\ sections_processed (stats p) <= sections_processed (stats p')
  /\ warnings (stats p) `prefix_of` warnings (stats p')
  /\ images_copied (stats p') = images_copied (stats p)
  /\ internal_links (stats p') = internal_links (stats p).
Proof.
  intros p'. destruct (process_embeds_grows content p) as (H1 & H2 & (H3 & H4 & _ & _ & H5) & H6 & H7).
  repeat split; assumption.
Qed.

(** X2.  A text in which the three characters [![[] do not occur is
    returned by embed resolution as it is, and the parser is unchanged: no
    line is rewritten and nothing is recorded. *)
Theorem process_embeds_without_token (env : Environment) (content : str) (p : ObsidianParser) :
  ~ occurs (L "![[") content -> process_embeds content p = (content, p).
Proof. apply process_embeds_plain. Qed.

(** A text with an exclamation mark, a link and an image in the standard form. *)
Lemma process_embeds_without_token_witness :
  process_embeds (env := Example.vault_env) (L "Wait! See [[Intro]]." ++ NL ++ L "![alt](pic.png)")
    Example.parser0
  = (L "Wait! See [[Intro]]." ++ NL ++ L "![alt](pic.png)", Example.parser0).
Proof.
  apply (process_embeds_without_token Example.vault_env).
  apply not_occurs. vm_compute. reflexivity.
Defined.

(** X3.  An embed token without a section, alone on its line between lines
    that hold no token, whose key is new and whose file is found and exists:
    the line is replaced by the body of the file with every heading demoted
    by one level, whatever headings stand above the token; the body is not
    searched for embeds, the other lines are unchanged, the key and the file
    name are recorded and one section is counted. *)
Theorem embed_splices_file_body (env : Environment) (p : ObsidianParser)
    (above below : list str) (name : str) (filepath : Path) :
  Forall plain_line (above ++ below) ->
  name <> [] -> avoids (L "]#") name -> one_line name ->
  strip name ∉ embedded_files p ->
  _find_file p (strip name) = Some filepath ->
  path_exists filepath = true ->
  process_embeds (join_lines (above ++ embed_token name :: below)) p
  = (join_lines (above ++ demote_headings (file_body filepath) 1 :: below),
     after_expand (strip name) (strip name) p).
Proof.
  intros Hpl Hne Hav Hol Hnin Hf He.
  assert (Hav1 : avoids (L "]") name).
  { eapply avoids_weaken; [|exact Hav]. intros c [<-|[]]. left. reflexivity. }
  destruct (process_embeds_between above below name p Hpl Hne Hav1 Hol) as (lvl & n & ->).
  rewrite (resolve_embed_file _ (strip name) lvl n p filepath); try assumption.
  - reflexivity.
  - apply parse_embed_plain; assumption.
Qed.

(** [Intro.md] of the example vault embedded under a second-level heading: its
    first-level heading becomes a second-level one, not a third-level one. *)
Lemma embed_splices_file_body_witness :
  process_embeds (env := Example.vault_env)
    (L "# Top" ++ NL ++ L "## Deep" ++ NL ++ L "![[ Intro ]]" ++ NL ++ L "end") Example.parser0
  = (L "# Top" ++ NL ++ L "## Deep" ++ NL ++ L "## Intro" ++ NL ++ L "Hello ![[World]]"
       ++ NL ++ L "end",
     after_expand (L "Intro") (L "Intro") Example.parser0).
Proof.
  pose proof (embed_splices_file_body Example.vault_env Example.parser0
                [L "# Top"; L "## Deep"] [L "end"] (L " Intro ") (L "/vault/Intro.md")) as H.
  change (join_lines ([L "# Top"; L "## Deep"] ++ embed_token (L " Intro ") :: [L "end"]))
    with (L "# Top" ++ NL ++ L "## Deep" ++ NL ++ L "![[ Intro ]]" ++ NL ++ L "end") in H.
  rewrite H.
  - apply (f_equal (fun t => (t, after_expand (L "Intro") (L "Intro") Example.parser0))).
    vm_compute. reflexivity.
  - plain_lines.
  - discriminate.
  - apply avoids_lit. reflexivity.
  - apply one_line_lit. reflexivity.
  - vm_compute. set_solver.
  - vm_compute. reflexivity.
  - vm_compute. reflexivity.
Defined.

(** X4.  An embed token with a section, [![[name#section]]], alone on its
    line, whose key [name#section] is new and whose file is found and exists.
    Where section extraction finds the section in the body of the file, the
    line is replaced by the section with its headings demoted by one level and
    one section is counted.  Where it does not, the line is replaced by the
    marker [[MISSING SECTION: name#section]], one warning is recorded and no
    section is counted; the key and the file name are recorded all the same. *)
Theorem embed_of_section (env : Environment) (p : ObsidianParser)
    (above below : list str) (name sec : str) (filepath : Path) :
  Forall plain_line (above ++ below) ->
  name <> [] -> avoids (L "]#") name -> one_line name ->
  avoids (L "]") sec -> one_line sec -> strip sec <> [] ->
  let filename := strip name in
  let section := strip sec in
  let key := filename ++ L "#" ++ section in
  key ∉ embedded_files p ->
  _find_file p filename = Some filepath ->
  path_exists filepath = true ->
  process_embeds (join_lines (above ++ embed_token (name ++ L "#" ++ sec) :: below)) p
  = match fst (extract_section (file_body filepath) section new_stats) with
    | Some text =>
        (join_lines (above ++ demote_headings text 1 :: below),
         after_expand filename key p)
    | None =>
        (join_lines (above ++ missing_section_marker filename section :: below),
         after_missing_section filename section key p)
    end.
Proof.
  intros Hpl Hne Hav Hol Hsa Hsl Hss filename section key Hnin Hf He.
  assert (Hsec : sec <> []) by (intros ->; apply Hss; reflexivity).
  assert (Hav1 : avoids (L "]") name).
  { eapply avoids_weaken; [|exact Hav]. intros c [<-|[]]. left. reflexivity. }
  destruct (process_embeds_between above below (name ++ L "#" ++ sec) p) as (lvl & n & ->).
  - exact Hpl.
  - destruct name; [congruence|discriminate].
  - apply Forall_app. split; [exact Hav1|]. apply Forall_app. split; [|exact Hsa].
    repeat constructor. vm_compute. intuition discriminate.
  - apply Forall_app. split; [exact Hol|]. apply Forall_app. split; [|exact Hsl].
    repeat constructor. discriminate.
  - rewrite (resolve_embed_section _ filename section lvl n p filepath); try assumption.
    + destruct (fst (extract_section (file_body filepath) section new_stats)); reflexivity.
    + apply parse_embed_section; assumption.
Qed.

(** [Note.md] of the second vault has a section [Part] and no section [Absent]. *)
Lemma embed_of_section_witness :
  process_embeds (env := Notebook.vault_env) (L "![[Note#Part]]") Notebook.parser0
  = (L "inside", after_expand (L "Note") (L "Note#Part") Notebook.parser0)
  /\ process_embeds (env := Notebook.vault_env) (L "![[Note#Absent]]") Notebook.parser0
     = (L "[MISSING SECTION: Note#Absent]",
        after_missing_section (L "Note") (L "Absent") (L "Note#Absent") Notebook.parser0)
  /\ warnings (stats (after_missing_section (L "Note") (L "Absent") (L "Note#Absent")
                        Notebook.parser0))
     = [L "Section 'Absent' not found"].
Proof.
  pose proof (embed_of_section Notebook.vault_env Notebook.parser0 [] []
                (L "Note") (L "Part") (L "/nb/Note.md")) as H1.
  pose proof (embed_of_section Notebook.vault_env Notebook.parser0 [] []
                (L "Note") (L "Absent") (L "/nb/Note.md")) as H2.
  assert (E1 : fst (extract_section (file_body (env := Notebook.vault_env) (L "/nb/Note.md"))
                      (L "Part") new_stats) = Some (L "inside"))
    by (vm_compute; reflexivity).
  assert (E2 : fst (extract_section (file_body (env := Notebook.vault_env) (L "/nb/Note.md"))
                      (L "Absent") new_stats) = None)
    by (vm_compute; reflexivity).
  split; [|split; [|reflexivity]].
  - change (L "![[Note#Part]]")
      with (join_lines ([] ++ embed_token (L "Note" ++ L "#" ++ L "Part") :: [])).
    rewrite H1.
    + change (strip (L "Part")) with (L "Part"). rewrite E1. reflexivity.
    + constructor.
    + discriminate.
    + apply avoids_lit. reflexivity.
    + apply one_line_lit. reflexivity.
    + apply avoids_lit. reflexivity.
    + apply one_line_lit. reflexivity.
    + discriminate.
    + vm_compute. set_solver.
    + reflexivity.
    + reflexivity.
  - change (L "![[Note#Absent]]")
      with (join_lines ([] ++ embed_token (L "Note" ++ L "#" ++ L "Absent") :: [])).
    rewrite H2.
    + change (strip (L "Absent")) with (L "Absent"). rewrite E2. reflexivity.
    + constructor.
    + discriminate.
    + apply avoids_lit. reflexivity.
    + apply one_line_lit. reflexivity.
    + apply avoids_lit. reflexivity.
    + apply one_line_lit. reflexivity.
    + discriminate.
    + vm_compute. set_solver.
    + reflexivity.
    + reflexivity.
Defined.

(** X5.  For every text, demoting the headings by [d] levels and then by
    [e] levels is demoting them by [d + e] levels, for [d] and [e] that are
    not negative. *)
Theorem demote_headings_add_up (s : str) (d e : Z) :
  (0 <= d)%Z -> (0 <= e)%Z ->
  demote_headings (demote_headings s d) e = demote_headings s (d + e).
Proof. apply demote_headings_compose. Qed.

(** Demoting by one level and then by two: the fifth-level heading stops at
    the sixth level. *)
Lemma demote_headings_add_up_witness :
  demote_headings (demote_headings (L "# A" ++ NL ++ L "text" ++ NL ++ L "##### B") 1) 2
  = L "#### A" ++ NL ++ L "text" ++ NL ++ L "###### B".
Proof.
  rewrite (demote_headings_add_up (L "# A" ++ NL ++ L "text" ++ NL ++ L "##### B") 1 2) by lia.
  vm_compute. reflexivity.
Defined.

(** X6.  A file that exists and whose text is the rule [---], a block, the
    rule again and a body, each on lines of their own, where no line of the
    block starts with the rule: where the loader accepts the block the result
    is the loaded front matter and the body, and where it refuses the block
    the result is the empty front matter and the whole text, rule lines and
    block included.  Nothing is recorded either way. *)
Theorem front_matter_is_split_off (env : Environment) (filepath : Path)
    (s : CompilationStats) (block body : str) :
  path_exists filepath = true ->
  read_text filepath = rule ++ NL ++ block ++ NL ++ rule ++ NL ++ body ->
  ~ occurs (NL ++ rule) block ->
  read_file filepath s
  = (match yaml_safe_load block with
     | Some frontmatter => (frontmatter, body)
     | None => (empty_dict, read_text filepath)
     end, s).
Proof.
  intros He Ht Hno. unfold read_file. rewrite He. cbn [negb]. rewrite Ht.
  change (startswith (L "---" ++ NL) (rule ++ NL ++ block ++ NL ++ rule ++ NL ++ body))
    with (startswith (L "---" ++ NL)
            ((L "---" ++ NL) ++ block ++ NL ++ rule ++ NL ++ body)).
  unfold startswith. rewrite strip_prefix_app.
  change (drop 4 (rule ++ NL ++ block ++ NL ++ rule ++ NL ++ body))
    with (block ++ (NL ++ L "---" ++ NL) ++ body).
  rewrite find_sub_first by (apply closing_line_first; exact Hno).
  destruct (yaml_safe_load block); reflexivity.
Qed.

(** [Paper.md] of the second vault. *)
Lemma front_matter_is_split_off_witness :
  read_file (env := Notebook.vault_env) (L "/nb/Paper.md") new_stats
  = (([(L "title", L "Paper")], L "Body text"), new_stats).
Proof.
  apply (front_matter_is_split_off Notebook.vault_env (L "/nb/Paper.md") new_stats
           (L "title: Paper") (L "Body text")).
  - reflexivity.
  - reflexivity.
  - apply not_occurs. reflexivity.
Defined.

(** X7.  A file that exists and whose text is the rule [---], a line break
    and a rest in which the closing line (a line break, the rule and a line
    break) does not occur: the whole text is the body and the front matter is
    empty.  This is so for a front matter that is never closed, and for an
    empty block, where the closing rule follows the opening one at once. *)
Theorem unclosed_front_matter_is_body (env : Environment) (filepath : Path)
    (s : CompilationStats) (rest : str) :
  path_exists filepath = true ->
  read_text filepath = rule ++ NL ++ rest ->
  ~ occurs (NL ++ rule ++ NL) rest ->
  read_file filepath s = ((empty_dict, read_text filepath), s).
Proof.
  intros He Ht Hno. unfold read_file. rewrite He. cbn [negb]. rewrite Ht.
  unfold rule in *.
  change (drop 4 (L "---" ++ NL ++ rest)) with rest.
  rewrite (find_sub_none _ rest Hno).
  destruct (startswith _ _); reflexivity.
Qed.

(** [Draft.md] of the second vault, whose block is empty: the two rule lines
    stay in the body. *)
Lemma unclosed_front_matter_is_body_witness :
  read_file (env := Notebook.vault_env) (L "/nb/Draft.md") new_stats
  = (([], L "---" ++ NL ++ L "---" ++ NL ++ L "Body text"), new_stats).
Proof.
  apply (unclosed_front_matter_is_body Notebook.vault_env (L "/nb/Draft.md") new_stats
           (L "---" ++ NL ++ L "Body text")).
  - reflexivity.
  - reflexivity.
  - apply not_occurs. reflexivity.
Defined.

(** X8.  For a file that exists [read_file] records nothing, and the body
    it returns is the end of the text of the file: only a beginning is ever
    removed. *)
Theorem read_file_keeps_text (env : Environment) (filepath : Path) (s : CompilationStats) :
  path_exists filepath = true ->
  snd (read_file filepath s) = s
  /\ exists removed, read_text filepath = removed ++ snd (fst (read_file filepath s)).
Proof.
  intros He. unfold read_file. rewrite He. cbn [negb].
  destruct (startswith _ _) eqn:Es; [|split; [reflexivity|exists []; reflexivity]].
  destruct (find_sub _ _) as [[block rest]|] eqn:Ef;
    [|split; [reflexivity|exists []; reflexivity]].
  destruct (yaml_safe_load block); [|split; [reflexivity|exists []; reflexivity]].
  split; [reflexivity|]. cbn [fst snd].
  apply find_sub_sound in Ef.
  exists (take 4 (read_text filepath) ++ block ++ NL ++ L "---" ++ NL).
  rewrite <- (take_drop 4 (read_text filepath)) at 1.
  rewrite Ef. rewrite <- !app_assoc. reflexivity.
Qed.

(** [Paper.md] of the second vault. *)
Lemma read_file_keeps_text_witness :
  snd (read_file (env := Notebook.vault_env) (L "/nb/Paper.md") new_stats) = new_stats
  /\ exists removed,
       read_text (Environment := Notebook.vault_env) (L "/nb/Paper.md")
       = removed ++ snd (fst (read_file (env := Notebook.vault_env) (L "/nb/Paper.md") new_stats)).
Proof.
  apply (read_file_keeps_text Notebook.vault_env (L "/nb/Paper.md") new_stats).
  reflexivity.
Defined.

(** X9.  Where the translation to LaTeX returns, the converter has the
    same vault, output directory, configuration and label table as before,
    and the same embedded-files set and section counter; the label counter
    and the internal-link counter have not gone down, no image has left the
    copied-images set, and the earlier file operations and warnings stay
    first in their lists.  In particular the label table, which starts empty,
    is never filled. *)
Theorem translation_keeps_records (env : Environment) (content out : str)
    (c c' : LatexConverter) :
  convert_markdown_to_latex content c = Some (out, c') ->
  c_vault_path c' = c_vault_path c
  /\ output_dir c' = output_dir c
  /\ config c' = config c
  /\ section_labels c' = section_labels c
  /\ label_counter c <= label_counter c'
  /\ fs_ops c `prefix_of` fs_ops c'
  /\ files_embedded (c_stats c') = files_embedded (c_stats c)
  /\ sections_processed (c_stats c') = sections_processed (c_stats c)
  /\ images_copied (c_stats c) ⊆ images_copied (c_stats c')
  /\ internal_links (c_stats c) <= internal_links (c_stats c')
  /\ warnings (c_stats c) `prefix_of` warnings (c_stats c').
Proof.
  intros H. apply convert_markdown_grows in H.
  destruct H as (H1 & H2 & H3 & H4 & H5 & H6 & (_ & _ & H7 & H8 & H9) & H10 & H11).
  repeat split; assumption.
Qed.

(** A heading and a link to an embedded file: the label table is still empty
    and the embedded-files set is what it was. *)
Lemma translation_keeps_records_witness :
  let c := Example.converter0 in
  let c' := c_incr_label_counter c in
  convert_markdown_to_latex (env := Example.vault_env) (L "# My Big Title") c
  = Some (tex "section{My Big Title}" ++ tex "label{sec:my" ++ tex "textit{big}title}", c')
  /\ section_labels c' = section_labels c
  /\ files_embedded (c_stats c') = files_embedded (c_stats c)
  /\ label_counter c <= label_counter c'.
Proof.
  intros c c'.
  assert (E : convert_markdown_to_latex (env := Example.vault_env) (L "# My Big Title") c
              = Some (tex "section{My Big Title}" ++ tex "label{sec:my"
                        ++ tex "textit{big}title}", c')).
  { apply (heading_line_translation (env := Example.vault_env) c 1 (L "section")
             (L "My") (L "Big") (L "Title")).
    - reflexivity.
    - split; [discriminate|]. each ltac:(split; [reflexivity|discriminate]).
    - split; [discriminate|]. each ltac:(split; [reflexivity|discriminate]).
    - split; [discriminate|]. each ltac:(split; [reflexivity|discriminate]). }
  split; [exact E|].
  destruct (translation_keeps_records Example.vault_env _ _ c c' E)
    as (_ & _ & _ & H4 & H5 & _ & H7 & _).
  split; [exact H4|]. split; [exact H7|exact H5].
Defined.

(** X10.  A text without any of the characters [!], [#], [*], [[], [^],
    [_], the back-tick and [|], and in which no line starts, after its leading
    whitespace, with [-], [+] or a digit, is translated to itself, and the
    converter is unchanged.  The characters that LaTeX reads as commands
    (percent, ampersand, dollar, braces, tilde, backslash) are therefore not
    escaped. *)
Theorem plain_text_is_not_escaped (env : Environment) (s : str) (c : LatexConverter) :
  avoids (L "!#*[^_`|") s ->
  Forall (fun l => ~ list_start l) (split_lines s) ->
  convert_markdown_to_latex s c = Some (s, c).
Proof. apply translate_plain. Qed.

(** Two lines with a percent sign, an ampersand, a dollar, braces, a tilde and
    a backslash. *)
Lemma plain_text_is_not_escaped_witness :
  convert_markdown_to_latex (env := Example.vault_env)
    (L "About 50% of A & B cost $5 {x} ~ \ (1. maybe)." ++ NL ++ L "  second - line + more")
    Example.converter0
  = Some (L "About 50% of A & B cost $5 {x} ~ \ (1. maybe)." ++ NL ++ L "  second - line + more",
          Example.converter0).
Proof.
  apply (plain_text_is_not_escaped Example.vault_env).
  - apply avoids_lit. reflexivity.
  - compute_lines. each ltac:(apply not_list_start; reflexivity).
Defined.

(** X11.  A document that is one heading line whose title is three words
    [a b d] separated by single spaces: the translation is the sectioning
    command of the rank around the title, followed by a label in which the
    middle word has been put in italics, [sec:a\textit{b}d] in lower case.
    The label [sec:a_b_d] that the heading pass writes has two underscores,
    which the emphasis pass, running later, reads as an emphasis marker. *)
Theorem heading_label_is_italicised (env : Environment) (c : LatexConverter)
    (n : nat) (cmd a b d : str) :
  heading_map n = Some cmd ->
  word a -> word b -> word d ->
  convert_markdown_to_latex (times "#" n ++ L " " ++ a ++ L " " ++ b ++ L " " ++ d) c
  = Some (backslash :: cmd ++ L "{" ++ a ++ L " " ++ b ++ L " " ++ d ++ L "}"
            ++ tex "label{sec:" ++ lower a ++ tex "textit{" ++ lower b ++ L "}"
            ++ lower d ++ L "}",
          c_incr_label_counter c).
Proof. apply heading_line_translation. Qed.

(** The heading [## My Big Title]. *)
Lemma heading_label_is_italicised_witness :
  convert_markdown_to_latex (env := Example.vault_env) (L "## My Big Title") Example.converter0
  = Some (tex "subsection{My Big Title}" ++ tex "label{sec:my" ++ tex "textit{big}title}",
          c_incr_label_counter Example.converter0).
Proof.
  apply (heading_label_is_italicised Example.vault_env Example.converter0 2 (L "subsection")
           (L "My") (L "Big") (L "Title")).
  - reflexivity.
  - split; [discriminate|]. each ltac:(split; [reflexivity|discriminate]).
  - split; [discriminate|]. each ltac:(split; [reflexivity|discriminate]).
  - split; [discriminate|]. each ltac:(split; [reflexivity|discriminate]).
Defined.

(** X12.  A link [[[name]]] to an embedded file whose name has an upper-case
    letter, translated with an empty label table, refers to the label [sec:]
    followed by the name with underscores for spaces, the case kept; and no
    heading, whatever its title, has this label, since the label of a heading
    is in lower case. *)
Theorem link_label_matches_no_heading (env : Environment) (c : LatexConverter) (name : str) :
  link_name name ->
  name ∈ files_embedded (c_stats c) ->
  section_labels c = ∅ ->
  lower name <> name ->
  let target := L "sec:" ++ replace_chr " " (L "_") name in
  convert_wikilinks (link_token name) c
  = (tex "hyperref[" ++ target ++ L "]{" ++ name ++ L "}",
     c_with_stats (incr_internal_links (c_stats c)) c)
  /\ forall title, heading_label title <> target.
Proof.
  intros Hn Hin Hlab Hl target. split.
  - rewrite convert_wikilinks_internal by assumption.
    unfold internal_ref. rewrite Hlab, lookup_empty. reflexivity.
  - intros title. apply link_target_no_heading. exact Hl.
Qed.

(** The link [[[Intro]]] refers to [sec:Intro]; the heading [Intro] has the
    label [sec:intro]. *)
Lemma link_label_matches_no_heading_witness :
  let c := new_converter (env := Example.vault_env) (L "/vault") (L "/out")
             (add_file_embedded (L "Intro") new_stats) Example.cfg in
  convert_wikilinks (L "[[Intro]]") c
  = (tex "hyperref[sec:Intro]{Intro}", c_with_stats (incr_internal_links (c_stats c)) c)
  /\ heading_label (L "Intro") = L "sec:intro".
Proof.
  intros c.
  destruct (link_label_matches_no_heading Example.vault_env c (L "Intro")) as [H _].
  - split; [discriminate|]. split; [apply avoids_lit; reflexivity|reflexivity].
  - vm_compute. set_solver.
  - reflexivity.
  - discriminate.
  - split; [exact H|reflexivity].
Defined.

(** X13.  A link with all its parts, [[[name#section|text]]].  Its text is
    the display text, stripped.  Where neither the key nor the file name is
    in the embedded-files set the link is external: with the URI option it
    opens the note application on the file and the heading, with [%20] for
    each space, and without the option it points to the file, the section
    being dropped.  Where the file name is in the set and the label table is
    empty, the link is internal and refers to the label of the file: the
    section plays no part in it. *)
Theorem link_with_section_and_text (env : Environment) (c : LatexConverter)
    (name sec text : str) :
  name <> [] -> avoids (L "]#|") name ->
  avoids (L "]|") sec -> strip sec <> [] ->
  avoids (L "]") text -> strip text <> [] ->
  let filename := strip name in
  let section := strip sec in
  let shown := strip text in
  (filename ++ L "#" ++ section ∉ files_embedded (c_stats c) ->
   filename ∉ files_embedded (c_stats c) ->
   convert_wikilinks (full_link name sec text) c
   = (tex "href{"
        ++ (if obsidian_uri (config c)
            then L "obsidian://open?vault=" ++ vault_name (config c)
                   ++ L "&file=" ++ uri_part filename
                   ++ L "&heading=" ++ uri_part section
            else L "file://" ++ path_str (path_div (c_vault_path c) (filename ++ L ".md")))
        ++ L "}{" ++ shown ++ L "}", c))
  /\ (filename ∈ files_embedded (c_stats c) ->
      section_labels c = ∅ ->
      convert_wikilinks (full_link name sec text) c
      = (tex "hyperref[sec:" ++ replace_chr " " (L "_") filename ++ L "]{" ++ shown ++ L "}",
         c_with_stats (incr_internal_links (c_stats c)) c)).
Proof.
  intros Hn1 Hn2 Hs2 Hs1 Ht2 Ht1 filename section shown.
  rewrite full_link_parts by assumption.
  assert (Hs : exists a s', sec = a :: s') by (destruct sec; [exfalso; apply Hs1; reflexivity|eauto]).
  assert (Ht : exists a t', text = a :: t') by (destruct text; [exfalso; apply Ht1; reflexivity|eauto]).
  destruct Hs as (a1 & s' & Es). destruct Ht as (a2 & t' & Et).
  assert (Hsec : stripped_group {| m_text := full_link name sec text;
                    m_caps := [(3, text); (2, sec); (1, name)];
                    m_rest := [] |} 2 = Some section).
  { unfold stripped_group, group, section. cbn [m_caps cap_lookup Nat.eqb].
    rewrite Es. reflexivity. }
  assert (Htxt : stripped_group {| m_text := full_link name sec text;
                    m_caps := [(3, text); (2, sec); (1, name)];
                    m_rest := [] |} 3 = Some shown).
  { unfold stripped_group, group, shown. cbn [m_caps cap_lookup Nat.eqb].
    rewrite Et. reflexivity. }
  assert (Htr1 : truthy (Some section) = true).
  { unfold section. destruct (strip sec); [congruence|reflexivity]. }
  assert (Htr2 : truthy (Some shown) = true).
  { unfold shown. destruct (strip text); [congruence|reflexivity]. }
  assert (Hkey : make_key filename (Some section) = filename ++ L "#" ++ section).
  { unfold section. destruct (strip sec); [congruence|reflexivity]. }
  unfold replace_link. cbv zeta. rewrite Hsec, Htxt.
  change (strip (group_str _ 1)) with filename.
  rewrite Htr1, Htr2, Hkey.
  cbn [default from_option]. unfold id.
  split.
  - intros Hk Hf.
    rewrite (bool_decide_eq_false_2 _ Hk), (bool_decide_eq_false_2 _ Hf). cbn [orb].
    destruct (obsidian_uri (config c)); [|reflexivity].
    unfold uri_part. rewrite <- !app_assoc. reflexivity.
  - intros Hf Hlab.
    rewrite (bool_decide_eq_true_2 _ Hf), orb_true_r.
    cbn [section_labels c_with_stats]. rewrite Hlab, lookup_empty. reflexivity.
Qed.

(** The same link translated as an external link with and without the URI
    option, and as an internal one. *)
Lemma link_with_section_and_text_witness :
  convert_wikilinks (env := Example.vault_env) (L "[[My Note# Part One |see here]]")
    Example.converter0
  = (tex "href{obsidian://open?vault=MyVault&file=My%20Note&heading=Part%20One}{see here}",
     Example.converter0)
  /\ convert_wikilinks (env := Notebook.vault_env) (L "[[My Note# Part One |see here]]")
       Notebook.converter0
     = (tex "href{file:///nb/My Note.md}{see here}", Notebook.converter0)
  /\ (let c := new_converter (env := Example.vault_env) (L "/vault") (L "/out")
                 (add_file_embedded (L "My Note") new_stats) Example.cfg in
      convert_wikilinks (L "[[My Note# Part One |see here]]") c
      = (tex "hyperref[sec:My_Note]{see here}",
         c_with_stats (incr_internal_links (c_stats c)) c)).
Proof.
  split; [|split].
  - destruct (link_with_section_and_text Example.vault_env Example.converter0
                (L "My Note") (L " Part One ") (L "see here")) as [H _];
      try discriminate; try (apply avoids_lit; reflexivity).
    apply H; vm_compute; set_solver.
  - destruct (link_with_section_and_text Notebook.vault_env Notebook.converter0
                (L "My Note") (L " Part One ") (L "see here")) as [H _];
      try discriminate; try (apply avoids_lit; reflexivity).
    apply H; vm_compute; set_solver.
  - intros c.
    destruct (link_with_section_and_text Example.vault_env c
                (L "My Note") (L " Part One ") (L "see here")) as [_ H];
      try discriminate; try (apply avoids_lit; reflexivity).
    apply H; [vm_compute; set_solver|reflexivity].
Defined.

(** X14.  An image in the standard form, [![alt](target.png)], with its
    target on one line, in a text without other exclamation marks.  The file
    is looked up in the attachments folder of the vault under the target,
    stripped.  Where it does not exist, the image becomes the marker
    [[MISSING IMAGE: name]] and one warning is recorded.  Where it exists,
    the folder [images] of the output is made and the file is copied into it
    under the same name, folder part included: where both writes return, the
    image becomes an [\includegraphics] of [images/] and that name, and the
    name is recorded; where one of them raises, the pass raises.  The
    alternative text is dropped. *)
Theorem standard_image_translation (env : Environment) (c : LatexConverter)
    (x alt target z : str) :
  ~ In "!"%char x -> avoids (L "![]") alt ->
  target <> [] -> avoids (L "!)") target -> one_line target -> ~ In "!"%char z ->
  let filename := strip (target ++ L ".png") in
  let source := path_div (path_div (c_vault_path c) (attachments_folder (config c))) filename in
  let images := path_div (output_dir c) (L "images") in
  let copy := path_div images filename in
  convert_images (x ++ image_token alt (target ++ L ".png") ++ z) c
  = if negb (path_exists source)
    then Some (x ++ L "[MISSING IMAGE: " ++ filename ++ L "]" ++ z,
               c_with_stats (add_warning (L "Image not found: " ++ filename) (c_stats c)) c)
    else if mkdir_returns (fs_ops c) images
            && copy2_returns (fs_ops c ++ [Mkdir images]) source copy
    then Some (x ++ tex "includegraphics[max width=" ++ tex "textwidth]{images/"
                 ++ filename ++ L "}" ++ z,
               c_with_stats (add_image_copied filename (c_stats c))
                 (c_log [Copy2 source copy] (c_log [Mkdir images] c)))
    else None.
Proof.
  intros Hx Ha Hne Ht Hol Hz filename source images copy.
  rewrite convert_images_standard by assumption.
  unfold replace_image, group_str, group.
  cbn [m_caps cap_lookup Nat.eqb default from_option]. unfold id.
  fold filename. fold source. destruct (path_exists source); cbn [negb].
  - cbv zeta. fold images. fold copy.
    destruct (mkdir_returns (fs_ops c) images); cbn [negb andb]; [|reflexivity].
    change (fs_ops (c_log [Mkdir images] c)) with (fs_ops c ++ [Mkdir images]).
    destruct (copy2_returns (fs_ops c ++ [Mkdir images]) source copy); cbn [negb];
      [|reflexivity].
    rewrite <- !app_assoc. reflexivity.
  - rewrite <- !app_assoc. reflexivity.
Qed.

(** Three images in the second vault: one in the attachments folder itself,
    one in a folder of it, for which the output has no folder, and one that
    does not exist. *)
Lemma standard_image_translation_witness :
  convert_images (env := Notebook.vault_env)
    (L "See ![a chart]( chart.png) now.") Notebook.converter0
  = Some (L "See " ++ tex "includegraphics[max width=" ++ tex "textwidth]{images/chart.png}"
            ++ L " now.",
          c_with_stats (add_image_copied (L "chart.png") new_stats)
            (c_log (env := Notebook.vault_env)
               [Copy2 (L "/nb/attachments/chart.png") (L "/out/images/chart.png")]
               (c_log (env := Notebook.vault_env) [Mkdir (L "/out/images")]
                  Notebook.converter0)))
  /\ convert_images (env := Notebook.vault_env)
       (L "See ![a plot]( fig/plot.png) now.") Notebook.converter0
     = None
  /\ convert_images (env := Notebook.vault_env) (L "![none](gone.png)") Notebook.converter0
     = Some (L "[MISSING IMAGE: gone.png]",
             c_with_stats (add_warning (L "Image not found: gone.png") new_stats)
               Notebook.converter0).
Proof.
  split; [|split].
  - etransitivity;
      [apply (standard_image_translation Notebook.vault_env Notebook.converter0
                (L "See ") (L "a chart") (L " chart") (L " now."))|].
    + apply notin_lit. reflexivity.
    + apply avoids_lit. reflexivity.
    + discriminate.
    + apply avoids_lit. reflexivity.
    + apply one_line_lit. reflexivity.
    + apply notin_lit. reflexivity.
    + replace (path_exists (Environment := Notebook.vault_env)
                 (path_div (path_div (c_vault_path Notebook.converter0)
                              (attachments_folder (config Notebook.converter0)))
                    (strip (L " chart" ++ L ".png")))) with true
        by (vm_compute; reflexivity).
      reflexivity.
  - etransitivity;
      [apply (standard_image_translation Notebook.vault_env Notebook.converter0
                (L "See ") (L "a plot") (L " fig/plot") (L " now."))|].
    + apply notin_lit. reflexivity.
    + apply avoids_lit. reflexivity.
    + discriminate.
    + apply avoids_lit. reflexivity.
    + apply one_line_lit. reflexivity.
    + apply notin_lit. reflexivity.
    + replace (path_exists (Environment := Notebook.vault_env)
                 (path_div (path_div (c_vault_path Notebook.converter0)
                              (attachments_folder (config Notebook.converter0)))
                    (strip (L " fig/plot" ++ L ".png")))) with true
        by (vm_compute; reflexivity).
      reflexivity.
  - etransitivity;
      [apply (standard_image_translation Notebook.vault_env Notebook.converter0
                [] (L "none") (L "gone") [])|].
    + apply notin_lit. reflexivity.
    + apply avoids_lit. reflexivity.
    + discriminate.
    + apply avoids_lit. reflexivity.
    + apply one_line_lit. reflexivity.
    + apply notin_lit. reflexivity.
    + replace (path_exists (Environment := Notebook.vault_env)
                 (path_div (path_div (c_vault_path Notebook.converter0)
                              (attachments_folder (config Notebook.converter0)))
                    (strip (L "gone" ++ L ".png")))) with false
        by (vm_compute; reflexivity).
      reflexivity.
Defined.

(** X15.  An image in the standard form whose target starts with a line
    break: the image pass raises, and so does the whole translation, rather
    than returning a text. *)
Theorem image_target_with_line_break_raises (env : Environment) (c : LatexConverter)
    (x alt path z : str) :
  avoids (L "!^|") x -> avoids (L "!^|[]") alt ->
  avoids (L "!^|)") path -> avoids (L "!^|") z ->
  let content := x ++ image_token alt (NL ++ path ++ L ".png") ++ z in
  convert_images content c = None
  /\ convert_markdown_to_latex content c = None.
Proof.
  intros Hx Ha Hp Hz content.
  assert (Hi : convert_images content c = None).
  { apply convert_images_raises.
    - eapply avoids_not_In; [|exact Hx]. simpl. tauto.
    - eapply avoids_weaken; [|exact Ha]. simpl. tauto.
    - eapply avoids_weaken; [|exact Hp]. simpl. tauto.
    - eapply avoids_not_In; [|exact Hz]. simpl. tauto. }
  split; [exact Hi|].
  assert (Hall : avoids (L "^|") content).
  { unfold content, image_token. repeat apply avoids_app;
      try (apply avoids_lit; reflexivity);
      (eapply avoids_weaken; [|eassumption]); simpl; tauto. }
  unfold convert_markdown_to_latex.
  rewrite convert_footnotes_plain by (eapply avoids_not_In; [|exact Hall]; simpl; tauto).
  rewrite convert_tables_plain by (eapply avoids_not_In; [|exact Hall]; simpl; tauto).
  rewrite Hi. reflexivity.
Qed.

(** The target of the image starts on the next line. *)
Lemma image_target_with_line_break_raises_witness :
  convert_markdown_to_latex (env := Notebook.vault_env)
    (L "See ![a plot](" ++ NL ++ L "fig/plot.png) now.") Notebook.converter0
  = None.
Proof.
  destruct (image_target_with_line_break_raises Notebook.vault_env Notebook.converter0
              (L "See ") (L "a plot") (L "fig/plot") (L " now.")) as [_ H].
  - apply avoids_lit. reflexivity.
  - apply avoids_lit. reflexivity.
  - apply avoids_lit. reflexivity.
  - apply avoids_lit. reflexivity.
  - exact H.
Defined.

(** X16.  A text with a footnote reference [[^key]] inside a line and, as
    its last line, the definition [[^key]: text]: the reference becomes
    [\footnote{text}], the definition line is emptied, and the line break
    before it stays.  The text around the reference has neither [[] nor
    [^]. *)
Theorem footnote_is_resolved (pre key mid ws text : str) :
  pre <> [] -> avoids (L "[^" ++ NL) pre ->
  key <> [] -> Forall (fun c => is_word c = true) key ->
  avoids (L "[^") mid ->
  Forall (fun c => is_space c = true) ws ->
  title_text text -> avoids (L "[^") text ->
  convert_footnotes (pre ++ footnote_mark key ++ mid ++ NL ++ footnote_line key ws text)
  = pre ++ tex "footnote{" ++ text ++ L "}" ++ mid ++ NL.
Proof.
  intros Hpne Hpre Hkne Hk Hmid Hws Ht Htext.
  destruct (word_not_bracket key Hk) as (Hk1 & Hk2 & Hk3).
  assert (Hp1 : ~ In "["%char pre) by (eapply avoids_not_In; [|exact Hpre]; simpl; tauto).
  assert (Hp2 : ~ In "^"%char pre) by (eapply avoids_not_In; [|exact Hpre]; simpl; tauto).
  assert (Hp3 : one_line pre) by (eapply avoids_one_line; [|exact Hpre]; simpl; tauto).
  assert (Hm1 : ~ In "["%char mid) by (eapply avoids_not_In; [|exact Hmid]; simpl; tauto).
  assert (Hm2 : ~ In "^"%char mid) by (eapply avoids_not_In; [|exact Hmid]; simpl; tauto).
  assert (Ht1 : ~ In "["%char text) by (eapply avoids_not_In; [|exact Htext]; simpl; tauto).
  assert (Ht2 : ~ In "^"%char text) by (eapply avoids_not_In; [|exact Htext]; simpl; tauto).
  assert (Hw1 : ~ In "["%char ws /\ ~ In "^"%char ws).
  { rewrite Forall_forall in Hws.
    split; intros Hin; apply list_elem_of_In in Hin; apply Hws in Hin; discriminate. }
  destruct Hw1 as [Hw1 Hw2].
  pose (P := pre ++ footnote_mark key ++ mid ++ NL).
  pose (D := footnote_line key ws text).
  assert (Hcontent : pre ++ footnote_mark key ++ mid ++ NL ++ footnote_line key ws text = P ++ D).
  { unfold P, D. rewrite <- !app_assoc. reflexivity. }
  unfold convert_footnotes. rewrite Hcontent.
  (* no inline footnote *)
  rewrite (re_sub_none Pat.footnote_inline).
  2:{ apply re_search_no_lead. change (lead Pat.footnote_inline) with (L "^[").
      intros Ho. unfold P, D, footnote_mark, footnote_line in Ho.
      replace ((pre ++ (L "[^" ++ key ++ L "]") ++ mid ++ NL) ++ L "[^" ++ key ++ L "]:" ++ ws ++ text)
        with ((pre ++ L "[") ++ "^"%char
                :: ((key ++ L "]" ++ mid ++ NL ++ L "[") ++ "^"%char
                      :: (key ++ L "]:" ++ ws ++ text))) in Ho
        by (rewrite <- !app_assoc; reflexivity).
      apply occurs_first in Ho as [(t & E)|Ho].
      - destruct key as [|k0 key]; [congruence|]. rewrite <- !app_assoc in E.
        injection E as -> _. apply Hk1. left. reflexivity.
      - apply occurs_first in Ho as [(t & E)|Ho].
        + destruct key as [|k0 key]; [congruence|].
          injection E as -> _. apply Hk1. left. reflexivity.
        + apply (occurs_In "^") in Ho; [|left; reflexivity].
          revert Ho. repeat apply notin_app; try assumption; apply notin_lit; reflexivity.
        + repeat apply notin_app; try assumption; apply notin_lit; reflexivity.
      - repeat apply notin_app; try assumption; apply notin_lit; reflexivity. }
  (* the definition is collected and its line removed *)
  assert (Hdefs : re_sub_st Pat.footnote_def
            (fun m (defs : gmap str str) => ([], <[group_str m 1 := group_str m 2]> defs))
            (P ++ D) ∅ = (P, <[key := text]> ∅)).
  { pose (X := L "^" ++ key ++ L "]" ++ mid ++ NL).
    assert (HX : ~ In "["%char X)
      by (unfold X; repeat apply notin_app; try assumption; apply notin_lit; reflexivity).
    replace (P ++ D) with (pre ++ "["%char :: (X ++ D))
      by (unfold P, X, footnote_mark; rewrite <- !app_assoc; reflexivity).
    unfold re_sub_st.
    rewrite (sub_scan_pass _ _ "[" (L "^") pre) by (reflexivity || assumption).
    rewrite sub_scan_miss
      by (apply footnote_def_bol; apply after_one_line; assumption).
    rewrite (sub_scan_pass _ _ "[" (L "^") X) by (reflexivity || assumption).
    rewrite (sub_scan_hit_all _ _ _ D {| m_text := D; m_caps := [(2, text); (1, key)]; m_rest := [] |}).
    - unfold group_str, group. cbn [m_caps cap_lookup Nat.eqb default from_option]. unfold id.
      unfold P, X, footnote_mark. rewrite <- !app_assoc. rewrite app_nil_r. reflexivity.
    - replace (after (Some "["%char) X) with (Some nl)
        by (unfold X; rewrite !app_assoc, after_app; reflexivity).
      pose proof (footnote_def_match key ws text Hkne Hk Hws Ht) as Hm.
      rewrite app_nil_r in Hm. exact Hm.
    - reflexivity.
    - discriminate.
    - apply (match_at_lead_end _ _ _ "["%char (L "^")). reflexivity. }
  rewrite Hdefs.
  (* the reference is replaced *)
  unfold re_sub, re_sub_st, P.
  rewrite (sub_scan_pass _ _ "[" (L "^") pre) by (reflexivity || assumption).
  erewrite sub_scan_hit; cycle 1.
  - apply footnote_ref_match; assumption.
  - reflexivity.
  - discriminate.
  - rewrite (sub_scan_pass_all _ _ "[" (L "^") (mid ++ NL))
      by (reflexivity || (repeat apply notin_app; try assumption; apply notin_lit; reflexivity)).
    cbn [fst]. unfold group_str, group. cbn [m_caps cap_lookup Nat.eqb default from_option].
    unfold id. rewrite lookup_insert_eq.
    rewrite <- ?app_assoc. reflexivity.
Qed.

(** A reference on the first of three lines. *)
Lemma footnote_is_resolved_witness :
  convert_footnotes (L "See[^n1] here." ++ NL ++ L "More." ++ NL ++ L "[^n1]: The note")
  = L "See" ++ tex "footnote{The note}" ++ L " here." ++ NL ++ L "More." ++ NL.
Proof.
  apply (footnote_is_resolved (L "See") (L "n1") (L " here." ++ NL ++ L "More.")
           (L " ") (L "The note")).
  - discriminate.
  - apply avoids_lit. reflexivity.
  - discriminate.
  - each ltac:(reflexivity).
  - apply avoids_lit. reflexivity.
  - each ltac:(reflexivity).
  - split; [reflexivity|apply one_line_lit; reflexivity].
  - apply avoids_lit. reflexivity.
Defined.

(** X17.  A run of table lines between lines that are no table lines is
    replaced by the result of [_convert_table] on the run, and the lines
    around it are unchanged; a run of a single table line is left as it
    is. *)
Theorem table_block_in_context (above block below : list str) :
  block <> [] ->
  Forall (fun l => is_table_line l = true /\ one_line l) block ->
  Forall (fun l => is_table_line l = false /\ one_line l) (above ++ below) ->
  convert_tables (join_lines (above ++ block ++ below))
  = join_lines (above ++ _convert_table block :: below)
  /\ (length block = 1 ->
      convert_tables (join_lines (above ++ block ++ below))
      = join_lines (above ++ block ++ below)).
Proof.
  intros Hne Hb Hr.
  pose proof (convert_tables_around above block below Hne Hb Hr) as H.
  split; [exact H|]. intros Hlen. rewrite H.
  destruct block as [|l [|l' block]]; try discriminate. reflexivity.
Qed.

(** A table of three lines between two lines of text, and a single table line. *)
Lemma table_block_in_context_witness :
  convert_tables (L "Results:" ++ NL ++ L "| a | b |" ++ NL ++ L "|---|---|" ++ NL
                    ++ L "| 1 | 2 |" ++ NL ++ L "Done.")
  = L "Results:" ++ NL ++ tabular [L "a"; L "b"] [[L "1"; L "2"]] ++ NL ++ L "Done."
  /\ convert_tables (L "x" ++ NL ++ L "| lonely | row |" ++ NL ++ L "y")
     = L "x" ++ NL ++ L "| lonely | row |" ++ NL ++ L "y".
Proof.
  destruct (table_block_in_context [L "Results:"]
              [L "| a | b |"; L "|---|---|"; L "| 1 | 2 |"] [L "Done."]) as [H1 _].
  { discriminate. }
  { each ltac:(split; [reflexivity|apply one_line_lit; reflexivity]). }
  { each ltac:(split; [reflexivity|apply one_line_lit; reflexivity]). }
  destruct (table_block_in_context [L "x"] [L "| lonely | row |"] [L "y"]) as [_ H2].
  { discriminate. }
  { each ltac:(split; [reflexivity|apply one_line_lit; reflexivity]). }
  { each ltac:(split; [reflexivity|apply one_line_lit; reflexivity]). }
  split.
  - etransitivity; [exact H1|]. vm_compute. reflexivity.
  - apply H2. reflexivity.
Defined.

(** X18.  A run of unordered list items between lines that do not start
    like a list item becomes one [itemize] environment: a line that opens it,
    one [\item] line for each item with the text of the item, and a line that
    closes it.  The indentation of an item and the marker it uses leave no
    trace, so nested items come out at one level. *)
Theorem itemize_block (above below : list str) (items : list (str * str)) :
  items <> [] ->
  Forall (fun it => bullet (fst it) (snd it)) items ->
  Forall (fun l => ~ list_start l /\ one_line l) (above ++ below) ->
  _convert_lists (join_lines (above ++ map fst items ++ below))
  = join_lines (above ++ list_begin (L "itemize")
                  :: map (fun it => item_line (snd it)) items
                  ++ list_end (Some (L "itemize")) :: below).
Proof.
  intros Hne Hit Hrest. apply Forall_app in Hrest as [Ha Hb].
  unfold _convert_lists. rewrite split_join_lines.
  - rewrite lists_loop_before by (eapply Forall_impl; [exact Ha|]; intros l [H _]; exact H).
    destruct items as [|[line text] items]; [congruence|].
    apply Forall_cons in Hit as [Hit1 Hit].
    cbn [map app fst snd lists_loop].
    destruct (bullet_match line text Hit1) as (m & -> & ->).
    cbn [negb]. rewrite lists_loop_items.
    + rewrite <- !app_assoc. reflexivity.
    + exact Hit.
    + eapply Forall_impl; [exact Hb|]. intros l [H _]. exact H.
  - destruct above; [destruct items; [congruence|discriminate]|discriminate].
  - apply Forall_app. split; [eapply Forall_impl; [exact Ha|]; intros l [_ H]; exact H|].
    apply Forall_app. split.
    + apply Forall_map. eapply Forall_impl; [exact Hit|].
      intros [line text] H. eapply bullet_one_line. exact H.
    + eapply Forall_impl; [exact Hb|]. intros l [_ H]. exact H.
Qed.

(** Three items with three markers, the second one indented. *)
Lemma itemize_block_witness :
  _convert_lists (L "Shopping:" ++ NL ++ L "- milk" ++ NL ++ L "    * whole  milk" ++ NL
                    ++ L "+ bread" ++ NL ++ L "Done.")
  = L "Shopping:" ++ NL ++ tex "begin{itemize}" ++ NL
      ++ L "  " ++ tex "item milk" ++ NL
      ++ L "  " ++ tex "item whole  milk" ++ NL
      ++ L "  " ++ tex "item bread" ++ NL
      ++ tex "end{itemize}" ++ NL ++ L "Done.".
Proof.
  pose proof (itemize_block [L "Shopping:"] [L "Done."]
                [(L "- milk", L "milk"); (L "    * whole  milk", L "whole  milk");
                 (L "+ bread", L "bread")]) as H.
  etransitivity; [apply H|reflexivity].
  - discriminate.
  - apply List.Forall_cons; [|apply List.Forall_cons; [|apply List.Forall_cons; [|apply List.Forall_nil]]].
    + exists [], "-"%char, (L " "). repeat split; try reflexivity; try discriminate.
      * constructor.
      * each ltac:(split; [reflexivity|discriminate]).
      * apply one_line_lit. reflexivity.
    + exists (L "    "), "*"%char, (L " "). repeat split; try reflexivity; try discriminate.
      * each ltac:(split; [reflexivity|discriminate]).
      * each ltac:(split; [reflexivity|discriminate]).
      * apply one_line_lit. reflexivity.
    + exists [], "+"%char, (L " "). repeat split; try reflexivity; try discriminate.
      * constructor.
      * each ltac:(split; [reflexivity|discriminate]).
      * apply one_line_lit. reflexivity.
  - each ltac:(split; [apply not_list_start; reflexivity|apply one_line_lit; reflexivity]).
Defined.

(** X19.  One span between two markers, on one line, in a text that has no
    other asterisk or underscore: between double asterisks or double
    underscores it becomes [\textbf], between single asterisks or single
    underscores [\textit].  The latter holds for underscores inside a word as
    well. *)
Theorem emphasis_span_translation (x y z : str) :
  avoids (L "*_") x -> avoids (L "*_") y -> avoids (L "*_") z ->
  y <> [] -> one_line y ->
  convert_emphasis (x ++ L "**" ++ y ++ L "**" ++ z) = x ++ tex "textbf{" ++ y ++ L "}" ++ z
  /\ convert_emphasis (x ++ L "*" ++ y ++ L "*" ++ z) = x ++ tex "textit{" ++ y ++ L "}" ++ z
  /\ convert_emphasis (x ++ L "__" ++ y ++ L "__" ++ z) = x ++ tex "textbf{" ++ y ++ L "}" ++ z
  /\ convert_emphasis (x ++ L "_" ++ y ++ L "_" ++ z) = x ++ tex "textit{" ++ y ++ L "}" ++ z.
Proof. apply emphasis_spans. Qed.

(** A bold span, and an identifier with two underscores. *)
Lemma emphasis_span_translation_witness :
  convert_emphasis (L "a **very good** day") = L "a " ++ tex "textbf{very good}" ++ L " day"
  /\ convert_emphasis (L "use snake_case_names here")
     = L "use snake" ++ tex "textit{case}" ++ L "names here".
Proof.
  destruct (emphasis_span_translation (L "a ") (L "very good") (L " day")) as (H1 & _).
  { apply avoids_lit. reflexivity. }
  { apply avoids_lit. reflexivity. }
  { apply avoids_lit. reflexivity. }
  { discriminate. }
  { apply one_line_lit. reflexivity. }
  destruct (emphasis_span_translation (L "use snake") (L "case") (L "names here"))
    as (_ & _ & _ & H4).
  { apply avoids_lit. reflexivity. }
  { apply avoids_lit. reflexivity. }
  { apply avoids_lit. reflexivity. }
  { discriminate. }
  { apply one_line_lit. reflexivity. }
  split; [exact H1|exact H4].
Defined.

(** X20.  The fenced-code pass on its own: a fence with a language tag and
    an interior without back-ticks, in a text without other back-ticks,
    becomes a [verbatim] environment around the interior, which is copied
    character for character; the language tag is dropped. *)
Theorem fenced_block_alone (x tag code z : str) :
  ~ In "`"%char x ->
  Forall (fun c => is_word c = true) tag ->
  ~ In "`"%char code ->
  ~ In "`"%char z ->
  _convert_code_blocks (x ++ L "```" ++ tag ++ NL ++ code ++ L "```" ++ z)
  = x ++ tex "begin{verbatim}" ++ NL ++ code ++ NL ++ tex "end{verbatim}" ++ z.
Proof.
  intros Hx Htag Hcode Hz. unfold _convert_code_blocks, re_sub, re_sub_st.
  rewrite (sub_scan_pass _ _ "`" (L "``") x) by (reflexivity || assumption).
  replace (L "```" ++ tag ++ NL ++ code ++ L "```" ++ z)
    with ((L "```" ++ tag ++ NL ++ code ++ L "```") ++ z)
    by (rewrite <- !app_assoc; reflexivity).
  erewrite sub_scan_hit; cycle 1.
  - rewrite <- !app_assoc. apply fence_match; assumption.
  - reflexivity.
  - discriminate.
  - rewrite (sub_scan_pass_all _ _ "`" (L "``") z) by (reflexivity || assumption).
    cbn [fst]. unfold replace_code, group_str, group.
    cbn [m_caps cap_lookup Nat.eqb default]. unfold id.
    rewrite <- !app_assoc. reflexivity.
Qed.

(** A block tagged [python] whose interior has an underscore and an asterisk. *)
Lemma fenced_block_alone_witness :
  _convert_code_blocks (L "Before" ++ NL ++ L "```python" ++ NL ++ L "x = a_b * 2" ++ NL
                          ++ L "```" ++ NL ++ L "After")
  = L "Before" ++ NL ++ tex "begin{verbatim}" ++ NL ++ L "x = a_b * 2" ++ NL ++ NL
      ++ tex "end{verbatim}" ++ NL ++ L "After".
Proof.
  apply (fenced_block_alone (L "Before" ++ NL) (L "python") (L "x = a_b * 2" ++ NL)
           (NL ++ L "After")).
  - apply notin_lit. reflexivity.
  - each ltac:(reflexivity).
  - apply notin_lit. reflexivity.
  - apply notin_lit. reflexivity.
Defined.

(** X21.  The run of [compile_document] up to the translated text, for a
    master file that exists, has no front matter and no markup (as in X10):
    the front matter is empty, the LaTeX body is the text of the file, and
    the converter is a fresh one, with no warning and no statistics. *)
Theorem plain_note_end_to_end (env : Environment) (cfg : Config) (out master : Path) :
  path_exists master = true ->
  startswith (L "---" ++ NL) (read_text master) = false ->
  avoids (L "!#*[^_`|") (read_text master) ->
  Forall (fun l => ~ list_start l) (split_lines (read_text master)) ->
  translate_master cfg out master
  = Some (empty_dict, read_text master, new_converter (cfg_vault_path cfg) out new_stats cfg).
Proof.
  intros He Hs Hav Hls. unfold translate_master.
  cbn [stats new_parser]. rewrite read_file_plain by assumption.
  rewrite process_embeds_plain.
  - cbn [stats with_stats]. rewrite translate_plain by assumption. reflexivity.
  - apply (avoids_no_occurrence "!" (L "!#*[^_`|")); [simpl; tauto|simpl; tauto|exact Hav].
Qed.

(** [Plain.md] of the second vault. *)
Lemma plain_note_end_to_end_witness :
  translate_master (env := Notebook.vault_env) Notebook.cfg (L "/out") (L "/nb/Plain.md")
  = Some ([], L "About 50% of the cost & more." ++ NL ++ L "Second line: a-b is $x$.",
          Notebook.converter0).
Proof.
  apply (plain_note_end_to_end Notebook.vault_env Notebook.cfg (L "/out") (L "/nb/Plain.md")).
  - reflexivity.
  - reflexivity.
  - apply avoids_lit. reflexivity.
  - compute_lines. each ltac:(apply not_list_start; reflexivity).
Defined.

(** X22.  The heading level that the embed pass computes for a line: among
    the lines up to and including that line, where a line that starts with
    one to six markers and a whitespace character is followed only by lines
    that do not start so, the level is the number of its markers; where no
    line starts so, it is 0.  The lines above that heading and the lines
    after the counted ones have no influence. *)
Theorem heading_level_is_that_of_nearest_heading
    (above below rest : list str) (n : nat) (c : ascii) (x : str) :
  1 <= n <= 6 -> is_space c = true ->
  Forall (fun l => ~ heading_start l) below ->
  get_current_heading_level (above ++ (times "#" n ++ c :: x) :: below ++ rest)
    (length above + 1 + length below) = n
  /\ get_current_heading_level (below ++ rest) (length below) = 0.
Proof.
  intros Hn Hc Hbelow. unfold get_current_heading_level. split.
  - replace (above ++ (times "#" n ++ c :: x) :: below ++ rest)
      with ((above ++ (times "#" n ++ c :: x) :: below) ++ rest)
      by (rewrite <- app_assoc; reflexivity).
    rewrite take_lines by (rewrite length_app; simpl; lia).
    rewrite rev_app_distr. cbn [rev]. rewrite <- app_assoc.
    rewrite nearest_heading_level_skip by exact Hbelow.
    cbn [app nearest_heading_level].
    destruct (heading_prefix_match n c x Hn Hc) as (m & -> & ->).
    apply times_length.
  - rewrite take_lines by reflexivity.
    rewrite <- (app_nil_r (rev below)).
    rewrite nearest_heading_level_skip by exact Hbelow. reflexivity.
Qed.

(** A tag without a space and a run of seven markers are no headings. *)
Lemma heading_level_is_that_of_nearest_heading_witness :
  get_current_heading_level
    [L "# Title"; L "## Part"; L "text"; L "#hashtag"; L "####### seven"; L "![[Note]]";
     L "# Later"] 6 = 2
  /\ get_current_heading_level [L "text"; L "#hashtag"; L "####### seven"; L "![[Note]]";
                                L "# Later"] 4 = 0.
Proof.
  apply (heading_level_is_that_of_nearest_heading [L "# Title"]
           [L "text"; L "#hashtag"; L "####### seven"; L "![[Note]]"] [L "# Later"]
           2 " "%char (L "Part")).
  - lia.
  - reflexivity.
  - each ltac:(apply not_heading_start; reflexivity).
Defined.

(** X23.  A template that exists and is made of texts and placeholders,
    where no text has two opening braces in a row or starts with one, and a
    front matter that is a dictionary: where the title, the author, the date
    and the macros have no two opening braces in a row and do not start with
    one either, the document is the template with every placeholder replaced
    by its value, as often as it stands there.  The title is [Document]
    without one, the author is empty without one and the date is [\today]
    without one; the macros are the text of [macros.tex] where it exists.
    The body is copied as it is, placeholders in it included. *)
Theorem document_fills_the_template (env : Environment) (meta : Metadata)
    (frontmatter : Yaml) (body template_name : str) (template_dir : Path)
    (ps : list Document.piece) :
  let value := fun h =>
    match h with
    | Document.Title => Document.document_title frontmatter
    | Document.Author => Document.document_author frontmatter
    | Document.Date => Document.document_date frontmatter
    | Document.Macros => Document.load_custom_macros template_dir
    | Document.Body => body
    end in
  path_exists (path_div template_dir (template_name ++ L ".tex")) = true ->
  read_text (path_div template_dir (template_name ++ L ".tex")) = Document.render ps ->
  Forall Document.calm_piece ps ->
  is_dict frontmatter = true ->
  Document.calm (value Document.Title) -> Document.calm (value Document.Author) ->
  Document.calm (value Document.Date) -> Document.calm (value Document.Macros) ->
  Document.create_latex_document frontmatter body template_name template_dir
  = Returns (Document.fill value ps).
Proof.
  intros value He Ht Hps Hd H1 H2 H3 H4.
  unfold Document.create_latex_document, Document.load_template.
  rewrite He, Ht, Hd. cbn [negb]. cbv zeta.
  change (L "{{title}}") with (Document.placeholder Document.Title).
  change (L "{{author}}") with (Document.placeholder Document.Author).
  change (L "{{date}}") with (Document.placeholder Document.Date).
  change (L "{{custom_macros}}") with (Document.placeholder Document.Macros).
  change (L "{{body}}") with (Document.placeholder Document.Body).
  rewrite replace_hole by exact Hps.
  rewrite replace_hole by (apply fill_one_calm; assumption).
  rewrite replace_hole by (repeat apply fill_one_calm; assumption).
  rewrite replace_hole by (repeat apply fill_one_calm; assumption).
  rewrite replace_hole by (repeat apply fill_one_calm; assumption).
  f_equal. apply (fill_all value).
Qed.

(** The template of the second vault, with a body that holds the placeholder of
    the title. *)
Lemma document_fills_the_template_witness :
  Document.create_latex_document (env := Notebook.vault_env) (meta := NotebookMeta.metadata)
    [(L "title", L "Paper")] (L "Body {{title}} text") (L "default") (L "/nb/templates")
  = Returns (tex "title{Paper}" ++ tex "author{}" ++ tex "date{" ++ tex "today}" ++ NL
               ++ tex "begin{document}" ++ NL ++ L "Body {{title}} text" ++ NL
               ++ tex "end{document}").
Proof.
  apply (document_fills_the_template Notebook.vault_env NotebookMeta.metadata
           [(L "title", L "Paper")] (L "Body {{title}} text") (L "default") (L "/nb/templates")
           [Document.Text (tex "title{"); Document.Hole Document.Title;
            Document.Text (L "}" ++ tex "author{"); Document.Hole Document.Author;
            Document.Text (L "}" ++ tex "date{"); Document.Hole Document.Date;
            Document.Text (L "}" ++ NL); Document.Hole Document.Macros;
            Document.Text (tex "begin{document}" ++ NL); Document.Hole Document.Body;
            Document.Text (NL ++ tex "end{document}")]).
  - reflexivity.
  - reflexivity.
  - each ltac:(first [exact I | split; [apply not_occurs; reflexivity|intros r; discriminate]]).
  - reflexivity.
  - split; [apply not_occurs; reflexivity|intros r; discriminate].
  - split; [apply not_occurs; reflexivity|intros r; discriminate].
  - split; [apply not_occurs; reflexivity|intros r; discriminate].
  - split; [apply not_occurs; reflexivity|intros r; discriminate].
Defined.

(** X24.  The argument loop reads a command line group by group, from the
    left: an option with the word after it as its value, whatever that word
    is; the watch flag; a word that is no option, which is skipped.  A later
    group replaces what an earlier one has set.  An option that needs a value
    and stands last is skipped without an error, and an interval that [int]
    does not accept ends the loop with [ValueError]. *)
Theorem command_line_is_read_by_groups (gs : list Cli.group) (last : str) (o : Cli.Options) :
  Forall Cli.well_formed gs ->
  In last [L "--output"; L "--template"; L "--config"; L "--interval"] ->
  Cli.parse_args (concat (map Cli.words gs)) o = Some (fold_left Cli.effect gs o)
  /\ Cli.parse_args (concat (map Cli.words gs) ++ [last]) o = Some (fold_left Cli.effect gs o)
  /\ forall value rest,
       Cli.int_of_str value = None ->
       Cli.parse_args (concat (map Cli.words gs) ++ L "--interval" :: value :: rest) o = None.
Proof.
  intros Hgs Hlast. split; [|split].
  - rewrite <- (app_nil_r (concat _)). rewrite parse_groups by exact Hgs. reflexivity.
  - rewrite parse_groups by exact Hgs.
    destruct Hlast as [<-|[<-|[<-|[<-|[]]]]]; reflexivity.
  - intros value rest Hv. rewrite parse_groups by exact Hgs.
    cbn [Cli.parse_args]. rewrite Hv. reflexivity.
Qed.

(** The word after [--output] is its value although it is the watch flag, the
    second output directory replaces it, and [1.5] is no interval. *)
Lemma command_line_is_read_by_groups_witness :
  Cli.parse_args [L "extra"; L "--output"; L "--watch"; L "--interval"; L " 1_0 ";
                  L "--output"; L "out"; L "--template"] Cli.initial
  = Some (Cli.mkOptions (Some (L "out")) None None false 10)
  /\ Cli.parse_args [L "extra"; L "--output"; L "--watch"; L "--interval"; L " 1_0 ";
                     L "--output"; L "out"; L "--interval"; L "1.5"; L "--watch"] Cli.initial
     = None.
Proof.
  destruct (command_line_is_read_by_groups
              [Cli.Other (L "extra"); Cli.Output (L "--watch"); Cli.Interval (L " 1_0 ");
               Cli.Output (L "out")] (L "--template") Cli.initial) as (_ & H1 & H2).
  - each ltac:(first [exact I | eexists; reflexivity | vm_compute; intuition discriminate]).
  - simpl. tauto.
  - split; [exact H1|]. apply (H2 (L "1.5") [L "--watch"]). reflexivity.
Defined.
